(** * Record linkage between the Medicaid NADAC price list and the openFDA
      NDC directory: a shallow embedding of the raw-data processor

    The processor normalises NDC strings, indexes every openFDA product
    under its normalised variants, links each Medicaid row to openFDA
    products by substring containment, filters the links by brand-name
    token overlap, keeps the longest-variant links and writes the result
    as a consolidated file, a search index, fixed-size chunks with a
    manifest, and a description-to-classification map.

    Conventions of the embedding.
    - A JavaScript string is a [string]: a sequence of 8-bit code units,
      read as the Latin-1 range of UTF-16.  Case mapping and the
      whitespace class are those of JavaScript restricted to that range.
    - A JavaScript [Map] is an association list kept in insertion order
      (iteration order is observable in the reverse phase of the matcher);
      a [Set] that is only tested for membership is a [gset].
    - The file system is a finite map from paths to the values that were
      serialised into them; [writeFileSync], [rmSync] and [mkdirSync] may
      throw. *)

From Stdlib Require Import Ascii Arith Bool Lia.
From stdpp Require Import gmap strings list fin_maps pretty sorting.

Local Open Scope nat_scope.

(** ** Characters *)

Module Char.

Definition code (c : ascii) : nat := nat_of_ascii c.

(** [\d] *)
Definition is_digit (c : ascii) : bool :=
  (48 <=? code c) && (code c <=? 57).

(** [[a-z0-9]] *)
Definition is_lower_alnum (c : ascii) : bool :=
  is_digit c || ((97 <=? code c) && (code c <=? 122)).

(** [\s], which is also the class removed by [trim]: TAB, LF, VT, FF, CR,
    SPACE and NO-BREAK SPACE are its members below 256. *)
Definition is_space (c : ascii) : bool :=
  ((9 <=? code c) && (code c <=? 13)) || (code c =? 32) || (code c =? 160).

(** [toLowerCase] on one code unit: A-Z, and the Latin-1 capitals
    U+00C0..U+00DE except the multiplication sign U+00D7. *)
Definition is_upper (c : ascii) : bool :=
  ((65 <=? code c) && (code c <=? 90))
  || ((192 <=? code c) && (code c <=? 222) && negb (code c =? 215)).

Definition to_lower (c : ascii) : ascii :=
  if is_upper c then ascii_of_nat (code c + 32) else c.

End Char.

(** ** String primitives of the host language *)

Module Str.

Fixpoint map (f : ascii -> ascii) (s : string) : string :=
  match s with
  | EmptyString => EmptyString
  | String c r => String (f c) (map f r)
  end.

Fixpoint filter (p : ascii -> bool) (s : string) : string :=
  match s with
  | EmptyString => EmptyString
  | String c r => if p c then String c (filter p r) else filter p r
  end.

Fixpoint all (p : ascii -> bool) (s : string) : bool :=
  match s with
  | EmptyString => true
  | String c r => p c && all p r
  end.

(** A string is falsy exactly when it is empty. *)
Definition truthy (s : string) : bool :=
  match s with EmptyString => false | String _ _ => true end.

Definition toLowerCase (s : string) : string := map Char.to_lower s.

Fixpoint trimStart (s : string) : string :=
  match s with
  | EmptyString => EmptyString
  | String c r => if Char.is_space c then trimStart r else s
  end.

Fixpoint trimEnd (s : string) : string :=
  match s with
  | EmptyString => EmptyString
  | String c r =>
      let r' := trimEnd r in
      if Char.is_space c && negb (truthy r') then EmptyString
      else String c r'
  end.

Definition trim (s : string) : string := trimEnd (trimStart s).

(** [s.replace(/\s+/g, ' ')]: every maximal run of whitespace becomes one
    space.  [inrun] tells that the previous code unit was whitespace. *)
Fixpoint collapse_ws (inrun : bool) (s : string) : string :=
  match s with
  | EmptyString => EmptyString
  | String c r =>
      if Char.is_space c
      then (if inrun then collapse_ws true r
            else String " " (collapse_ws true r))
      else String c (collapse_ws false r)
  end.

(** [s.replace(/-/g, r)] for a replacement [r] of at most one code unit. *)
Fixpoint replace_hyphen (r : string) (s : string) : string :=
  match s with
  | EmptyString => EmptyString
  | String c t =>
      if Ascii.eqb c "-" then r +:+ replace_hyphen r t
      else String c (replace_hyphen r t)
  end.

(** [s.replace(/\D+/g, '')] *)
Definition strip_non_digits (s : string) : string := filter Char.is_digit s.

(** [hay.includes(needle)] *)
Fixpoint includes (hay needle : string) : bool :=
  String.prefix needle hay
  || match hay with
     | EmptyString => false
     | String _ r => includes r needle
     end.

(** [s.split(/[^a-z0-9]+/)]: the pieces between maximal separator runs,
    empty pieces at either end included.  [cur] is the piece being read,
    reversed; [insep] tells that the previous code unit was a separator. *)
Fixpoint split_go (cur : string) (insep : bool) (s : string) : list string :=
  match s with
  | EmptyString => [String.rev cur]
  | String c r =>
      if Char.is_lower_alnum c then split_go (String c cur) false r
      else if insep then split_go cur true r
      else String.rev cur :: split_go EmptyString true r
  end.

Definition split_non_alnum (s : string) : list string :=
  split_go EmptyString false s.

(** [s.slice(i, i + n)] for [i + n <= s.length] *)
Definition slice (i n : nat) (s : string) : string := String.substring i n s.

End Str.

(** ** Helpers of the processor *)

Definition normalizeWhitespaceLower (s : string) : string :=
  if Str.truthy s
  then Str.trim (Str.collapse_ws false (Str.toLowerCase s))
  else "".

Definition tokenizeWords (s : string) : list string :=
  List.filter (fun t => Str.truthy t && (3 <=? String.length t))
              (Str.split_non_alnum (normalizeWhitespaceLower s)).

Definition normalizeMedNdc (ndc : string) : string :=
  if Str.truthy ndc then Str.trim (Str.strip_non_digits ndc) else "".

Definition openFdaDigitsKeepZeros (productNdc : string) : string :=
  if Str.truthy productNdc
  then Str.strip_non_digits (Str.replace_hyphen "" productNdc)
  else "".

Definition openFdaHyphenZeroFill (productNdc : string) : string :=
  if Str.truthy productNdc
  then Str.strip_non_digits (Str.replace_hyphen "0" productNdc)
  else "".

(** ** The [Map] of the host language

    Keys are compared with [eqb]; [set] on a present key replaces the value
    in place, on an absent key it appends the binding, so that the list is
    in the iteration order of the [Map]. *)

Module JsMap.
Section JsMap.
Context {K V : Type} (eqb : K -> K -> bool).

Fixpoint get (k : K) (m : list (K * V)) : option V :=
  match m with
  | [] => None
  | (k', v) :: r => if eqb k k' then Some v else get k r
  end.

Definition has (k : K) (m : list (K * V)) : bool :=
  match get k m with Some _ => true | None => false end.

Fixpoint set (k : K) (v : V) (m : list (K * V)) : list (K * V) :=
  match m with
  | [] => [(k, v)]
  | (k', v') :: r =>
      if eqb k k' then (k, v) :: r else (k', v') :: set k v r
  end.

Definition keys (m : list (K * V)) : list K := List.map fst m.

End JsMap.
End JsMap.

(** [addToMapArray]: push onto the array stored under [key], or store a new
    one-element array. *)
Definition addToMapArray {V : Type} (map : list (string * list V))
    (key : string) (value : V) : list (string * list V) :=
  match JsMap.get String.eqb key map with
  | Some arr => JsMap.set String.eqb key (arr ++ [value]) map
  | None => JsMap.set String.eqb key [value] map
  end.

(** ** Data model *)

Inductive VType := digits | zeroFill.
Inductive MatchMode := forward | reverse.

Global Instance VType_eq_dec : EqDecision VType.
Proof. solve_decision. Defined.
Global Instance MatchMode_eq_dec : EqDecision MatchMode.
Proof. solve_decision. Defined.

Definition vtype_name (t : VType) : string :=
  match t with digits => "digits" | zeroFill => "zeroFill" end.

Record ActiveIngredient := {
  ai_name : option string;
  ai_strength : option string
}.

(** The [route] property of a raw openFDA item: an array, a single string,
    or absent. *)
Inductive RouteField :=
| RouteArray (rs : list string)
| RouteString (r : string)
| RouteAbsent.

(** A raw openFDA item.  Every property may be absent, and the names of
    several are accepted in two spellings. *)
Module Item.
Record t := {
  product_ndc : option string;
  productNdc : option string;
  brand_name : option string;
  brandName : option string;
  generic_name : option string;
  genericName : option string;
  active_ingredients : option (list ActiveIngredient);
  dosage_form : option string;
  dosageForm : option string;
  route : RouteField;
  labeler_name : option string;
  labelerName : option string
}.
End Item.

(** [a || b || ''] on optional strings *)
Definition or_else (a b : option string) : string :=
  match a with
  | Some s => if Str.truthy s then s else
      match b with
      | Some s' => if Str.truthy s' then s' else ""
      | None => ""
      end
  | None =>
      match b with
      | Some s' => if Str.truthy s' then s' else ""
      | None => ""
      end
  end.

(** [s || undefined] *)
Definition or_undefined (s : string) : option string :=
  if Str.truthy s then Some s else None.

(** An entry of the index: the openFDA product with its two normal forms. *)
Module Entry.
Record t := {
  productNdc : string;
  ndcDigits : string;
  ndcZeroFill : string;
  brandName : string;
  genericName : string;
  activeIngredients : list ActiveIngredient;
  dosageForm : string;
  routes : list string;
  labelerName : string
}.
End Entry.

Definition toEntry (item : Item.t) : Entry.t :=
  let productNdc := or_else (Item.product_ndc item) (Item.productNdc item) in
  {| Entry.productNdc := productNdc;
     Entry.ndcDigits := openFdaDigitsKeepZeros productNdc;
     Entry.ndcZeroFill := openFdaHyphenZeroFill productNdc;
     Entry.brandName := or_else (Item.brand_name item) (Item.brandName item);
     Entry.genericName :=
       or_else (Item.generic_name item) (Item.genericName item);
     Entry.activeIngredients :=
       match Item.active_ingredients item with Some l => l | None => [] end;
     Entry.dosageForm :=
       or_else (Item.dosage_form item) (Item.dosageForm item);
     Entry.routes :=
       match Item.route item with
       | RouteArray rs => rs
       | RouteString r => if Str.truthy r then [r] else []
       | RouteAbsent => []
       end;
     Entry.labelerName :=
       or_else (Item.labeler_name item) (Item.labelerName item) |}.

(** What the index stores under a variant string. *)
Record IdxRec := {
  idx : nat;
  variant : string;
  vtype : VType
}.

(** variant string -> records, and variant length -> such a map *)
Definition Bucket := list (string * list IdxRec).
Definition LenMap := list (nat * Bucket).

Record OpenIdx := {
  entries : list Entry.t;
  ndcByLength : LenMap
}.

(** ** The index builder *)

(** The body of [if (!seen.has(cur)) { ... }] *)
Definition indexVariant (i : nat) (t : VType) (cur : string)
    (m : LenMap) : LenMap :=
  let L := String.length cur in
  let m1 := if JsMap.has Nat.eqb L m then m else JsMap.set Nat.eqb L [] m in
  let mapL := default [] (JsMap.get Nat.eqb L m1) in
  JsMap.set Nat.eqb L
    (addToMapArray mapL cur {| idx := i; variant := cur; vtype := t |}) m1.

Definition visitVariant (i : nat) (t : VType) (cur : string)
    (st : gset string * LenMap) : gset string * LenMap :=
  if decide (cur ∈ st.1) then st
  else ({[cur]} ∪ st.1, indexVariant i t cur st.2).

(** The [while (true)] loop: it ends at the floor of five code units, at a
    first code unit other than ['0'], and otherwise goes on with
    [cur.slice(1)], the tail of [cur]. *)
Fixpoint stripLoop (i : nat) (t : VType) (cur : string)
    (st : gset string * LenMap) {struct cur} : gset string * LenMap :=
  let st1 := visitVariant i t cur st in
  if String.length cur <=? 5 then st1
  else match cur with
       | String c rest =>
           if Ascii.eqb c "0" then stripLoop i t rest st1 else st1
       | EmptyString => st1
       end.

(** The body of [variants.forEach] *)
Definition indexForm (i : nat) (t : VType) (v : string)
    (st : gset string * LenMap) : gset string * LenMap :=
  if Str.truthy v then stripLoop i t v st else st.

(** The body of [entries.forEach]: a fresh [seen], then the digits-only
    form, then the zero-fill form. *)
Definition indexEntry (i : nat) (e : Entry.t) (m : LenMap) : LenMap :=
  let st0 : gset string * LenMap := (∅, m) in
  let st1 := indexForm i digits (Str.trim (Entry.ndcDigits e)) st0 in
  let st2 := indexForm i zeroFill (Str.trim (Entry.ndcZeroFill e)) st1 in
  st2.2.

Fixpoint indexEntries (i : nat) (es : list Entry.t) (m : LenMap) : LenMap :=
  match es with
  | [] => m
  | e :: r => indexEntries (S i) r (indexEntry i e m)
  end.

Definition buildOpenFdaIndexes (openFdaArr : list Item.t) : OpenIdx :=
  let es := List.map toEntry openFdaArr in
  {| entries := es; ndcByLength := indexEntries 0 es [] |}.

Definition item_of (ndc brand : string) : Item.t :=
  {| Item.product_ndc := Some ndc; Item.productNdc := None;
     Item.brand_name := Some brand; Item.brandName := None;
     Item.generic_name := None; Item.genericName := None;
     Item.active_ingredients := None;
     Item.dosage_form := None; Item.dosageForm := None;
     Item.route := RouteAbsent;
     Item.labeler_name := None; Item.labelerName := None |}.

(** ** Display fields of a match *)

Fixpoint uniqueList_go (limit : nat) (arr : list string)
    (seen : gset string) (out : list string) : list string :=
  match arr with
  | [] => out
  | v :: r =>
      let t := Str.trim v in
      if negb (Str.truthy t) then uniqueList_go limit r seen out
      else if decide (t ∈ seen) then uniqueList_go limit r seen out
      else
        let out' := out ++ [t] in
        if limit <=? length out' then out'
        else uniqueList_go limit r ({[t]} ∪ seen) out'
  end.

Definition uniqueList (arr : list string) (limit : nat) : list string :=
  uniqueList_go limit arr ∅ [].

Definition truthy_or_empty (o : option string) : string :=
  match o with
  | Some s => s
  | None => ""
  end.

Definition formatActiveIngredients (aiArray : list ActiveIngredient)
    : option string :=
  match aiArray with
  | [] => None
  | _ =>
      let part (ai : ActiveIngredient) :=
        let n := truthy_or_empty (ai_name ai) in
        let st := truthy_or_empty (ai_strength ai) in
        let left := if Str.truthy n then n else st in
        let right :=
          if Str.truthy n && Str.truthy st then " " +:+ st else "" in
        Str.trim (left +:+ right) in
      let parts := List.filter Str.truthy (List.map part aiArray) in
      match parts with
      | [] => None
      | _ => Some (String.concat "; " parts)
      end
  end.

Definition truthy_opt (o : option string) : option string :=
  match o with
  | Some s => or_undefined s
  | None => None
  end.

Definition mapActiveIngredientsDetailed (aiArray : list ActiveIngredient)
    : option (list ActiveIngredient) :=
  let shown (o : option string) :=
    match o with
    | Some s => Str.truthy s && Str.truthy (Str.trim s)
    | None => false
    end in
  let out :=
    List.filter (fun x => shown (ai_name x) || shown (ai_strength x))
      (List.map (fun ai => {| ai_name := truthy_opt (ai_name ai);
                              ai_strength := truthy_opt (ai_strength ai) |})
         aiArray) in
  match out with
  | [] => None
  | _ => Some out
  end.

(** One link from a Medicaid row to an openFDA product. *)
Module Match.
Record t := {
  productNdc : string;
  normalizedProductNdc : string;
  matchedVariantType : VType;
  matchMode : MatchMode;
  brandName : string;
  genericName : string;
  dosageForm : option string;
  routes : list string;
  dosageStrength : option string;
  activeIngredientsDetailed : option (list ActiveIngredient);
  labelerName : option string;
  bestMatch : option bool
}.
End Match.

Definition formatOpenFdaMatcher (e : Entry.t) (v : string) (t : VType)
    (matchMode : MatchMode) : Match.t :=
  {| Match.productNdc := Entry.productNdc e;
     Match.normalizedProductNdc := v;
     Match.matchedVariantType := t;
     Match.matchMode := matchMode;
     Match.brandName := Entry.brandName e;
     Match.genericName := Entry.genericName e;
     Match.dosageForm := or_undefined (Entry.dosageForm e);
     Match.routes := uniqueList (Entry.routes e) 5;
     Match.dosageStrength :=
       formatActiveIngredients (Entry.activeIngredients e);
     Match.activeIngredientsDetailed :=
       mapActiveIngredientsDetailed (Entry.activeIngredients e);
     Match.labelerName := or_undefined (Entry.labelerName e);
     Match.bestMatch := None |}.

(** ** The linkage resolver *)

(** [entries[idx]].  The index builder only stores positions of [entries]
    (lemma [build_idx_in_range] below), so the default is never read on an
    index it has built. *)
Definition noEntry : Entry.t :=
  {| Entry.productNdc := ""; Entry.ndcDigits := ""; Entry.ndcZeroFill := "";
     Entry.brandName := ""; Entry.genericName := "";
     Entry.activeIngredients := []; Entry.dosageForm := "";
     Entry.routes := []; Entry.labelerName := "" |}.

Definition entryAt (es : list Entry.t) (i : nat) : Entry.t :=
  default noEntry (es !! i).

(** [idx + '|' + variant + '|' + vtype] *)
Definition sigOf (r : IdxRec) : string :=
  pretty (idx r) +:+ "|" +:+ variant r +:+ "|" +:+ vtype_name (vtype r).

Definition MatchState : Type := list Match.t * gset string.

(** [for (const { idx, variant, vtype } of arr) { ... }] *)
Definition pushRec (mode : MatchMode) (es : list Entry.t)
    (st : MatchState) (r : IdxRec) : MatchState :=
  if decide (sigOf r ∈ st.2) then st
  else (st.1 ++ [formatOpenFdaMatcher (entryAt es (idx r)) (variant r)
                   (vtype r) mode],
        {[sigOf r]} ∪ st.2).

Definition pushRecs (mode : MatchMode) (es : list Entry.t)
    (arr : list IdxRec) (st : MatchState) : MatchState :=
  fold_left (pushRec mode es) arr st.

(** [[...ndcByLength.keys()].sort((a, b) => a - b)] *)
Definition lengthsAsc (m : LenMap) : list nat :=
  merge_sort Nat.le (JsMap.keys m).

Definition bucketOf (m : LenMap) (L : nat) : Bucket :=
  default [] (JsMap.get Nat.eqb L m).

(** The forward phase at one length [L <= medLen]: every substring of
    [medDigits] of that length, left to right. *)
Definition forwardStep (openIdx : OpenIdx) (medDigits : string)
    (st : MatchState) (L : nat) : MatchState :=
  let mapL := bucketOf (ndcByLength openIdx) L in
  fold_left
    (fun st i =>
       match JsMap.get String.eqb (Str.slice i L medDigits) mapL with
       | Some arr => pushRecs forward (entries openIdx) arr st
       | None => st
       end)
    (seq 0 (String.length medDigits - L + 1)) st.

Definition forwardPhase (openIdx : OpenIdx) (medDigits : string)
    (st : MatchState) : MatchState :=
  fold_left (forwardStep openIdx medDigits)
    (List.filter (fun L => L <=? String.length medDigits)
       (lengthsAsc (ndcByLength openIdx)))
    st.

(** The reverse phase at one length [L > medLen]: every key of the bucket
    that contains [medDigits], in the iteration order of the bucket. *)
Definition reverseStep (openIdx : OpenIdx) (medDigits : string)
    (st : MatchState) (L : nat) : MatchState :=
  let mapL := bucketOf (ndcByLength openIdx) L in
  fold_left
    (fun st (ka : string * list IdxRec) =>
       if Str.includes ka.1 medDigits
       then pushRecs reverse (entries openIdx) ka.2 st
       else st)
    mapL st.

Definition reversePhase (openIdx : OpenIdx) (medDigits : string)
    (st : MatchState) : MatchState :=
  fold_left (reverseStep openIdx medDigits)
    (List.filter (fun L => String.length medDigits <? L)
       (lengthsAsc (ndcByLength openIdx)))
    st.

Definition collectOpenFdaNdcMatches (medNdcOriginal : string)
    (openIdx : OpenIdx) : list Match.t :=
  let medDigits := normalizeMedNdc medNdcOriginal in
  if negb (Str.truthy medDigits) then []
  else
    let st := forwardPhase openIdx medDigits ([], ∅) in
    if 0 <? length st.1 then st.1
    else (reversePhase openIdx medDigits st).1.

(** ** Medicaid rows and enriched records *)

(** A deduplicated Medicaid row.  Description and NDC are strings (empty
    when the column is missing), every other column is optional. *)
Module Med.
Record t := {
  ndc_description : string;
  ndc : string;
  nadac_per_unit : option string;
  effective_date : option string;
  pricing_unit : option string;
  pharmacy_type_indicator : option string;
  otc : option string;
  explanation_code : option string;
  classification_for_rate_setting : option string;
  corresponding_generic_drug_nadac_per_unit : option string;
  corresponding_generic_drug_effective_date : option string;
  as_of_date : option string
}.
End Med.

(** A record of the output: the properties it has, and [fdaMatches] when
    the row was linked. *)
Module Enriched.
Record t := {
  ndc_description : string;
  ndc : string;
  nadac_per_unit : option string;
  effective_date : option string;
  pricing_unit : option string;
  pharmacy_type_indicator : option string;
  otc : option string;
  explanation_code : option string;
  classification_for_rate_setting : option string;
  corresponding_generic_drug_nadac_per_unit : option string;
  corresponding_generic_drug_effective_date : option string;
  as_of_date : option string;
  fdaMatches : option (list Match.t)
}.
End Enriched.

(** [{ ...med, fdaMatches: matches }] *)
Definition withMatches (med : Med.t) (matches : list Match.t) : Enriched.t :=
  {| Enriched.ndc_description := Med.ndc_description med;
     Enriched.ndc := Med.ndc med;
     Enriched.nadac_per_unit := Med.nadac_per_unit med;
     Enriched.effective_date := Med.effective_date med;
     Enriched.pricing_unit := Med.pricing_unit med;
     Enriched.pharmacy_type_indicator := Med.pharmacy_type_indicator med;
     Enriched.otc := Med.otc med;
     Enriched.explanation_code := Med.explanation_code med;
     Enriched.classification_for_rate_setting :=
       Med.classification_for_rate_setting med;
     Enriched.corresponding_generic_drug_nadac_per_unit :=
       Med.corresponding_generic_drug_nadac_per_unit med;
     Enriched.corresponding_generic_drug_effective_date :=
       Med.corresponding_generic_drug_effective_date med;
     Enriched.as_of_date := Med.as_of_date med;
     Enriched.fdaMatches := Some matches |}.

(** [{ ndc_description: med.ndc_description, ndc: med.ndc }] *)
Definition withoutMatches (med : Med.t) : Enriched.t :=
  {| Enriched.ndc_description := Med.ndc_description med;
     Enriched.ndc := Med.ndc med;
     Enriched.nadac_per_unit := None;
     Enriched.effective_date := None;
     Enriched.pricing_unit := None;
     Enriched.pharmacy_type_indicator := None;
     Enriched.otc := None;
     Enriched.explanation_code := None;
     Enriched.classification_for_rate_setting := None;
     Enriched.corresponding_generic_drug_nadac_per_unit := None;
     Enriched.corresponding_generic_drug_effective_date := None;
     Enriched.as_of_date := None;
     Enriched.fdaMatches := None |}.

(** ** Semantic filter and best-match selection *)

(** The predicate of the second-stage [filter]: a brand name that is not
    blank, one of whose tokens is a token of the description. *)
Definition brandOverlaps (descTokens : gset string) (m : Match.t) : bool :=
  let hasBrand :=
    0 <? String.length (normalizeWhitespaceLower (Match.brandName m)) in
  if negb hasBrand then false
  else
    let brandTokens := tokenizeWords (Match.brandName m) in
    existsb (fun t => bool_decide (t ∈ descTokens)) brandTokens.

Definition semanticFilter (description : string) (matches : list Match.t)
    : list Match.t :=
  let descTokens : gset string := list_to_set (tokenizeWords description) in
  List.filter (brandOverlaps descTokens) matches.

(** [m.normalizedProductNdc ? String(m.normalizedProductNdc).length : 0];
    the empty string has length 0 either way. *)
Definition variantLength (m : Match.t) : nat :=
  if Str.truthy (Match.normalizedProductNdc m)
  then String.length (Match.normalizedProductNdc m)
  else 0.

(** [{ ...m, bestMatch: true }] *)
Definition markBest (m : Match.t) : Match.t :=
  {| Match.productNdc := Match.productNdc m;
     Match.normalizedProductNdc := Match.normalizedProductNdc m;
     Match.matchedVariantType := Match.matchedVariantType m;
     Match.matchMode := Match.matchMode m;
     Match.brandName := Match.brandName m;
     Match.genericName := Match.genericName m;
     Match.dosageForm := Match.dosageForm m;
     Match.routes := Match.routes m;
     Match.dosageStrength := Match.dosageStrength m;
     Match.activeIngredientsDetailed := Match.activeIngredientsDetailed m;
     Match.labelerName := Match.labelerName m;
     Match.bestMatch := Some true |}.

Definition keepBest (matches : list Match.t) : list Match.t :=
  if 0 <? length matches then
    let lengths :=
      List.filter (fun L => 0 <? L) (List.map variantLength matches) in
    let maxLen := if 0 <? length lengths then max_list lengths else 0 in
    List.map markBest
      (List.filter (fun m => variantLength m =? maxLen) matches)
  else matches.

(** The body of [for (const med of uniqueMed)], without the counters that
    are only logged. *)
Definition enrichOne (openIdx : OpenIdx) (med : Med.t) : Enriched.t :=
  let matches := collectOpenFdaNdcMatches (Med.ndc med) openIdx in
  let matches := semanticFilter (Med.ndc_description med) matches in
  let matches := keepBest matches in
  if 0 <? length matches then withMatches med matches
  else withoutMatches med.

Definition enrichAll (uniqueMed : list Med.t) (openIdx : OpenIdx)
    : list Enriched.t :=
  List.map (enrichOne openIdx) uniqueMed.

(** ** Output files *)

Record ChunkMeta := {
  filename : string;
  count : nat
}.

Record Manifest := {
  total : nat;
  chunkSize : nat;
  numberOfChunks : nat;
  chunks : list ChunkMeta
}.

(** The value serialised into a file. *)
Inductive Artifact :=
| EnrichedJson (records : list Enriched.t)
| SearchIndexJson (descriptions : list string)
| ManifestJson (manifest : Manifest)
| DescClassJson (descClassMap : gmap string string).

Definition join (dir name : string) : string := dir +:+ "/" +:+ name.

Definition PUBLIC_DATA_DIR : string := "public/data".
Definition OUT_ENRICHED_PUBLIC : string :=
  join PUBLIC_DATA_DIR "enriched_medicaid_openfda.json".
Definition OUT_SEARCH_INDEX_PUBLIC : string :=
  join PUBLIC_DATA_DIR "search-index-enriched.json".
Definition ENRICHED_CHUNKS_DIR : string :=
  join PUBLIC_DATA_DIR "enriched-chunks".
Definition DESC_CLASS_MAP_PATH : string :=
  join PUBLIC_DATA_DIR "description-classification.json".
Definition MANIFEST_PATH : string :=
  join ENRICHED_CHUNKS_DIR "chunks-manifest.json".

(** ** A monad for the file system

    A computation takes the files and either returns a value with the new
    files or throws, leaving the files as they were when it threw. *)

Inductive Outcome (A : Type) :=
| Returned (a : A) (fs : gmap string Artifact)
| Thrown (fs : gmap string Artifact).
Arguments Returned {A} a fs.
Arguments Thrown {A} fs.

Definition IO (A : Type) : Type := gmap string Artifact -> Outcome A.

Global Instance IO_ret : MRet IO := fun A a fs => Returned a fs.

Global Instance IO_bind : MBind IO := fun A B k c fs =>
  match c fs with
  | Returned a fs' => k a fs'
  | Thrown fs' => Thrown fs'
  end.

(** The files after the computation, whether it returned or threw. *)
Definition filesOf {A : Type} (o : Outcome A) : gmap string Artifact :=
  match o with
  | Returned _ fs => fs
  | Thrown fs => fs
  end.

(** The exit status of a process whose top level is the computation: every
    exception reaches a handler that calls [process.exit(1)]. *)
Definition exitStatus {A : Type} (o : Outcome A) : nat :=
  match o with
  | Returned _ _ => 0
  | Thrown _ => 1
  end.

Section Pipeline.

(** The paths the process can change: [writeFileSync] throws on a file it
    cannot write and leaves the file as it was; [rmSync] and [mkdirSync]
    throw on a directory they cannot change and leave its files as they
    were. *)
Variable writable : string -> bool.

Definition writeFileSync (path : string) (data : Artifact) : IO unit :=
  fun fs =>
    if writable path then Returned tt (<[path := data]> fs)
    else Thrown fs.

(** [fs.rmSync(dir, { recursive: true, force: true })]: no file is left
    below [dir], or it throws. *)
Definition rmSync (dir : string) : IO unit :=
  fun fs =>
    if writable dir then
      Returned tt
        (filter (fun pa : string * Artifact =>
                   String.prefix (dir +:+ "/") pa.1 = false) fs)
    else Thrown fs.

(** [fs.mkdirSync(dir, { recursive: true })]: no file changes, or it
    throws. *)
Definition mkdirSync (dir : string) : IO unit :=
  fun fs => if writable dir then Returned tt fs else Thrown fs.

(** [if (fs.existsSync(dir)) fs.rmSync(dir, ...)] followed by
    [fs.mkdirSync(dir, ...)].  A directory that does not exist has no file
    below it, and then [rmSync] and skipping it leave the same files and
    throw in the same case as the [mkdirSync] that follows. *)
Definition resetDir (dir : string) : IO unit :=
  rmSync dir ;; mkdirSync dir.

(** [Array.from(new Set(descriptions.filter(Boolean))).sort()]: the
    non-empty descriptions without repetition, in the order of their code
    units.  The strings being distinct and the order total, the result does
    not depend on which occurrence of a repeated description is kept. *)
Definition searchDescriptions (enriched : list Enriched.t) : list string :=
  merge_sort String.le
    (remove_dups
       (List.filter Str.truthy (List.map Enriched.ndc_description enriched))).

(** The end of [enrichMedicaidWithOpenFda]: the consolidated file, then the
    search index. *)
Definition enrichMedicaidWithOpenFda (uniqueMed : list Med.t)
    (openIdx : OpenIdx) : IO (list Enriched.t) :=
  let enriched := enrichAll uniqueMed openIdx in
  writeFileSync OUT_ENRICHED_PUBLIC (EnrichedJson enriched) ;;
  writeFileSync OUT_SEARCH_INDEX_PUBLIC
    (SearchIndexJson (searchDescriptions enriched)) ;;
  mret enriched.

Definition CHUNK_SIZE : nat := 4000.

Definition chunkName (n : nat) : string :=
  "enriched-chunk-" +:+ pretty n +:+ ".json".

(** [for (let i = 0; i < enriched.length; i += chunkSize)].  Each turn
    advances [i], so [length enriched] turns of [fuel] are enough. *)
Fixpoint chunkLoop (fuel i : nat) (enriched : list Enriched.t)
    (chunksMeta : list ChunkMeta) : IO (list ChunkMeta) :=
  match fuel with
  | 0 => mret chunksMeta
  | S fuel' =>
      if i <? length enriched then
        let slice := take CHUNK_SIZE (drop i enriched) in
        let fname := chunkName (length chunksMeta + 1) in
        writeFileSync (join ENRICHED_CHUNKS_DIR fname) (EnrichedJson slice) ;;
        chunkLoop fuel' (i + CHUNK_SIZE) enriched
          (chunksMeta ++ [{| filename := fname; count := length slice |}])
      else mret chunksMeta
  end.

(** Names every object has through its prototype: [descClassMap[d]] is
    truthy for them although nothing was stored. *)
Definition inheritedNames : list string :=
  ["constructor"; "toString"; "toLocaleString"; "valueOf"; "hasOwnProperty";
   "isPrototypeOf"; "propertyIsEnumerable"; "__proto__";
   "__defineGetter__"; "__defineSetter__";
   "__lookupGetter__"; "__lookupSetter__"].

Definition descClassStep (m : gmap string string) (r : Enriched.t)
    : gmap string string :=
  let d := Enriched.ndc_description r in
  let c := default "" (Enriched.classification_for_rate_setting r) in
  if Str.truthy d && Str.truthy c
     && bool_decide (m !! d = None) && bool_decide (d ∉ inheritedNames)
  then <[d := c]> m else m.

Definition buildDescClassMap (enriched : list Enriched.t)
    : gmap string string :=
  fold_left descClassStep enriched ∅.

(** The [try] block of [main]: the chunk directory is emptied, the chunks,
    the manifest and the classification map are written. *)
Definition writeChunks (enriched : list Enriched.t) : IO unit :=
  resetDir ENRICHED_CHUNKS_DIR ;;
  chunksMeta ← chunkLoop (length enriched) 0 enriched [] ;
  let manifest :=
    {| total := length enriched;
       chunkSize := CHUNK_SIZE;
       numberOfChunks := length chunksMeta;
       chunks := chunksMeta |} in
  writeFileSync MANIFEST_PATH (ManifestJson manifest) ;;
  writeFileSync DESC_CLASS_MAP_PATH
    (DescClassJson (buildDescClassMap enriched)).

(** [main], from the two parsed inputs on. *)
Definition main (openFdaArr : list Item.t) (uniqueMed : list Med.t)
    : IO unit :=
  let openIdx := buildOpenFdaIndexes openFdaArr in
  enriched ← enrichMedicaidWithOpenFda uniqueMed openIdx ;
  writeChunks enriched.

End Pipeline.

Definition med_of (desc ndc : string) (price : option string) : Med.t :=
  {| Med.ndc_description := desc; Med.ndc := ndc;
     Med.nadac_per_unit := price; Med.effective_date := None;
     Med.pricing_unit := None; Med.pharmacy_type_indicator := None;
     Med.otc := None; Med.explanation_code := None;
     Med.classification_for_rate_setting := Some "G";
     Med.corresponding_generic_drug_nadac_per_unit := None;
     Med.corresponding_generic_drug_effective_date := None;
     Med.as_of_date := None |}.

(** ** The price list reader

    [buildMedicaidUnique] consumes the records the CSV parser yields, one
    object per data line with the column titles as property names and the
    trimmed cell texts as values, in file order. *)

Module Csv.

Definition Row := gmap string string.

(** [record[name] || undefined] *)
Definition field (record : Row) (name : string) : option string :=
  truthy_opt (record !! name).

(** [record['NDC Description'] || record['NDC Description '.trim()] || ''] *)
Definition desc (record : Row) : string :=
  match field record "NDC Description" with
  | Some s => s
  | None =>
      match field record (Str.trim "NDC Description ") with
      | Some s => s
      | None => ""
      end
  end.

(** [record['NDC'] || ''] *)
Definition ndc (record : Row) : string :=
  truthy_or_empty (record !! "NDC").

(** [`${desc}||${ndc}`] *)
Definition key (desc ndc : string) : string := desc +:+ "||" +:+ ndc.

(** The object pushed onto [unique]. *)
Definition toMed (record : Row) : Med.t :=
  {| Med.ndc_description := desc record;
     Med.ndc := ndc record;
     Med.nadac_per_unit := field record "NADAC Per Unit";
     Med.effective_date := field record "Effective Date";
     Med.pricing_unit := field record "Pricing Unit";
     Med.pharmacy_type_indicator := field record "Pharmacy Type Indicator";
     Med.otc := field record "OTC";
     Med.explanation_code := field record "Explanation Code";
     Med.classification_for_rate_setting :=
       field record "Classification for Rate Setting";
     Med.corresponding_generic_drug_nadac_per_unit :=
       field record "Corresponding Generic Drug NADAC Per Unit";
     Med.corresponding_generic_drug_effective_date :=
       field record "Corresponding Generic Drug Effective Date";
     Med.as_of_date := field record "As of Date" |}.

(** The variables of the reader: [seen], [unique], [rows], [deduped]. *)
Record State := {
  seen : gset string;
  unique : list Med.t;
  rows : nat;
  deduped : nat
}.

Definition start : State :=
  {| seen := ∅; unique := []; rows := 0; deduped := 0 |}.

(** The body of [while ((record = parserStream.read()) !== null)]. *)
Definition step (st : State) (record : Row) : State :=
  let k := key (desc record) (ndc record) in
  if decide (k ∈ seen st) then
    {| seen := seen st; unique := unique st;
       rows := rows st + 1; deduped := deduped st + 1 |}
  else
    {| seen := {[k]} ∪ seen st; unique := unique st ++ [toMed record];
       rows := rows st + 1; deduped := deduped st |}.

Definition read (records : list Row) : State :=
  fold_left step records start.

End Csv.

Definition buildMedicaidUnique (records : list Csv.Row) : list Med.t :=
  Csv.unique (Csv.read records).

(** * Definitions for the statements

    What the index, the matcher and a run are compared with: the records
    an entry contributes, the invariants of the loops, the slices and the
    files of a run, and the data of the examples. *)

(** The strings the [while] loop visits from [cur] on. *)
Fixpoint chain (cur : string) : list string :=
  cur ::
    (if String.length cur <=? 5 then []
     else match cur with
          | String c rest => if Ascii.eqb c "0" then chain rest else []
          | EmptyString => []
          end).

Definition formChain (v : string) : list string :=
  if Str.truthy v then chain v else [].

Definition recOf (i : nat) (t : VType) (v : string) : IdxRec :=
  {| idx := i; variant := v; vtype := t |}.

(** The records one entry contributes, in the order they are stored: its
    digits-only chain, then what the zero-fill chain adds to it. *)
Definition entryRecords (i : nat) (e : Entry.t) : list IdxRec :=
  let c1 := formChain (Str.trim (Entry.ndcDigits e)) in
  let c2 :=
    filter (fun c => c ∉ c1) (formChain (Str.trim (Entry.ndcZeroFill e))) in
  (recOf i digits <$> c1) ++ (recOf i zeroFill <$> c2).

Fixpoint emitted (i : nat) (es : list Entry.t) : list IdxRec :=
  match es with
  | [] => []
  | e :: r => entryRecords i e ++ emitted (S i) r
  end.

Definition insertRecs (rs : list IdxRec) (m : LenMap) : LenMap :=
  fold_left (fun m r => indexVariant (idx r) (vtype r) (variant r) m) rs m.

(** [ndcByLength.get(L).get(s)], empty when either key is absent. *)
Definition lookup2 (m : LenMap) (L : nat) (s : string) : list IdxRec :=
  default [] (JsMap.get String.eqb s (bucketOf m L)).

(** A record is stored under its own variant, in the bucket of the
    length of that variant. *)
Definition storedAt (L : nat) (s : string) (r : IdxRec) : Prop :=
  L = String.length (variant r) /\ s = variant r.

Global Instance storedAt_dec L s r : Decision (storedAt L s r).
Proof. unfold storedAt. apply _. Defined.

(** Every key of the bucket of length [L] has length [L], and every record
    under a key has that key as its variant and satisfies [P]. *)
Definition Stored (P : IdxRec -> Prop) (m : LenMap) : Prop :=
  forall L b key arr,
    In (L, b) m -> In (key, arr) b ->
    String.length key = L /\ forall r, In r arr -> variant r = key /\ P r.

(** The state of the matcher: [seen] is empty as long as nothing was
    pushed, and every match pushed satisfies [Pm]. *)
Definition StateOk (Pm : Match.t -> Prop) (st : MatchState) : Prop :=
  Forall Pm st.1 /\ (st.1 = [] -> st.2 = ∅).

Definition isForward (medDigits : string) (m : Match.t) : Prop :=
  Match.matchMode m = forward
  /\ String.length (Match.normalizedProductNdc m) <= String.length medDigits
  /\ exists i,
       Match.normalizedProductNdc m
       = Str.slice i (String.length (Match.normalizedProductNdc m)) medDigits.

Definition isReverse (medDigits : string) (m : Match.t) : Prop :=
  Match.matchMode m = reverse
  /\ String.length medDigits < String.length (Match.normalizedProductNdc m)
  /\ Str.includes (Match.normalizedProductNdc m) medDigits = true.

(** What the semantic filter asks of a match, against a description. *)
Definition SharesToken (description : string) (m : Match.t) : Prop :=
  normalizeWhitespaceLower (Match.brandName m) <> ""
  /\ exists t,
       In t (tokenizeWords (Match.brandName m))
       /\ In t (tokenizeWords description)
       /\ 3 <= String.length t
       /\ Str.all Char.is_lower_alnum t = true.

Global Instance SharesToken_dec description m :
  Decision (SharesToken description m).
Proof.
  unfold SharesToken.
  refine
    (cast_if_and
       (decide (normalizeWhitespaceLower (Match.brandName m) <> ""))
       (decide
          (Exists
             (fun t =>
                t ∈ tokenizeWords description
                /\ 3 <= String.length t
                /\ Str.all Char.is_lower_alnum t = true)
             (tokenizeWords (Match.brandName m))))).
  - split; [assumption|].
    match goal with H : Exists _ _ |- _ => apply Exists_exists in H;
      destruct H as (t & Ht & Hd & H3 & Ha) end.
    exists t. split; [by apply list_elem_of_In|].
    split; [by apply list_elem_of_In|]. by split.
  - intros (_ & t & Ht & Hd & H3 & Ha).
    match goal with H : ~ Exists _ _ |- _ => apply H end.
    apply Exists_exists. exists t. split; [by apply list_elem_of_In|].
    split; [by apply list_elem_of_In|]. by split.
  - by intros [? _].
Defined.

(** The candidates of a row that the semantic filter lets through. *)
Definition survivors (openIdx : OpenIdx) (med : Med.t) : list Match.t :=
  semanticFilter (Med.ndc_description med)
    (collectOpenFdaNdcMatches (Med.ndc med) openIdx).

(** Two products and a row for the examples: the row's identifier contains
    the five-digit code of the first product and is the seven-digit code of
    the second, and only the first product's brand is in the description. *)
Definition exItems : list Item.t :=
  [item_of "12345" "Aspirin"; item_of "1234567" "Zzz"].
Definition exMed : Med.t := med_of "ASPIRIN 81MG" "1234567" (Some "0.5").
Definition exShort : Match.t :=
  formatOpenFdaMatcher (toEntry (item_of "12345" "Aspirin"))
    "12345" digits forward.
Definition exLong : Match.t :=
  formatOpenFdaMatcher (toEntry (item_of "1234567" "Zzz"))
    "1234567" digits forward.
Definition exUnmatched : Med.t := med_of "FOO" "999" (Some "1.5").

(** The slices the chunk loop cuts from position [i] on. *)
Fixpoint slicesFrom (fuel i : nat) (enriched : list Enriched.t)
    : list (list Enriched.t) :=
  match fuel with
  | 0 => []
  | S fuel' =>
      if i <? length enriched
      then take CHUNK_SIZE (drop i enriched)
           :: slicesFrom fuel' (i + CHUNK_SIZE) enriched
      else []
  end.

(** Their sizes, from the number [n] of records still to be cut. *)
Fixpoint countsFrom (fuel n : nat) : list nat :=
  match fuel with
  | 0 => []
  | S fuel' =>
      if 0 <? n then Nat.min CHUNK_SIZE n :: countsFrom fuel' (n - CHUNK_SIZE)
      else []
  end.

(** The manifest entries of slices numbered from [k + 1] on. *)
Fixpoint metasOf (k : nat) (slices : list (list Enriched.t))
    : list ChunkMeta :=
  match slices with
  | [] => []
  | sl :: r =>
      {| filename := chunkName (k + 1); count := length sl |}
      :: metasOf (S k) r
  end.

Definition chunkPath (n : nat) : string :=
  join ENRICHED_CHUNKS_DIR (chunkName n).

(** The files after the slices numbered from [k + 1] on were written. *)
Fixpoint writeSlices (k : nat) (slices : list (list Enriched.t))
    (fs : gmap string Artifact) : gmap string Artifact :=
  match slices with
  | [] => fs
  | sl :: r => writeSlices (S k) r (<[chunkPath (k + 1) := EnrichedJson sl]> fs)
  end.

Definition chunksPrefix : string := ENRICHED_CHUNKS_DIR +:+ "/".

(** The files after the chunk directory was emptied. *)
Definition resetFiles (fs : gmap string Artifact) : gmap string Artifact :=
  filter (fun pa : string * Artifact =>
            String.prefix chunksPrefix pa.1 = false) fs.

Definition slicesOf (enriched : list Enriched.t) : list (list Enriched.t) :=
  slicesFrom (length enriched) 0 enriched.

Definition manifestOf (enriched : list Enriched.t) : Manifest :=
  {| total := length enriched;
     chunkSize := CHUNK_SIZE;
     numberOfChunks := length (metasOf 0 (slicesOf enriched));
     chunks := metasOf 0 (slicesOf enriched) |}.

(** The paths a run writes, in the order it writes them. *)
Definition targets (enriched : list Enriched.t) : list string :=
  [OUT_ENRICHED_PUBLIC; OUT_SEARCH_INDEX_PUBLIC]
  ++ (chunkPath <$> seq 1 (length (slicesOf enriched)))
  ++ [MANIFEST_PATH; DESC_CLASS_MAP_PATH].

(** The files once the two flat outputs are written. *)
Definition flatWritten (enriched : list Enriched.t)
    (fs : gmap string Artifact) : gmap string Artifact :=
  <[OUT_SEARCH_INDEX_PUBLIC := SearchIndexJson (searchDescriptions enriched)]>
    (<[OUT_ENRICHED_PUBLIC := EnrichedJson enriched]> fs).

(** The files of a run in which every write succeeded. *)
Definition allWritten (enriched : list Enriched.t)
    (fs : gmap string Artifact) : gmap string Artifact :=
  <[DESC_CLASS_MAP_PATH := DescClassJson (buildDescClassMap enriched)]>
    (<[MANIFEST_PATH := ManifestJson (manifestOf enriched)]>
       (writeSlices 0 (slicesOf enriched)
          (resetFiles (flatWritten enriched fs)))).

(** The files a run leaves when a write, or the reset of the chunk
    directory, fails: those of before, with what was written up to the first
    operation that failed. *)
Definition FailedRun (writable : string -> bool) (enriched : list Enriched.t)
    (fs fs' : gmap string Artifact) : Prop :=
  let base := resetFiles (flatWritten enriched fs) in
  (writable OUT_ENRICHED_PUBLIC = false /\ fs' = fs)
  \/ (writable OUT_ENRICHED_PUBLIC = true
      /\ writable OUT_SEARCH_INDEX_PUBLIC = false
      /\ fs' = <[OUT_ENRICHED_PUBLIC := EnrichedJson enriched]> fs)
  \/ (writable OUT_ENRICHED_PUBLIC = true
      /\ writable OUT_SEARCH_INDEX_PUBLIC = true
      /\ writable ENRICHED_CHUNKS_DIR = false
      /\ fs' = flatWritten enriched fs)
  \/ (writable OUT_ENRICHED_PUBLIC = true
      /\ writable OUT_SEARCH_INDEX_PUBLIC = true
      /\ writable ENRICHED_CHUNKS_DIR = true
      /\ exists n,
           n < length (slicesOf enriched)
           /\ writable (chunkPath (n + 1)) = false
           /\ fs' = writeSlices 0 (take n (slicesOf enriched)) base)
  \/ (writable OUT_ENRICHED_PUBLIC = true
      /\ writable OUT_SEARCH_INDEX_PUBLIC = true
      /\ writable ENRICHED_CHUNKS_DIR = true
      /\ writable MANIFEST_PATH = false
      /\ fs' = writeSlices 0 (slicesOf enriched) base)
  \/ (writable OUT_ENRICHED_PUBLIC = true
      /\ writable OUT_SEARCH_INDEX_PUBLIC = true
      /\ writable ENRICHED_CHUNKS_DIR = true
      /\ writable MANIFEST_PATH = true
      /\ writable DESC_CLASS_MAP_PATH = false
      /\ fs' = <[MANIFEST_PATH := ManifestJson (manifestOf enriched)]>
                 (writeSlices 0 (slicesOf enriched) base)).

(** A file system on which every write succeeds, and one on which only the
    write of a given path fails. *)
Definition allWritable : string -> bool := fun _ => true.
Definition allBut (path : string) : string -> bool :=
  fun p => negb (String.eqb p path).

(** ** Definitions for the further properties *)

(** The number of hyphens of a product code. *)
Fixpoint hyphens (s : string) : nat :=
  match s with
  | EmptyString => 0
  | String c r => (if Ascii.eqb c "-" then 1 else 0) + hyphens r
  end.

(** A string of whitespace only, the empty string included. *)
Definition blank (s : string) : bool := Str.all Char.is_space s.

(** An active ingredient with a name or a strength that is not blank. *)
Definition hasContent (ai : ActiveIngredient) : bool :=
  negb (blank (truthy_or_empty (ai_name ai)))
  || negb (blank (truthy_or_empty (ai_strength ai))).

(** A stored record [r] belongs to the product it points to: [idx r] is a
    position of [items], and the variant is on the stripping chain of the
    digits-only or of the zero-fill form of that item. *)
Definition variantOfItem (items : list Item.t) (r : IdxRec) : Prop :=
  exists item,
    items !! idx r = Some item
    /\ (variant r ∈ formChain (Str.trim (Entry.ndcDigits (toEntry item)))
        \/ variant r ∈ formChain (Str.trim (Entry.ndcZeroFill (toEntry item)))).

(** Every key occurs once, in the map of lengths and in every bucket. *)
Definition KeysOnce (m : LenMap) : Prop :=
  NoDup (JsMap.keys m) /\ forall L b, In (L, b) m -> NoDup (JsMap.keys b).

(** The match pushed for a stored record. *)
Definition matchOf (mode : MatchMode) (es : list Entry.t) (r : IdxRec)
    : Match.t :=
  formatOpenFdaMatcher (entryAt es (idx r)) (variant r) (vtype r) mode.

(** A record held by some array of some bucket of the index. *)
Definition storedIn (m : LenMap) (r : IdxRec) : Prop :=
  exists L b key arr, In (L, b) m /\ In (key, arr) b /\ In r arr.

(** From [st] to [st'] the matcher pushed the matches of records [rs] of the
    index, none of them seen before and no two with the same signature, and
    added their signatures to [seen]. *)
Definition Grows (mode : MatchMode) (openIdx : OpenIdx)
    (st st' : MatchState) : Prop :=
  exists rs,
    st'.1 = st.1 ++ (matchOf mode (entries openIdx) <$> rs)
    /\ st'.2 = list_to_set (sigOf <$> rs) ∪ st.2
    /\ NoDup (sigOf <$> rs)
    /\ forall r, r ∈ rs -> storedIn (ndcByLength openIdx) r /\ sigOf r ∉ st.2.

(** No code unit of the string is a vertical bar. *)
Definition noBar (s : string) : bool :=
  Str.all (fun c => negb (Ascii.eqb c "|")) s.

Fixpoint lastChar (s : string) : option ascii :=
  match s with
  | EmptyString => None
  | String c r => match lastChar r with Some x => Some x | None => Some c end
  end.

(** The classification the map holds for [d]: that of the first record with
    description [d] and a classification. *)
Fixpoint firstClass (d : string) (enriched : list Enriched.t)
    : option string :=
  match enriched with
  | [] => None
  | r :: rest =>
      let c := default "" (Enriched.classification_for_rate_setting r) in
      if String.eqb (Enriched.ndc_description r) d && Str.truthy c
      then Some c
      else firstClass d rest
  end.

(** The key under which the reader files a kept row, and the key of a
    record; the text after the last bar of a string. *)
Definition medKey (med : Med.t) : string :=
  Csv.key (Med.ndc_description med) (Med.ndc med).

Definition recordKey (record : Csv.Row) : string :=
  Csv.key (Csv.desc record) (Csv.ndc record).

Fixpoint afterLastBar (s : string) : string :=
  match s with
  | EmptyString => EmptyString
  | String c r =>
      if noBar r then (if Ascii.eqb c "|" then r else String c r)
      else afterLastBar r
  end.

(** A record with the given description, code and price. *)
Definition record_of (desc ndc price : string) : Csv.Row :=
  {[ "NDC Description" := desc; "NDC" := ndc; "NADAC Per Unit" := price ]}.


(** Three price records: two lines of the same product and code with
    different prices, and one other product. *)
Definition exRecords : list Csv.Row :=
  [record_of "ASPIRIN 81MG" "1234567" "0.5";
   record_of "ASPIRIN 81MG" "1234567" "0.6";
   record_of "FOO" "999" "1.5"].

(** The description and code of a kept row, and of a record. *)
Definition medPair (med : Med.t) : string * string :=
  (Med.ndc_description med, Med.ndc med).

Definition recordPair (record : Csv.Row) : string * string :=
  (Csv.desc record, Csv.ndc record).

(** [records !! i] is the first record with its key. *)
Definition firstOfKey (records : list Csv.Row) (i : nat) (r : Csv.Row)
    : Prop :=
  records !! i = Some r
  /\ forall j r', j < i -> records !! j = Some r' ->
       recordKey r' <> recordKey r.

(** [positions] lists, in increasing order, the positions of the records
    that are the first with their key. *)
Definition firstPositions (records : list Csv.Row) (positions : list nat)
    : Prop :=
  StronglySorted lt positions
  /\ forall i, i ∈ positions <-> exists r, firstOfKey records i r.


(** The key of an output record, as the reader forms it from a record. *)
Definition enrichedKey (r : Enriched.t) : string :=
  Csv.key (Enriched.ndc_description r) (Enriched.ndc r).


(** * Properties *)

(** ** The association-list [Map] *)

Section JsMapFacts.
Context {K V : Type} (eqb : K -> K -> bool).
Hypothesis eqb_eq : forall x y, eqb x y = true <-> x = y.

Lemma eqb_refl' k : eqb k k = true.
Proof. by apply eqb_eq. Qed.

Lemma eqb_ne k k' : k <> k' -> eqb k k' = false.
Proof.
  intros Hne. destruct (eqb k k') eqn:E; [|done].
  by apply eqb_eq in E.
Qed.

Lemma get_set_eq k (v : V) m : JsMap.get eqb k (JsMap.set eqb k v m) = Some v.
Proof.
  induction m as [|[k' v'] m IH]; simpl.
  - by rewrite eqb_refl'.
  - destruct (eqb k k') eqn:E; simpl.
    + by rewrite eqb_refl'.
    + by rewrite E.
Qed.

Lemma get_set_ne k k' (v : V) m :
  k <> k' -> JsMap.get eqb k' (JsMap.set eqb k v m) = JsMap.get eqb k' m.
Proof.
  intros Hne. induction m as [|[k0 v0] m IH]; simpl.
  - rewrite eqb_ne; [done|]. congruence.
  - destruct (eqb k k0) eqn:E; simpl.
    + apply eqb_eq in E as <-. rewrite !eqb_ne; [done|congruence..].
    + by rewrite IH.
Qed.

Lemma get_In k (v : V) m : JsMap.get eqb k m = Some v -> In (k, v) m.
Proof.
  induction m as [|[k' v'] m IH]; simpl; [done|].
  destruct (eqb k k') eqn:E.
  - apply eqb_eq in E as <-. intros [= <-]. by left.
  - intros H. right. by apply IH.
Qed.

Lemma In_set k (v : V) m k' v' :
  In (k', v') (JsMap.set eqb k v m) -> (k' = k /\ v' = v) \/ In (k', v') m.
Proof.
  induction m as [|[k0 v0] m IH]; simpl.
  - intros [[= <- <-]|[]]. by left.
  - destruct (eqb k k0) eqn:E; simpl.
    + intros [[= <- <-]|H]; [by left|]. right. by right.
    + intros [H|H]; [right; by left|].
      destruct (IH H) as [?|?]; [by left|]. right. by right.
Qed.

End JsMapFacts.

Lemma nat_eqb_eq x y : Nat.eqb x y = true <-> x = y.
Proof. apply Nat.eqb_eq. Qed.

Lemma string_eqb_eq x y : String.eqb x y = true <-> x = y.
Proof. apply String.eqb_eq. Qed.

(** ** The index as the list of the records put into it *)

Lemma chain_length_le v c : c ∈ chain v -> String.length c <= String.length v.
Proof.
  revert c. induction v as [|a v IH]; intros c.
  - simpl. intros ->%list_elem_of_singleton. done.
  - cbn [chain]. intros [->|H]%elem_of_cons; [done|].
    destruct (String.length (String a v) <=? 5); [by apply elem_of_nil in H|].
    destruct (Ascii.eqb a "0"); [|by apply elem_of_nil in H].
    apply IH in H. simpl. lia.
Qed.

Lemma chain_NoDup v : NoDup (chain v).
Proof.
  induction v as [|a v IH]; cbn [chain].
  - simpl. apply NoDup_singleton.
  - apply NoDup_cons. split; [|].
    + destruct (String.length (String a v) <=? 5); [apply not_elem_of_nil|].
      destruct (Ascii.eqb a "0"); [|apply not_elem_of_nil].
      intros H%chain_length_le. simpl in H. lia.
    + destruct (String.length (String a v) <=? 5); [apply NoDup_nil_2|].
      destruct (Ascii.eqb a "0"); [done|apply NoDup_nil_2].
Qed.

Lemma filter_ext_elem {A : Type} (P Q : A -> Prop)
    `{forall x, Decision (P x)} `{forall x, Decision (Q x)} (l : list A) :
  (forall x, x ∈ l -> (P x <-> Q x)) -> filter P l = filter Q l.
Proof.
  induction l as [|x l IH]; intros HPQ; [done|].
  rewrite !filter_cons.
  rewrite IH by (intros y Hy; apply HPQ; by right).
  destruct (decide (P x)) as [HP|HP]; destruct (decide (Q x)) as [HQ|HQ];
    try done.
  - apply HPQ in HP; [done|by left].
  - apply HPQ in HQ; [done|by left].
Qed.

Lemma insertRecs_app rs1 rs2 m :
  insertRecs (rs1 ++ rs2) m = insertRecs rs2 (insertRecs rs1 m).
Proof. apply fold_left_app. Qed.

Lemma visitVariant_spec i t c seen m :
  visitVariant i t c (seen, m)
  = ({[c]} ∪ seen,
     insertRecs (recOf i t <$> filter (fun c => c ∉ seen) [c]) m).
Proof.
  unfold visitVariant. cbn [fst snd]. rewrite filter_cons, filter_nil.
  destruct (decide (c ∈ seen)); destruct (decide (c ∉ seen)); try done.
  f_equal. set_solver.
Qed.

Lemma stripLoop_spec i t v seen m :
  stripLoop i t v (seen, m)
  = (list_to_set (chain v) ∪ seen,
     insertRecs (recOf i t <$> filter (fun c => c ∉ seen) (chain v)) m).
Proof.
  revert seen m. induction v as [|a v IH]; intros seen m.
  - change (stripLoop i t "" (seen, m)) with (visitVariant i t "" (seen, m)).
    change (chain "") with [""].
    rewrite visitVariant_spec. f_equal; set_solver.
  - cbn [stripLoop chain]. rewrite visitVariant_spec.
    assert (Hone : forall tl, tl = [] ->
      ({[String a v]} ∪ seen,
       insertRecs (recOf i t <$> filter (fun c => c ∉ seen) [String a v]) m)
      = (list_to_set (String a v :: tl) ∪ seen,
         insertRecs
           (recOf i t <$> filter (fun c => c ∉ seen) (String a v :: tl)) m)).
    { intros tl ->. f_equal. set_solver. }
    destruct (String.length (String a v) <=? 5); [by apply Hone|].
    destruct (Ascii.eqb a "0"); [|by apply Hone].
    rewrite IH. f_equal.
    + set_solver.
    + rewrite (filter_cons _ (String a v) (chain v)).
      assert (Hf : filter (fun c => c ∉ {[String a v]} ∪ seen) (chain v)
                   = filter (fun c => c ∉ seen) (chain v)).
      { apply filter_ext_elem. intros c Hc.
        apply chain_length_le in Hc.
        assert (c <> String a v) by (intros ->; simpl in Hc; lia).
        set_solver. }
      rewrite Hf, filter_cons, filter_nil.
      destruct (decide (String a v ∉ seen)); simpl; [|done].
      done.
Qed.

Lemma indexForm_spec i t v seen m :
  indexForm i t v (seen, m)
  = (list_to_set (formChain v) ∪ seen,
     insertRecs (recOf i t <$> filter (fun c => c ∉ seen) (formChain v)) m).
Proof.
  unfold indexForm, formChain. destruct (Str.truthy v).
  - apply stripLoop_spec.
  - rewrite filter_nil. cbn. f_equal; set_solver.
Qed.

Lemma indexEntry_spec i e m :
  indexEntry i e m = insertRecs (entryRecords i e) m.
Proof.
  unfold indexEntry, entryRecords. rewrite indexForm_spec.
  rewrite indexForm_spec. cbn [snd]. rewrite insertRecs_app. f_equal.
  - f_equal. apply filter_ext_elem. intros c _.
    rewrite not_elem_of_union, elem_of_list_to_set. set_solver.
  - f_equal. f_equal. induction (formChain (Str.trim (Entry.ndcDigits e)))
      as [|c l IH]; [done|].
    rewrite filter_cons_True by set_solver. by rewrite IH.
Qed.

Lemma indexEntries_spec es : forall i m,
  indexEntries i es m = insertRecs (emitted i es) m.
Proof.
  induction es as [|e es IH]; intros i m; [done|].
  cbn [indexEntries emitted]. by rewrite IH, indexEntry_spec, insertRecs_app.
Qed.

Lemma bucketOf_indexVariant i t cur m L :
  bucketOf (indexVariant i t cur m) L
  = if decide (L = String.length cur)
    then addToMapArray (bucketOf m L) cur (recOf i t cur)
    else bucketOf m L.
Proof.
  unfold indexVariant, bucketOf, recOf.
  set (L0 := String.length cur).
  set (m1 := if JsMap.has Nat.eqb L0 m then m else JsMap.set Nat.eqb L0 [] m).
  assert (Hsame : forall L', L' <> L0 ->
            JsMap.get Nat.eqb L' m1 = JsMap.get Nat.eqb L' m).
  { intros L' Hne. unfold m1. destruct (JsMap.has Nat.eqb L0 m); [done|].
    apply (get_set_ne _ nat_eqb_eq). congruence. }
  assert (H0 : default [] (JsMap.get Nat.eqb L0 m1)
               = default [] (JsMap.get Nat.eqb L0 m)).
  { unfold m1, JsMap.has.
    destruct (JsMap.get Nat.eqb L0 m) eqn:E; [by rewrite E|].
    by rewrite (get_set_eq _ nat_eqb_eq). }
  destruct (decide (L = L0)) as [->|Hne].
  - by rewrite (get_set_eq _ nat_eqb_eq), H0.
  - rewrite (get_set_ne _ nat_eqb_eq) by congruence. by rewrite Hsame.
Qed.

Lemma get_addToMapArray {V : Type} (b : list (string * list V)) cur r s :
  default [] (JsMap.get String.eqb s (addToMapArray b cur r))
  = default [] (JsMap.get String.eqb s b)
    ++ (if decide (s = cur) then [r] else []).
Proof.
  unfold addToMapArray. destruct (decide (s = cur)) as [->|Hne].
  - destruct (JsMap.get String.eqb cur b) eqn:E;
      by rewrite (get_set_eq _ string_eqb_eq).
  - rewrite app_nil_r.
    destruct (JsMap.get String.eqb cur b) eqn:E;
      by rewrite (get_set_ne _ string_eqb_eq) by congruence.
Qed.

Lemma lookup2_indexVariant i t cur m L s :
  lookup2 (indexVariant i t cur m) L s
  = lookup2 m L s
    ++ (if decide (L = String.length cur /\ s = cur)
        then [recOf i t cur] else []).
Proof.
  unfold lookup2. rewrite bucketOf_indexVariant.
  destruct (decide (L = String.length cur)) as [->|Hne].
  - rewrite get_addToMapArray. f_equal.
    destruct (decide (s = cur)); case_decide; naive_solver.
  - case_decide; [naive_solver|]. by rewrite app_nil_r.
Qed.

Lemma lookup2_insertRecs rs : forall m L s,
  lookup2 (insertRecs rs m) L s = lookup2 m L s ++ filter (storedAt L s) rs.
Proof.
  induction rs as [|r rs IH]; intros m L s.
  - by rewrite filter_nil, app_nil_r.
  - cbn [insertRecs fold_left]. fold (insertRecs rs).
    rewrite IH, lookup2_indexVariant, filter_cons, <- app_assoc. f_equal.
    destruct r as [i v t]; unfold storedAt, recOf; cbn [idx variant vtype].
    by repeat case_decide.
Qed.

Lemma lookup2_build items L s :
  lookup2 (ndcByLength (buildOpenFdaIndexes items)) L s
  = filter (storedAt L s) (emitted 0 (toEntry <$> items)).
Proof.
  unfold buildOpenFdaIndexes. cbn [ndcByLength].
  by rewrite indexEntries_spec, lookup2_insertRecs.
Qed.

(** ** What the buckets hold *)

Lemma Stored_nil P : Stored P [].
Proof. intros L b key arr []. Qed.

Lemma Stored_bucketOf P m L key arr :
  Stored P m -> In (key, arr) (bucketOf m L) ->
  String.length key = L /\ forall r, In r arr -> variant r = key /\ P r.
Proof.
  intros Hm. unfold bucketOf.
  destruct (JsMap.get Nat.eqb L m) as [b|] eqn:E; cbn; [|done].
  apply (get_In _ nat_eqb_eq) in E. intros Hin. by apply (Hm L b).
Qed.

Lemma Stored_indexVariant P i t cur m :
  P (recOf i t cur) -> Stored P m -> Stored P (indexVariant i t cur m).
Proof.
  intros HP Hm. unfold indexVariant.
  set (L0 := String.length cur).
  set (m1 := if JsMap.has Nat.eqb L0 m then m else JsMap.set Nat.eqb L0 [] m).
  assert (Hm1 : Stored P m1).
  { unfold m1. destruct (JsMap.has Nat.eqb L0 m); [done|].
    intros L b key arr [[-> ->]|Hin]%In_set; [done|]. by apply Hm. }
  fold (bucketOf m1 L0).
  intros L b key arr [[-> ->]|Hin]%In_set; [|by apply Hm1].
  unfold addToMapArray.
  destruct (JsMap.get String.eqb cur (bucketOf m1 L0)) as [arr0|] eqn:E.
  - intros [[-> ->]|Hin]%In_set;
      [|by apply (Stored_bucketOf P m1 L0)].
    split; [done|]. intros r [Hr| Hr]%in_app_or.
    + apply (get_In _ string_eqb_eq) in E.
      by apply (Stored_bucketOf P m1 L0 cur arr0).
    + destruct Hr as [<-|[]]. done.
  - intros [[-> ->]|Hin]%In_set;
      [|by apply (Stored_bucketOf P m1 L0)].
    split; [done|]. intros r [<-|[]]. done.
Qed.

Lemma Stored_insertRecs P rs : forall m,
  Forall P rs -> Stored P m -> Stored P (insertRecs rs m).
Proof.
  induction rs as [|r rs IH]; intros m Hrs Hm; [done|].
  apply Forall_cons in Hrs as [Hr Hrs].
  cbn [insertRecs fold_left]. apply IH; [done|].
  apply Stored_indexVariant; [|done]. by destruct r.
Qed.

Lemma entryRecords_idx i e r : r ∈ entryRecords i e -> idx r = i.
Proof.
  unfold entryRecords.
  intros [H|H]%elem_of_app; apply list_elem_of_fmap in H as (c & -> & _);
    done.
Qed.

Lemma emitted_idx es : forall k r,
  r ∈ emitted k es -> k <= idx r < k + length es.
Proof.
  induction es as [|e es IH]; intros k r; cbn [emitted].
  - by intros ?%elem_of_nil.
  - intros [H|H]%elem_of_app.
    + apply entryRecords_idx in H. cbn. lia.
    + apply IH in H. cbn. lia.
Qed.

Lemma Stored_build items :
  Stored (fun r => idx r < length (entries (buildOpenFdaIndexes items)))
    (ndcByLength (buildOpenFdaIndexes items)).
Proof.
  unfold buildOpenFdaIndexes. cbn [entries ndcByLength].
  rewrite indexEntries_spec. apply Stored_insertRecs; [|apply Stored_nil].
  apply Forall_forall. intros r Hr%emitted_idx. lia.
Qed.

(** The position a stored record carries is a position of [entries]. *)
Lemma build_idx_in_range items L b key arr r :
  In (L, b) (ndcByLength (buildOpenFdaIndexes items)) ->
  In (key, arr) b -> In r arr ->
  idx r < length (entries (buildOpenFdaIndexes items)).
Proof.
  intros HL Hk Hr. destruct (Stored_build items L b key arr HL Hk) as [_ H].
  by apply H.
Qed.

(** ** Small facts on [filter] *)

Lemma filter_all {A : Type} (P : A -> Prop) `{forall x, Decision (P x)}
    (l : list A) :
  (forall x, x ∈ l -> P x) -> filter P l = l.
Proof.
  induction l as [|x l IH]; intros HP; [done|].
  rewrite filter_cons_True by (apply HP; by left).
  f_equal. apply IH. intros y Hy. apply HP. by right.
Qed.

Lemma filter_none {A : Type} (P : A -> Prop) `{forall x, Decision (P x)}
    (l : list A) :
  (forall x, x ∈ l -> ~ P x) -> filter P l = [].
Proof.
  induction l as [|x l IH]; intros HP; [done|].
  rewrite filter_cons_False by (apply HP; by left).
  apply IH. intros y Hy. apply HP. by right.
Qed.

Lemma filter_fmap_comm {A B : Type} (f : A -> B) (P : B -> Prop)
    `{forall y, Decision (P y)} (l : list A) :
  filter P (f <$> l) = f <$> filter (fun x => P (f x)) l.
Proof.
  induction l as [|x l IH]; [done|].
  rewrite fmap_cons, !filter_cons, IH. by destruct (decide (P (f x))).
Qed.

Lemma filter_eq_NoDup {A : Type} `{EqDecision A} (s : A) (l : list A) :
  NoDup l -> filter (fun x => s = x) l = if decide (s ∈ l) then [s] else [].
Proof.
  induction 1 as [|x l Hx Hl IH].
  - rewrite filter_nil. by rewrite decide_False by apply not_elem_of_nil.
  - rewrite filter_cons, IH. destruct (decide (s = x)) as [->|Hne].
    + rewrite decide_False by done. by rewrite decide_True by left.
    + destruct (decide (s ∈ l)).
      * by rewrite decide_True by (by right).
      * rewrite decide_False; [done|]. by intros [?|?]%elem_of_cons.
Qed.

(** ** The records of one entry *)

Lemma filter_idx_emitted es : forall k i e,
  es !! i = Some e ->
  filter (fun r => idx r = k + i) (emitted k es) = entryRecords (k + i) e.
Proof.
  induction es as [|e0 es IH]; intros k i e; [done|].
  cbn [emitted]. rewrite filter_app. destruct i as [|i]; cbn.
  - intros [= ->]. rewrite Nat.add_0_r.
    rewrite filter_all by apply entryRecords_idx.
    rewrite filter_none; [by rewrite app_nil_r|].
    intros r Hr%emitted_idx. lia.
  - intros He. rewrite filter_none.
    + replace (k + S i) with (S k + i) by lia. by apply IH.
    + intros r Hr%entryRecords_idx. lia.
Qed.

Lemma formChain_NoDup v : NoDup (formChain v).
Proof.
  unfold formChain. destruct (Str.truthy v);
    [apply chain_NoDup|apply NoDup_nil_2].
Qed.

Lemma chain_floor v c : c ∈ chain v -> c = v \/ 5 <= String.length c.
Proof.
  revert c. induction v as [|a v IH]; intros c.
  - intros ->%list_elem_of_singleton. by left.
  - cbn [chain]. intros [->|H]%elem_of_cons; [by left|].
    destruct (String.length (String a v) <=? 5) eqn:E;
      [by apply elem_of_nil in H|].
    destruct (Ascii.eqb a "0"); [|by apply elem_of_nil in H].
    apply Nat.leb_gt in E. cbn in E.
    destruct (IH c H) as [->|?]; right; lia.
Qed.

Lemma formChain_floor v c :
  c ∈ formChain v -> c = v \/ 5 <= String.length c.
Proof.
  unfold formChain. destruct (Str.truthy v); [apply chain_floor|].
  by intros ?%elem_of_nil.
Qed.

Lemma entryRecords_filter i e s :
  filter (storedAt (String.length s) s) (entryRecords i e)
  = if decide (s ∈ formChain (Str.trim (Entry.ndcDigits e)))
    then [recOf i digits s]
    else if decide (s ∈ formChain (Str.trim (Entry.ndcZeroFill e)))
         then [recOf i zeroFill s]
         else [].
Proof.
  unfold entryRecords.
  set (c1 := formChain (Str.trim (Entry.ndcDigits e))).
  set (z := formChain (Str.trim (Entry.ndcZeroFill e))).
  assert (Hst : forall t (l : list string),
    filter (storedAt (String.length s) s) (recOf i t <$> l)
    = recOf i t <$> filter (fun x => s = x) l).
  { intros t l. rewrite filter_fmap_comm. f_equal.
    apply filter_ext_elem. intros c _. unfold storedAt, recOf; cbn.
    naive_solver. }
  rewrite filter_app, !Hst.
  rewrite (filter_eq_NoDup s c1) by apply formChain_NoDup.
  rewrite (filter_eq_NoDup s (filter (fun c => c ∉ c1) z))
    by (apply NoDup_filter, formChain_NoDup).
  destruct (decide (s ∈ c1)) as [H1|H1].
  - rewrite decide_False; [done|].
    intros [? _]%list_elem_of_filter. done.
  - destruct (decide (s ∈ z)) as [Hz|Hz].
    + rewrite decide_True; [done|]. by apply list_elem_of_filter.
    + rewrite decide_False; [done|].
      by intros [_ ?]%list_elem_of_filter.
Qed.

(** * The claims *)

(** ** Index builder *)

(** C7, as the code has it: within one entry the membership check is on the
    variant string alone.  For the entry at position [i] and any string
    [s], the records of that entry found under [s] are: one record tagged
    [digits] when [s] is on the chain of the digits-only form; else one
    record tagged [zeroFill] when [s] is on the chain of the zero-fill form;
    else none.  A string that arises under both forms is therefore stored
    once, under [digits]. *)
Theorem index_one_record_per_entry_and_string
    (items : list Item.t) (i : nat) (e : Entry.t) (s : string) :
  (toEntry <$> items) !! i = Some e ->
  filter (fun r => idx r = i)
    (lookup2 (ndcByLength (buildOpenFdaIndexes items)) (String.length s) s)
  = if decide (s ∈ formChain (Str.trim (Entry.ndcDigits e)))
    then [recOf i digits s]
    else if decide (s ∈ formChain (Str.trim (Entry.ndcZeroFill e)))
         then [recOf i zeroFill s]
         else [].
Proof.
  intros He. rewrite lookup2_build.
  rewrite list_filter_filter.
  rewrite <- (entryRecords_filter i e s).
  pose proof (filter_idx_emitted (toEntry <$> items) 0 i e He) as Hf.
  change (0 + i) with i in Hf. rewrite <- Hf.
  rewrite list_filter_filter. apply filter_ext_elem. intros r _.
  cbn. naive_solver.
Qed.

Lemma index_one_record_per_entry_and_string_witness :
  (toEntry <$> [item_of "123456" "Brand"]) !! 0
    = Some (toEntry (item_of "123456" "Brand"))
  /\ filter (fun r => idx r = 0)
       (lookup2 (ndcByLength (buildOpenFdaIndexes [item_of "123456" "Brand"]))
          (String.length "123456") "123456")
     = if decide ("123456" ∈ formChain
                    (Str.trim (Entry.ndcDigits
                                 (toEntry (item_of "123456" "Brand")))))
       then [recOf 0 digits "123456"]
       else if decide ("123456" ∈ formChain
                         (Str.trim (Entry.ndcZeroFill
                                      (toEntry (item_of "123456" "Brand")))))
            then [recOf 0 zeroFill "123456"]
            else [].
Proof.
  split; [reflexivity|].
  apply (index_one_record_per_entry_and_string
           [item_of "123456" "Brand"] 0 (toEntry (item_of "123456" "Brand"))
           "123456").
  reflexivity.
Defined.

(** C7, as stated, fails: the product code [123456] has no hyphen, its
    digits-only and zero-fill forms are the same string, and the index
    holds that string once, tagged [digits], and not a second time under
    [zeroFill]. *)
Lemma same_string_under_both_forms_indexed_once :
  openFdaDigitsKeepZeros "123456" = "123456"
  /\ openFdaHyphenZeroFill "123456" = "123456"
  /\ ndcByLength (buildOpenFdaIndexes [item_of "123456" "Brand"])
     = [(6, [("123456", [recOf 0 digits "123456"])])]
  /\ ~ (exists L b arr,
          In (L, b) (ndcByLength (buildOpenFdaIndexes [item_of "123456" "Brand"]))
          /\ In ("123456", arr) b
          /\ In (recOf 0 zeroFill "123456") arr).
Proof.
  assert (Hix : ndcByLength (buildOpenFdaIndexes [item_of "123456" "Brand"])
                = [(6, [("123456", [recOf 0 digits "123456"])])])
    by (vm_compute; reflexivity).
  split; [reflexivity|]. split; [reflexivity|]. split; [exact Hix|].
  rewrite Hix. intros (L & b & arr & HL & Hb & Hr).
  destruct HL as [[= <- <-]|[]]. destruct Hb as [[= <-]|[]].
  destruct Hr as [Hr|[]]. discriminate Hr.
Qed.

(** C10: in the index built by [buildOpenFdaIndexes], every key of the
    bucket stored under length [L] has length [L], and every record under a
    key carries that key as its variant; so a lookup of a substring of
    length [L] of the identifier in that bucket only returns records whose
    variant is that substring, of length [L]. *)
Theorem bucket_variants_have_bucket_length
    (items : list Item.t) (L : nat) (b : Bucket) :
  In (L, b) (ndcByLength (buildOpenFdaIndexes items)) ->
  (forall key arr r,
      In (key, arr) b -> In r arr ->
      String.length key = L /\ variant r = key
      /\ String.length (variant r) = L)
  /\ (forall medDigits i arr r,
        JsMap.get String.eqb (Str.slice i L medDigits) b = Some arr ->
        In r arr ->
        variant r = Str.slice i L medDigits
        /\ String.length (variant r) = L).
Proof.
  intros HL.
  assert (Hb : forall key arr r,
             In (key, arr) b -> In r arr ->
             String.length key = L /\ variant r = key
             /\ String.length (variant r) = L).
  { intros key arr r Hk Hr.
    destruct (Stored_build items L b key arr HL Hk) as [Hlen Hrec].
    destruct (Hrec r Hr) as [Hv _]. rewrite Hv. done. }
  split; [exact Hb|].
  intros medDigits i arr r Hget Hr.
  apply (get_In _ string_eqb_eq) in Hget.
  destruct (Hb _ _ _ Hget Hr) as (_ & Hv & Hlen). done.
Qed.

Lemma bucket_variants_have_bucket_length_witness :
  In (6, [("123456", [recOf 0 digits "123456"])])
     (ndcByLength (buildOpenFdaIndexes [item_of "123456" "Brand"]))
  /\ ((forall key arr r,
         In (key, arr) [("123456", [recOf 0 digits "123456"])] -> In r arr ->
         String.length key = 6 /\ variant r = key
         /\ String.length (variant r) = 6)
      /\ (forall medDigits i arr r,
            JsMap.get String.eqb (Str.slice i 6 medDigits)
              [("123456", [recOf 0 digits "123456"])] = Some arr ->
            In r arr ->
            variant r = Str.slice i 6 medDigits
            /\ String.length (variant r) = 6)).
Proof.
  assert (H : In (6, [("123456", [recOf 0 digits "123456"])])
                (ndcByLength (buildOpenFdaIndexes [item_of "123456" "Brand"])))
    by (vm_compute; left; reflexivity).
  split; [exact H|].
  exact (bucket_variants_have_bucket_length
           [item_of "123456" "Brand"] 6
           [("123456", [recOf 0 digits "123456"])] H).
Defined.

Lemma emitted_elem es : forall k r,
  r ∈ emitted k es ->
  exists e, es !! (idx r - k) = Some e /\ r ∈ entryRecords (idx r) e.
Proof.
  induction es as [|e0 es IH]; intros k r; cbn [emitted].
  - by intros ?%elem_of_nil.
  - intros [H|H]%elem_of_app.
    + pose proof (entryRecords_idx _ _ _ H) as ->.
      exists e0. by rewrite Nat.sub_diag.
    + pose proof (emitted_idx _ _ _ H) as Hi.
      destruct (IH _ _ H) as (e & He & Hr). exists e. split; [|done].
      replace (idx r - k) with (S (idx r - S k)) by lia. done.
Qed.

(** C8, with the zero-fill form the code computes.  For the product code
    [00002-3231-30] the digits-only form is [00002323130] and the zero-fill
    form is [0000203231030] (each hyphen becomes one [0]); the index stores
    every value of the stripping of the digits-only form, [2323130] among
    them; and in any index a stored variant is the whole digits-only form,
    the whole zero-fill form, or a string of at least five code units. *)
Theorem normal_forms_and_stripping_floor :
  openFdaDigitsKeepZeros "00002-3231-30" = "00002323130"
  /\ openFdaHyphenZeroFill "00002-3231-30" = "0000203231030"
  /\ (let ix := ndcByLength (buildOpenFdaIndexes [item_of "00002-3231-30" ""])
      in lookup2 ix 11 "00002323130" = [recOf 0 digits "00002323130"]
         /\ lookup2 ix 10 "0002323130" = [recOf 0 digits "0002323130"]
         /\ lookup2 ix 9 "002323130" = [recOf 0 digits "002323130"]
         /\ lookup2 ix 8 "02323130" = [recOf 0 digits "02323130"]
         /\ lookup2 ix 7 "2323130" = [recOf 0 digits "2323130"])
  /\ (forall items L s r,
        r ∈ lookup2 (ndcByLength (buildOpenFdaIndexes items)) L s ->
        exists e,
          (toEntry <$> items) !! idx r = Some e
          /\ (s = Str.trim (Entry.ndcDigits e)
              \/ s = Str.trim (Entry.ndcZeroFill e)
              \/ 5 <= String.length s)).
Proof.
  split; [reflexivity|]. split; [reflexivity|]. split.
  { vm_compute. repeat split. }
  intros items L s r. rewrite lookup2_build.
  intros [[_ ->] Hr]%list_elem_of_filter.
  destruct (emitted_elem _ _ _ Hr) as (e & He & Hre).
  rewrite Nat.sub_0_r in He. exists e. split; [done|].
  unfold entryRecords in Hre. apply elem_of_app in Hre as [H|H];
    apply list_elem_of_fmap in H as (c & -> & Hc); cbn [variant recOf].
  - apply formChain_floor in Hc as [->|?]; auto.
  - apply list_elem_of_filter in Hc as [_ Hc].
    apply formChain_floor in Hc as [->|?]; auto.
Qed.

(** C8, as stated, fails on the zero-fill form: it is [0000203231030], of
    thirteen digits, and not the fourteen-digit string of the claim. *)
Lemma zero_fill_form_is_not_the_stated_one :
  openFdaHyphenZeroFill "00002-3231-30" <> "00002032313030".
Proof. vm_compute. discriminate. Qed.

(** ** Linkage resolver *)

Lemma fold_left_inv {A B : Type} (P : A -> Prop) (f : A -> B -> A)
    (l : list B) : forall a,
  (forall a x, x ∈ l -> P a -> P (f a x)) -> P a -> P (fold_left f l a).
Proof.
  induction l as [|x l IH]; intros a Hf Ha; [done|].
  cbn. apply IH.
  - intros a' y Hy. apply Hf. by right.
  - apply Hf; [by left|done].
Qed.

Lemma pushRecs_ok (Pm : Match.t -> Prop) mode es arr st :
  (forall r, r ∈ arr ->
     Pm (formatOpenFdaMatcher (entryAt es (idx r)) (variant r) (vtype r) mode)) ->
  StateOk Pm st -> StateOk Pm (pushRecs mode es arr st).
Proof.
  intros Harr. unfold pushRecs. apply fold_left_inv.
  intros [ms seen] r Hr [Hms Hseen]. unfold pushRec. cbn [fst snd] in *.
  destruct (decide (sigOf r ∈ seen)); [done|]. split; cbn [fst snd].
  - apply Forall_app. split; [done|]. apply Forall_singleton. by apply Harr.
  - by intros [_ [=]]%app_eq_nil.
Qed.

Section Phases.
Variable openIdx : OpenIdx.
Variable medDigits : string.
Hypothesis Hstored : Stored (fun _ => True) (ndcByLength openIdx).

Lemma forwardStep_ok st L :
  L <= String.length medDigits ->
  StateOk (isForward medDigits) st ->
  StateOk (isForward medDigits) (forwardStep openIdx medDigits st L).
Proof.
  intros HL. unfold forwardStep. apply fold_left_inv.
  intros st' i _ Hst'.
  destruct (JsMap.get String.eqb (Str.slice i L medDigits)
              (bucketOf (ndcByLength openIdx) L)) as [arr|] eqn:E; [|done].
  apply pushRecs_ok; [|done]. intros r Hr%list_elem_of_In.
  apply (get_In _ string_eqb_eq) in E.
  destruct (Stored_bucketOf _ _ _ _ _ Hstored E) as [Hlen Hrec].
  destruct (Hrec r Hr) as [Hv _].
  unfold isForward. cbn. rewrite Hv, Hlen. eauto.
Qed.

Lemma forwardPhase_ok st :
  StateOk (isForward medDigits) st ->
  StateOk (isForward medDigits) (forwardPhase openIdx medDigits st).
Proof.
  unfold forwardPhase. apply fold_left_inv.
  intros st' L HL%list_elem_of_In%filter_In Hst'. destruct HL as [_ HL].
  apply forwardStep_ok; [|done]. by apply Nat.leb_le.
Qed.

Lemma reverseStep_ok st L :
  String.length medDigits < L ->
  StateOk (isReverse medDigits) st ->
  StateOk (isReverse medDigits) (reverseStep openIdx medDigits st L).
Proof.
  intros HL. unfold reverseStep. apply fold_left_inv.
  intros st' [key arr] Hka%list_elem_of_In Hst'. cbn [fst snd].
  destruct (Str.includes key medDigits) eqn:E; [|done].
  apply pushRecs_ok; [|done]. intros r Hr%list_elem_of_In.
  destruct (Stored_bucketOf _ _ _ _ _ Hstored Hka) as [Hlen Hrec].
  destruct (Hrec r Hr) as [Hv _].
  unfold isReverse. cbn. rewrite Hv, Hlen. done.
Qed.

Lemma reversePhase_ok st :
  StateOk (isReverse medDigits) st ->
  StateOk (isReverse medDigits) (reversePhase openIdx medDigits st).
Proof.
  unfold reversePhase. apply fold_left_inv.
  intros st' L HL%list_elem_of_In%filter_In Hst'. destruct HL as [_ HL].
  apply reverseStep_ok; [|done]. by apply Nat.ltb_lt.
Qed.

End Phases.

Lemma Stored_weaken (P Q : IdxRec -> Prop) m :
  (forall r, P r -> Q r) -> Stored P m -> Stored Q m.
Proof.
  intros HPQ Hm L b key arr HL Hk. destruct (Hm L b key arr HL Hk) as [? H].
  split; [done|]. intros r Hr. destruct (H r Hr). auto.
Qed.

(** C2: for an identifier with at least one digit, the result of
    [collectOpenFdaNdcMatches] is the result of the forward phase whenever
    that is not empty, and then every match is a forward match (a variant
    no longer than the identifier and equal to one of its substrings);
    only when the forward phase found nothing is it the result of the
    reverse phase, every match of which is a reverse match (a variant
    longer than the identifier and containing it).  So a result never has
    matches of both directions. *)
Theorem reverse_phase_only_after_empty_forward
    (medNdcOriginal : string) (items : list Item.t) :
  Str.truthy (normalizeMedNdc medNdcOriginal) = true ->
  let openIdx := buildOpenFdaIndexes items in
  let medDigits := normalizeMedNdc medNdcOriginal in
  let fwd := (forwardPhase openIdx medDigits ([], ∅)).1 in
  let res := collectOpenFdaNdcMatches medNdcOriginal openIdx in
  (fwd <> [] -> res = fwd /\ Forall (isForward medDigits) res)
  /\ (fwd = [] ->
      res = (reversePhase openIdx medDigits ([], ∅)).1
      /\ Forall (isReverse medDigits) res)
  /\ (Forall (fun m => Match.matchMode m = forward) res
      \/ Forall (fun m => Match.matchMode m = reverse) res).
Proof.
  intros Hdig openIdx medDigits fwd res.
  assert (Hst : Stored (fun _ => True) (ndcByLength openIdx)).
  { eapply Stored_weaken; [|apply Stored_build]. done. }
  assert (Hf : StateOk (isForward medDigits)
                 (forwardPhase openIdx medDigits ([], ∅))).
  { apply forwardPhase_ok; [done|]. split; [apply Forall_nil_2|done]. }
  destruct Hf as [Hfwd Hseen]. fold fwd in Hfwd.
  assert (Hres : res = if 0 <? length fwd then fwd
                       else (reversePhase openIdx medDigits
                               (forwardPhase openIdx medDigits ([], ∅))).1).
  { unfold res, collectOpenFdaNdcMatches. fold medDigits.
    unfold medDigits at 1. by rewrite Hdig. }
  assert (Hnz : fwd <> [] -> res = fwd /\ Forall (isForward medDigits) res).
  { intros Hne. rewrite Hres. destruct fwd; [done|]. done. }
  assert (Hz : fwd = [] ->
               res = (reversePhase openIdx medDigits ([], ∅)).1
               /\ Forall (isReverse medDigits) res).
  { intros He. rewrite Hres.
    destruct (forwardPhase openIdx medDigits ([], ∅)) as [ms seen] eqn:Eq.
    cbn [fst] in *. subst fwd. subst ms. cbn [length Nat.ltb Nat.leb].
    cbn [snd] in Hseen. rewrite (Hseen eq_refl). split; [done|].
    apply reversePhase_ok; [done|]. split; [apply Forall_nil_2|done]. }
  split; [done|]. split; [done|].
  destruct (decide (fwd = [])) as [He|Hne].
  - right. destruct (Hz He) as [_ H]. eapply Forall_impl; [exact H|].
    by intros m [? _].
  - left. destruct (Hnz Hne) as [_ H]. eapply Forall_impl; [exact H|].
    by intros m [? _].
Qed.

Lemma reverse_phase_only_after_empty_forward_witness :
  Str.truthy (normalizeMedNdc "10234567809") = true
  /\ (let openIdx := buildOpenFdaIndexes [item_of "1-2345678-901" "Brand"] in
      let medDigits := normalizeMedNdc "10234567809" in
      let fwd := (forwardPhase openIdx medDigits ([], ∅)).1 in
      let res := collectOpenFdaNdcMatches "10234567809" openIdx in
      (fwd <> [] -> res = fwd /\ Forall (isForward medDigits) res)
      /\ (fwd = [] ->
          res = (reversePhase openIdx medDigits ([], ∅)).1
          /\ Forall (isReverse medDigits) res)
      /\ (Forall (fun m => Match.matchMode m = forward) res
          \/ Forall (fun m => Match.matchMode m = reverse) res)).
Proof.
  split; [reflexivity|].
  apply (reverse_phase_only_after_empty_forward
           "10234567809" [item_of "1-2345678-901" "Brand"]).
  reflexivity.
Defined.

(** The scenario of the reverse phase: an identifier of eleven digits that
    no variant of length at most eleven matches, inside the zero-fill
    variant of thirteen digits of one product. *)
Example reverse_phase_scenario :
  let openIdx := buildOpenFdaIndexes [item_of "1-2345678-901" "Brand"] in
  (forwardPhase openIdx "10234567809" ([], ∅)).1 = []
  /\ List.map (fun m => (Match.normalizedProductNdc m,
                         Match.matchedVariantType m, Match.matchMode m))
       (collectOpenFdaNdcMatches "10234567809" openIdx)
     = [("1023456780901", zeroFill, reverse)].
Proof. vm_compute. split; reflexivity. Qed.

(** ** Semantic filter *)

Lemma all_rev_app p s1 : forall s2,
  Str.all p (String.rev_app s1 s2) = Str.all p s1 && Str.all p s2.
Proof.
  induction s1 as [|c s1 IH]; intros s2; [done|].
  cbn. rewrite IH. cbn. destruct (p c), (Str.all p s1); done.
Qed.

Lemma all_rev p s : Str.all p (String.rev s) = Str.all p s.
Proof. unfold String.rev. rewrite all_rev_app. cbn. apply andb_true_r. Qed.

Lemma split_go_alnum s : forall cur insep t,
  Str.all Char.is_lower_alnum cur = true ->
  In t (Str.split_go cur insep s) ->
  Str.all Char.is_lower_alnum t = true.
Proof.
  induction s as [|c s IH]; intros cur insep t Hcur; cbn.
  - intros [<-|[]]. by rewrite all_rev.
  - destruct (Char.is_lower_alnum c) eqn:Ec.
    + apply IH. cbn. by rewrite Ec.
    + destruct insep.
      * by apply IH.
      * intros [<-|H]; [by rewrite all_rev|]. by apply (IH "" true).
Qed.

Lemma tokenizeWords_token s t :
  In t (tokenizeWords s) ->
  3 <= String.length t /\ Str.all Char.is_lower_alnum t = true.
Proof.
  unfold tokenizeWords. intros [Hin Hf]%filter_In.
  apply andb_true_iff in Hf as [_ Hlen]. apply Nat.leb_le in Hlen.
  split; [done|].
  by apply (split_go_alnum (normalizeWhitespaceLower s) "" false).
Qed.

Lemma brandOverlaps_shares description m :
  brandOverlaps (list_to_set (tokenizeWords description)) m = true ->
  SharesToken description m.
Proof.
  unfold brandOverlaps, SharesToken.
  destruct (0 <? String.length (normalizeWhitespaceLower (Match.brandName m)))
    eqn:Eb; cbn; [|done].
  intros (t & Ht & Hd)%existsb_exists. split.
  - intros He. rewrite He in Eb. done.
  - exists t. apply bool_decide_eq_true in Hd.
    apply elem_of_list_to_set, list_elem_of_In in Hd.
    destruct (tokenizeWords_token _ _ Ht). done.
Qed.

(** C5: a match that survives the semantic filter has a brand name that is
    not blank, and one token of the brand name - at least three code units
    long, all of them lower-case letters or digits - is a token of the
    description of the Medicaid row. *)
Theorem surviving_match_shares_a_token
    (items : list Item.t) (med : Med.t) (m : Match.t) :
  In m (semanticFilter (Med.ndc_description med)
          (collectOpenFdaNdcMatches (Med.ndc med) (buildOpenFdaIndexes items))) ->
  SharesToken (Med.ndc_description med) m.
Proof.
  unfold semanticFilter. intros [_ H]%filter_In.
  by apply brandOverlaps_shares.
Qed.

(** ** Best-match selection *)

Lemma variantLength_eq m :
  variantLength m = String.length (Match.normalizedProductNdc m).
Proof.
  unfold variantLength. by destruct (Match.normalizedProductNdc m).
Qed.

Lemma max_list_cons x l : max_list (x :: l) = Nat.max x (max_list l).
Proof. reflexivity. Qed.

Lemma max_list_filter_pos l :
  max_list (List.filter (fun L => 0 <? L) l) = max_list l.
Proof.
  induction l as [|x l IH]; [done|].
  cbn [List.filter]. destruct (0 <? x) eqn:E.
  - by rewrite !max_list_cons, IH.
  - apply Nat.ltb_ge in E. rewrite IH, max_list_cons. lia.
Qed.

Lemma keepBest_spec l :
  l <> [] ->
  keepBest l
  = List.map markBest
      (List.filter
         (fun m => variantLength m =? max_list (List.map variantLength l)) l).
Proof.
  intros Hne. unfold keepBest. destruct l as [|m0 l]; [done|].
  change (0 <? length (m0 :: l)) with true. cbv iota zeta.
  set (lengths := List.filter (fun L => 0 <? L)
                    (List.map variantLength (m0 :: l))).
  assert (Hmax : (if 0 <? length lengths then max_list lengths else 0)
                 = max_list (List.map variantLength (m0 :: l))).
  { transitivity (max_list lengths).
    - clearbody lengths. destruct lengths; reflexivity.
    - apply max_list_filter_pos. }
  by rewrite Hmax.
Qed.

Lemma max_list_map_le {A : Type} (f : A -> nat) l x :
  In x l -> f x <= max_list (List.map f l).
Proof.
  induction l as [|y l IH]; [done|].
  cbn [List.map]. rewrite max_list_cons. intros [->|H]; [lia|].
  apply IH in H. lia.
Qed.

Lemma max_list_map_attained {A : Type} (f : A -> nat) l :
  l <> [] -> exists x, In x l /\ f x = max_list (List.map f l).
Proof.
  induction l as [|y l IH]; [done|]. intros _.
  cbn [List.map]. rewrite max_list_cons.
  destruct l as [|z l].
  - exists y. split; [by left|]. cbn. lia.
  - destruct IH as (x & Hx & Hfx); [done|].
    destruct (le_ge_dec (f y) (max_list (List.map f (z :: l)))).
    + exists x. split; [by right|]. lia.
    + exists y. split; [by left|]. lia.
Qed.

Lemma keepBest_nonempty l : l <> [] -> keepBest l <> [].
Proof.
  intros Hne. rewrite keepBest_spec by done.
  destruct (max_list_map_attained variantLength l Hne) as (x & Hx & Hfx).
  intros He%map_eq_nil.
  assert (Hin : In x (List.filter
                   (fun m => variantLength m
                             =? max_list (List.map variantLength l)) l)).
  { apply filter_In. split; [done|]. by apply Nat.eqb_eq. }
  rewrite He in Hin. done.
Qed.

Lemma enrichOne_cases openIdx med :
  (survivors openIdx med = [] /\ enrichOne openIdx med = withoutMatches med)
  \/ (survivors openIdx med <> []
      /\ keepBest (survivors openIdx med) <> []
      /\ enrichOne openIdx med
         = withMatches med (keepBest (survivors openIdx med))).
Proof.
  unfold enrichOne. fold (survivors openIdx med).
  destruct (survivors openIdx med) as [|c l] eqn:E.
  - left. done.
  - right. split; [done|].
    pose proof (keepBest_nonempty (c :: l)) as Hne.
    destruct (keepBest (c :: l)) as [|b bs]; [by destruct Hne|]. done.
Qed.

(** C1, as the code has it: the maximum is taken over the candidates the
    semantic filter let through.  In a record with a match list, the list
    is not empty, each entry is a surviving candidate marked [bestMatch],
    all entries have the same variant length, and no surviving candidate
    has a longer variant. *)
Theorem best_matches_have_the_longest_surviving_variant
    (items : list Item.t) (med : Med.t) (ms : list Match.t) :
  Enriched.fdaMatches (enrichOne (buildOpenFdaIndexes items) med) = Some ms ->
  ms <> []
  /\ forall m, In m ms ->
       (exists c, In c (survivors (buildOpenFdaIndexes items) med)
                  /\ m = markBest c)
       /\ (forall m', In m' ms ->
             String.length (Match.normalizedProductNdc m')
             = String.length (Match.normalizedProductNdc m))
       /\ (forall c, In c (survivors (buildOpenFdaIndexes items) med) ->
             String.length (Match.normalizedProductNdc c)
             <= String.length (Match.normalizedProductNdc m)).
Proof.
  set (ix := buildOpenFdaIndexes items).
  destruct (enrichOne_cases ix med) as [[_ ->]|(Hne & Hk & ->)]; [done|].
  cbn [Enriched.fdaMatches withMatches]. intros [= <-]. split; [done|].
  rewrite keepBest_spec by done.
  set (mx := max_list (List.map variantLength (survivors ix med))).
  assert (Hin : forall m,
            In m (List.map markBest
                    (List.filter (fun m => variantLength m =? mx)
                       (survivors ix med))) ->
            exists c, In c (survivors ix med) /\ m = markBest c
                      /\ String.length (Match.normalizedProductNdc m) = mx).
  { intros m (c & <- & [Hc Hlen]%filter_In)%in_map_iff.
    exists c. split; [done|]. split; [done|].
    apply Nat.eqb_eq in Hlen. by rewrite variantLength_eq in Hlen. }
  intros m Hm. destruct (Hin m Hm) as (c & Hc & -> & Hlen).
  split; [by exists c|]. split.
  - intros m' Hm'. destruct (Hin m' Hm') as (_ & _ & _ & ->). done.
  - intros c' Hc'. rewrite Hlen, <- variantLength_eq.
    by apply max_list_map_le.
Qed.

Lemma lookup_map {A B : Type} (f : A -> B) (l : list A) : forall i,
  List.map f l !! i = f <$> l !! i.
Proof.
  induction l as [|x l IH]; intros [|i]; cbn; auto.
Qed.

(** C6, as the code has it: when the semantic filter leaves no candidate,
    the record of the row is in the output, at the position of the row,
    with the description and the identifier of the row and nothing else:
    no match list, and none of the other pricing fields. *)
Theorem unmatched_row_keeps_description_and_ndc
    (items : list Item.t) (uniqueMed : list Med.t) (i : nat) (med : Med.t) :
  uniqueMed !! i = Some med ->
  survivors (buildOpenFdaIndexes items) med = [] ->
  enrichAll uniqueMed (buildOpenFdaIndexes items) !! i
    = Some (withoutMatches med)
  /\ Enriched.ndc_description (withoutMatches med) = Med.ndc_description med
  /\ Enriched.ndc (withoutMatches med) = Med.ndc med
  /\ Enriched.fdaMatches (withoutMatches med) = None
  /\ Enriched.nadac_per_unit (withoutMatches med) = None
  /\ Enriched.pricing_unit (withoutMatches med) = None
  /\ Enriched.classification_for_rate_setting (withoutMatches med) = None
  /\ Enriched.otc (withoutMatches med) = None.
Proof.
  intros Hi Hs. split; [|done].
  unfold enrichAll. rewrite lookup_map, Hi. cbn. f_equal.
  destruct (enrichOne_cases (buildOpenFdaIndexes items) med)
    as [[_ ->]|(Hne & _)]; done.
Qed.

Lemma best_matches_have_the_longest_surviving_variant_witness :
  Enriched.fdaMatches (enrichOne (buildOpenFdaIndexes exItems) exMed)
    = Some [markBest exShort]
  /\ ([markBest exShort] <> []
      /\ forall m, In m [markBest exShort] ->
           (exists c, In c (survivors (buildOpenFdaIndexes exItems) exMed)
                      /\ m = markBest c)
           /\ (forall m', In m' [markBest exShort] ->
                 String.length (Match.normalizedProductNdc m')
                 = String.length (Match.normalizedProductNdc m))
           /\ (forall c, In c (survivors (buildOpenFdaIndexes exItems) exMed) ->
                 String.length (Match.normalizedProductNdc c)
                 <= String.length (Match.normalizedProductNdc m))).
Proof.
  split; [vm_compute; reflexivity|].
  apply (best_matches_have_the_longest_surviving_variant
           exItems exMed [markBest exShort]).
  vm_compute. reflexivity.
Defined.

(** C1, as stated, fails: the candidates of the row before the semantic
    filter have variants of five and of seven digits; the filter removes
    the seven-digit one, whose brand shares no token with the description,
    and the record keeps the five-digit match, shorter than a candidate the
    resolver had produced. *)
Lemma kept_match_shorter_than_a_prefilter_candidate :
  ~ (forall ms m c,
       Enriched.fdaMatches (enrichOne (buildOpenFdaIndexes exItems) exMed)
         = Some ms ->
       In m ms ->
       In c (collectOpenFdaNdcMatches (Med.ndc exMed)
               (buildOpenFdaIndexes exItems)) ->
       String.length (Match.normalizedProductNdc c)
       <= String.length (Match.normalizedProductNdc m)).
Proof.
  intros H.
  assert (E : Enriched.fdaMatches (enrichOne (buildOpenFdaIndexes exItems) exMed)
              = Some [markBest exShort]) by (vm_compute; reflexivity).
  assert (Hc : In exLong (collectOpenFdaNdcMatches (Med.ndc exMed)
                            (buildOpenFdaIndexes exItems)))
    by (vm_compute; right; left; reflexivity).
  specialize (H _ _ _ E (or_introl eq_refl) Hc). vm_compute in H. lia.
Qed.

Lemma surviving_match_shares_a_token_witness :
  In exShort
     (semanticFilter (Med.ndc_description exMed)
        (collectOpenFdaNdcMatches (Med.ndc exMed) (buildOpenFdaIndexes exItems)))
  /\ SharesToken (Med.ndc_description exMed) exShort.
Proof.
  assert (H : In exShort
     (semanticFilter (Med.ndc_description exMed)
        (collectOpenFdaNdcMatches (Med.ndc exMed)
           (buildOpenFdaIndexes exItems))))
    by (vm_compute; left; reflexivity).
  split; [exact H|].
  exact (surviving_match_shares_a_token exItems exMed exShort H).
Defined.

Lemma unmatched_row_keeps_description_and_ndc_witness :
  [exMed; exUnmatched] !! 1 = Some exUnmatched
  /\ survivors (buildOpenFdaIndexes exItems) exUnmatched = []
  /\ (enrichAll [exMed; exUnmatched] (buildOpenFdaIndexes exItems) !! 1
        = Some (withoutMatches exUnmatched)
      /\ Enriched.ndc_description (withoutMatches exUnmatched)
         = Med.ndc_description exUnmatched
      /\ Enriched.ndc (withoutMatches exUnmatched) = Med.ndc exUnmatched
      /\ Enriched.fdaMatches (withoutMatches exUnmatched) = None
      /\ Enriched.nadac_per_unit (withoutMatches exUnmatched) = None
      /\ Enriched.pricing_unit (withoutMatches exUnmatched) = None
      /\ Enriched.classification_for_rate_setting (withoutMatches exUnmatched)
         = None
      /\ Enriched.otc (withoutMatches exUnmatched) = None).
Proof.
  assert (Hs : survivors (buildOpenFdaIndexes exItems) exUnmatched = [])
    by (vm_compute; reflexivity).
  split; [reflexivity|]. split; [exact Hs|].
  exact (unmatched_row_keeps_description_and_ndc
           exItems [exMed; exUnmatched] 1 exUnmatched eq_refl Hs).
Defined.

(** C6, as stated, fails: a row with a unit price and a classification tag
    that no product matches is written with neither of them. *)
Lemma unmatched_row_loses_price_and_classification :
  survivors (buildOpenFdaIndexes exItems) exUnmatched = []
  /\ Med.nadac_per_unit exUnmatched = Some "1.5"
  /\ Med.classification_for_rate_setting exUnmatched = Some "G"
  /\ Enriched.nadac_per_unit (enrichOne (buildOpenFdaIndexes exItems) exUnmatched)
     = None
  /\ Enriched.classification_for_rate_setting
       (enrichOne (buildOpenFdaIndexes exItems) exUnmatched) = None.
Proof. vm_compute. repeat split. Qed.

(** ** Chunks *)

Lemma slicesFrom_concat enriched fuel : forall i,
  length enriched - i <= fuel ->
  concat (slicesFrom fuel i enriched) = drop i enriched.
Proof.
  induction fuel as [|fuel IH]; intros i Hfuel; cbn [slicesFrom].
  - rewrite drop_ge by lia. done.
  - destruct (i <? length enriched) eqn:E.
    + apply Nat.ltb_lt in E. cbn [concat].
      rewrite IH by (unfold CHUNK_SIZE; lia).
      rewrite <- drop_drop. apply take_drop.
    + apply Nat.ltb_ge in E. rewrite drop_ge by lia. done.
Qed.

Lemma slicesFrom_counts enriched fuel : forall i,
  length <$> slicesFrom fuel i enriched
  = countsFrom fuel (length enriched - i).
Proof.
  induction fuel as [|fuel IH]; intros i; cbn [slicesFrom countsFrom];
    [done|].
  destruct (i <? length enriched) eqn:E.
  - apply Nat.ltb_lt in E.
    assert ((0 <? length enriched - i) = true) as -> by (apply Nat.ltb_lt; lia).
    rewrite fmap_cons, IH, length_take, length_drop. f_equal.
    f_equal. lia.
  - apply Nat.ltb_ge in E.
    assert ((0 <? length enriched - i) = false) as -> by (apply Nat.ltb_ge; lia).
    done.
Qed.

Lemma countsFrom_sum fuel : forall n,
  n <= fuel -> sum_list (countsFrom fuel n) = n.
Proof.
  induction fuel as [|fuel IH]; intros n Hn; cbn [countsFrom].
  - cbn. lia.
  - destruct (0 <? n) eqn:E.
    + apply Nat.ltb_lt in E. cbn [sum_list sum_list_with].
      unfold CHUNK_SIZE in *.
      change (sum_list_with id (countsFrom fuel (n - 4000)))
        with (sum_list (countsFrom fuel (n - 4000))).
      rewrite IH by lia. unfold id. lia.
    + apply Nat.ltb_ge in E. cbn. lia.
Qed.

Lemma countsFrom_full fuel : forall n j,
  S j < length (countsFrom fuel n) -> countsFrom fuel n !! j = Some CHUNK_SIZE.
Proof.
  induction fuel as [|fuel IH]; intros n j; cbn [countsFrom];
    [cbn; intros; lia|].
  destruct (0 <? n) eqn:E; [|cbn; intros; lia].
  cbn [length]. intros Hj. destruct j as [|j].
  - change (Some (Nat.min CHUNK_SIZE n) = Some CHUNK_SIZE). f_equal.
    destruct fuel as [|fuel]; [cbn in Hj; lia|].
    cbn [countsFrom] in Hj.
    destruct (0 <? n - CHUNK_SIZE) eqn:E2; [|cbn in Hj; lia].
    apply Nat.ltb_lt in E2. lia.
  - cbn. apply IH. lia.
Qed.

Lemma countsFrom_bounds fuel : forall n c,
  c ∈ countsFrom fuel n -> 0 < c <= CHUNK_SIZE.
Proof.
  induction fuel as [|fuel IH]; intros n c; cbn [countsFrom].
  - by intros ?%elem_of_nil.
  - destruct (0 <? n) eqn:E; [|by intros ?%elem_of_nil].
    apply Nat.ltb_lt in E. intros [->|H]%elem_of_cons.
    + unfold CHUNK_SIZE. lia.
    + by apply (IH (n - CHUNK_SIZE)).
Qed.

Lemma metasOf_count k slices :
  count <$> metasOf k slices = length <$> slices.
Proof.
  revert k. induction slices as [|sl r IH]; intros k; [done|].
  cbn. by rewrite IH.
Qed.

Lemma metasOf_length k slices : length (metasOf k slices) = length slices.
Proof.
  revert k. induction slices as [|sl r IH]; intros k; [done|].
  cbn. by rewrite IH.
Qed.

(** ** Paths *)

Lemma app_cons_str c s1 s2 : String c s1 +:+ s2 = String c (s1 +:+ s2).
Proof. reflexivity. Qed.

Lemma app_length_str s1 s2 :
  String.length (s1 +:+ s2) = String.length s1 + String.length s2.
Proof.
  induction s1 as [|c s1 IH]; [done|].
  rewrite app_cons_str. cbn. by rewrite IH.
Qed.

Lemma app_inj_r s1 : forall s2 t, s1 +:+ t = s2 +:+ t -> s1 = s2.
Proof.
  induction s1 as [|c s1 IH]; intros [|c2 s2] t H; [done|..].
  - apply (f_equal String.length) in H.
    rewrite !app_length_str in H. cbn in H. lia.
  - apply (f_equal String.length) in H.
    rewrite !app_length_str in H. cbn in H. lia.
  - rewrite !app_cons_str in H. injection H as -> H. f_equal.
    by apply (IH _ t).
Qed.

Lemma prefix_app s1 s2 : String.prefix s1 (s1 +:+ s2) = true.
Proof.
  induction s1 as [|c s1 IH]; [by destruct s2|].
  rewrite app_cons_str. cbn. destruct (ascii_dec c c); [done|congruence].
Qed.

Lemma prefix_ne a p q :
  String.prefix a p = true -> String.prefix a q = false -> p <> q.
Proof. intros Hp Hq ->. congruence. Qed.

Lemma chunkName_inj n1 n2 : chunkName n1 = chunkName n2 -> n1 = n2.
Proof.
  unfold chunkName. intros H%(inj (String.app _))%app_inj_r.
  by apply (inj pretty).
Qed.

Lemma chunkPath_inj n1 n2 : chunkPath n1 = chunkPath n2 -> n1 = n2.
Proof.
  unfold chunkPath, join. intros H%(inj (String.app _))%(inj (String.app _)).
  by apply chunkName_inj.
Qed.

Lemma app_assoc_str s1 s2 s3 : (s1 +:+ s2) +:+ s3 = s1 +:+ s2 +:+ s3.
Proof.
  induction s1 as [|c s1 IH]; [done|]. rewrite !app_cons_str. by rewrite IH.
Qed.

Lemma join_prefix dir name : String.prefix (dir +:+ "/") (join dir name) = true.
Proof. unfold join. rewrite <- app_assoc_str. apply prefix_app. Qed.

Lemma chunkPath_prefix n : String.prefix chunksPrefix (chunkPath n) = true.
Proof. apply join_prefix. Qed.

Lemma chunkPath_ne_manifest n : chunkPath n <> MANIFEST_PATH.
Proof.
  unfold chunkPath, MANIFEST_PATH, join, chunkName.
  intros H%(inj (String.app _))%(inj (String.app _)).
  rewrite app_cons_str in H. discriminate.
Qed.

Lemma outside_ne_chunkPath p n :
  String.prefix chunksPrefix p = false -> p <> chunkPath n.
Proof.
  intros Hp Heq.
  apply (prefix_ne chunksPrefix (chunkPath n) p);
    [apply chunkPath_prefix|done|done].
Qed.

(** ** The chunk loop *)

Lemma writeSlices_lookup_chunk slices : forall k fs n,
  writeSlices k slices fs !! chunkPath n
  = if decide (k < n <= k + length slices)
    then EnrichedJson <$> slices !! (n - k - 1)
    else fs !! chunkPath n.
Proof.
  induction slices as [|sl r IH]; intros k fs n; cbn [writeSlices length].
  - case_decide; [lia|done].
  - rewrite IH. destruct (decide (n = k + 1)) as [->|Hne].
    + rewrite decide_False by lia. rewrite decide_True by lia.
      rewrite lookup_insert_eq. replace (k + 1 - k - 1) with 0 by lia. done.
    + rewrite lookup_insert_ne
        by (intros ?%chunkPath_inj; lia).
      repeat case_decide; try lia; try done.
      replace (n - k - 1) with (S (n - S k - 1)) by lia. done.
Qed.

Lemma writeSlices_lookup_other slices : forall k fs p,
  (forall n, p <> chunkPath n) ->
  writeSlices k slices fs !! p = fs !! p.
Proof.
  induction slices as [|sl r IH]; intros k fs p Hp; cbn [writeSlices];
    [done|].
  rewrite IH by done. by rewrite lookup_insert_ne.
Qed.

Section Runs.
Variable writable : string -> bool.

Lemma chunkLoop_spec enriched fuel : forall i meta fs,
  match chunkLoop writable fuel i enriched meta fs with
  | Returned meta' fs' =>
      meta' = meta ++ metasOf (length meta) (slicesFrom fuel i enriched)
      /\ fs' = writeSlices (length meta) (slicesFrom fuel i enriched) fs
      /\ forall j, j < length (slicesFrom fuel i enriched) ->
           writable (chunkPath (length meta + j + 1)) = true
  | Thrown fs' =>
      exists n,
        n < length (slicesFrom fuel i enriched)
        /\ fs' = writeSlices (length meta)
                   (take n (slicesFrom fuel i enriched)) fs
        /\ writable (chunkPath (length meta + n + 1)) = false
  end.
Proof.
  induction fuel as [|fuel IH]; intros i meta fs;
    cbn [chunkLoop slicesFrom].
  - cbn. rewrite app_nil_r. repeat split. intros j Hj. lia.
  - destruct (i <? length enriched) eqn:E.
    2:{ cbn. rewrite app_nil_r. repeat split. intros j Hj. lia. }
    unfold mbind, IO_bind, writeFileSync. fold (chunkPath (length meta + 1)).
    destruct (writable (chunkPath (length meta + 1))) eqn:Ew.
    + set (m := {| filename := chunkName (length meta + 1);
                   count := length (take CHUNK_SIZE (drop i enriched)) |}).
      specialize (IH (i + CHUNK_SIZE) (meta ++ [m])
                    (<[chunkPath (length meta + 1) :=
                         EnrichedJson (take CHUNK_SIZE (drop i enriched))]> fs)).
      destruct (chunkLoop writable fuel (i + CHUNK_SIZE) enriched (meta ++ [m]) _)
        as [meta' fs'|fs'];
        rewrite length_app in IH; cbn [length] in IH;
        rewrite (Nat.add_1_r (length meta)) in IH.
      * destruct IH as (-> & -> & Hw). split; [|split].
        -- rewrite <- app_assoc. reflexivity.
        -- cbn [writeSlices]. by rewrite (Nat.add_1_r (length meta)).
        -- intros [|j] Hj; cbn [length] in Hj.
           ++ by rewrite Nat.add_0_r.
           ++ specialize (Hw j ltac:(lia)).
              by replace (length meta + S j + 1)
                with (S (length meta) + j + 1) by lia.
      * destruct IH as (n & Hn & -> & Hw). exists (S n). split; [|split].
        -- cbn [length]. lia.
        -- cbn [take writeSlices]. by rewrite (Nat.add_1_r (length meta)).
        -- by replace (length meta + S n + 1)
             with (S (length meta) + n + 1) by lia.
    + exists 0. cbn [length take writeSlices]. split; [lia|]. split; [done|].
      by rewrite Nat.add_0_r.
Qed.

End Runs.

(** ** The run as a whole *)

Lemma lookup_resetFiles fs p :
  String.prefix chunksPrefix p = false -> resetFiles fs !! p = fs !! p.
Proof.
  intros Hp. unfold resetFiles. rewrite map_lookup_filter.
  destruct (fs !! p) as [a|]; cbn; [|done].
  by rewrite option_guard_True.
Qed.

Lemma lookup_chunks_outside k slices fs p :
  String.prefix chunksPrefix p = false ->
  writeSlices k slices (resetFiles fs) !! p = fs !! p.
Proof.
  intros Hp. rewrite writeSlices_lookup_other.
  - by apply lookup_resetFiles.
  - intros n. by apply outside_ne_chunkPath.
Qed.

Lemma manifest_inside : String.prefix chunksPrefix MANIFEST_PATH = true.
Proof. reflexivity. Qed.

Lemma chunk_target enriched n :
  n < length (slicesOf enriched) -> chunkPath (0 + n + 1) ∈ targets enriched.
Proof.
  intros Hn. unfold targets. apply elem_of_app. right.
  apply elem_of_app. left. apply list_elem_of_fmap.
  exists (n + 1). split; [done|]. apply elem_of_seq. lia.
Qed.

Lemma out_outside : String.prefix chunksPrefix OUT_ENRICHED_PUBLIC = false.
Proof. reflexivity. Qed.

Lemma desc_outside : String.prefix chunksPrefix DESC_CLASS_MAP_PATH = false.
Proof. reflexivity. Qed.

Lemma out_ne_search : OUT_ENRICHED_PUBLIC <> OUT_SEARCH_INDEX_PUBLIC.
Proof. discriminate. Qed.

Lemma out_ne_desc : OUT_ENRICHED_PUBLIC <> DESC_CLASS_MAP_PATH.
Proof. discriminate. Qed.

Lemma out_ne_manifest : OUT_ENRICHED_PUBLIC <> MANIFEST_PATH.
Proof. discriminate. Qed.

Lemma lookup_flatWritten_out enriched fs :
  flatWritten enriched fs !! OUT_ENRICHED_PUBLIC = Some (EnrichedJson enriched).
Proof.
  unfold flatWritten.
  rewrite lookup_insert_ne by (intros H; by apply out_ne_search).
  apply lookup_insert_eq.
Qed.

Lemma lookup_flatWritten_other enriched fs p :
  p <> OUT_ENRICHED_PUBLIC -> p <> OUT_SEARCH_INDEX_PUBLIC ->
  flatWritten enriched fs !! p = fs !! p.
Proof.
  intros H1 H2. unfold flatWritten. by rewrite !lookup_insert_ne.
Qed.

Lemma lookup_flatWritten_search enriched fs :
  flatWritten enriched fs !! OUT_SEARCH_INDEX_PUBLIC
  = Some (SearchIndexJson (searchDescriptions enriched)).
Proof. apply lookup_insert_eq. Qed.

Lemma main_outcome writable items uniqueMed fs :
  let enriched := enrichAll uniqueMed (buildOpenFdaIndexes items) in
  match main writable items uniqueMed fs with
  | Returned _ fs' =>
      fs' = allWritten enriched fs
      /\ Forall (fun p => writable p = true) (targets enriched)
      /\ writable ENRICHED_CHUNKS_DIR = true
  | Thrown fs' => FailedRun writable enriched fs fs'
  end.
Proof.
  intros enriched.
  unfold main, enrichMedicaidWithOpenFda, writeChunks.
  fold enriched.
  unfold resetDir, rmSync, mkdirSync.
  unfold mbind, IO_bind, mret, IO_ret, writeFileSync.
  unfold FailedRun.
  destruct (writable OUT_ENRICHED_PUBLIC) eqn:Eout; [|by left].
  destruct (writable OUT_SEARCH_INDEX_PUBLIC) eqn:Esearch;
    [|right; by left].
  fold (flatWritten enriched fs).
  destruct (writable ENRICHED_CHUNKS_DIR) eqn:Edir;
    [|right; right; by left].
  change (filter _ (flatWritten enriched fs))
    with (resetFiles (flatWritten enriched fs)).
  pose proof (chunkLoop_spec writable enriched (length enriched) 0 []
                (resetFiles (flatWritten enriched fs))) as Hloop.
  fold (slicesOf enriched) in Hloop. cbn [length app] in Hloop.
  destruct (chunkLoop writable (length enriched) 0 enriched []
              (resetFiles (flatWritten enriched fs))) as [meta fsc|fsc].
  2:{ destruct Hloop as (n & Hn & -> & Hw). right. right. right. left.
      split; [done|]. split; [done|]. split; [done|]. exists n.
      by replace (n + 1) with (0 + n + 1) by lia. }
  destruct Hloop as (-> & -> & Hw).
  fold (manifestOf enriched).
  destruct (writable MANIFEST_PATH) eqn:Eman;
    [|right; right; right; right; by left].
  destruct (writable DESC_CLASS_MAP_PATH) eqn:Edesc;
    [|right; right; right; right; by right].
  split; [done|]. split; [|done].
  unfold targets. rewrite !Forall_app, !Forall_cons, Forall_nil.
  split; [done|]. split; [|done].
  apply Forall_forall. intros p (n & -> & Hn%elem_of_seq)%list_elem_of_fmap.
  specialize (Hw (n - 1) ltac:(lia)).
  by replace (0 + (n - 1) + 1) with n in Hw by lia.
Qed.

Section FailedRuns.
Variable writable : string -> bool.
Variable enriched : list Enriched.t.
Variables fs fs' : gmap string Artifact.
Hypothesis Hfail : FailedRun writable enriched fs fs'.

Lemma failed_target :
  exists p,
    (p ∈ targets enriched \/ p = ENRICHED_CHUNKS_DIR) /\ writable p = false.
Proof.
  destruct Hfail as [[H _]|[(_ & H & _)|[(_ & _ & H & _)|
                    [(_ & _ & _ & n & Hn & H & _)|
                    [(_ & _ & _ & H & _)|(_ & _ & _ & _ & H & _)]]]]].
  - exists OUT_ENRICHED_PUBLIC. split; [|done]. unfold targets. set_solver.
  - exists OUT_SEARCH_INDEX_PUBLIC. split; [|done]. unfold targets. set_solver.
  - exists ENRICHED_CHUNKS_DIR. split; [by right|done].
  - exists (chunkPath (n + 1)). split; [|done]. left.
    replace (n + 1) with (0 + n + 1) by lia. by apply chunk_target.
  - exists MANIFEST_PATH. split; [|done]. unfold targets. set_solver.
  - exists DESC_CLASS_MAP_PATH. split; [|done]. unfold targets. set_solver.
Qed.






End FailedRuns.

Lemma metasOf_lookup slices : forall k j,
  metasOf k slices !! j
  = (fun sl => {| filename := chunkName (k + j + 1); count := length sl |})
      <$> slices !! j.
Proof.
  induction slices as [|sl r IH]; intros k [|j]; cbn; [done|done| |].
  - by rewrite Nat.add_0_r.
  - rewrite IH. by replace (S k + j + 1) with (k + S j + 1) by lia.
Qed.

Lemma desc_ne_manifest : DESC_CLASS_MAP_PATH <> MANIFEST_PATH.
Proof. discriminate. Qed.

Lemma lookup_allWritten_out enriched fs :
  allWritten enriched fs !! OUT_ENRICHED_PUBLIC = Some (EnrichedJson enriched).
Proof.
  unfold allWritten.
  rewrite lookup_insert_ne by (intros H; symmetry in H; by apply out_ne_desc).
  rewrite lookup_insert_ne
    by (intros H; symmetry in H; by apply out_ne_manifest).
  rewrite lookup_chunks_outside by apply out_outside.
  apply lookup_flatWritten_out.
Qed.

Lemma lookup_allWritten_manifest enriched fs :
  allWritten enriched fs !! MANIFEST_PATH
  = Some (ManifestJson (manifestOf enriched)).
Proof.
  unfold allWritten.
  rewrite lookup_insert_ne by apply desc_ne_manifest.
  apply lookup_insert_eq.
Qed.

Lemma lookup_allWritten_search enriched fs :
  allWritten enriched fs !! OUT_SEARCH_INDEX_PUBLIC
  = Some (SearchIndexJson (searchDescriptions enriched)).
Proof.
  unfold allWritten. rewrite !lookup_insert_ne by discriminate.
  rewrite lookup_chunks_outside by reflexivity.
  apply lookup_flatWritten_search.
Qed.

Lemma lookup_allWritten_chunk enriched fs j sl :
  slicesOf enriched !! j = Some sl ->
  allWritten enriched fs !! chunkPath (j + 1) = Some (EnrichedJson sl).
Proof.
  intros Hj. unfold allWritten.
  rewrite lookup_insert_ne.
  2:{ intros H. pose proof (chunkPath_prefix (j + 1)) as Hp.
      rewrite <- H, desc_outside in Hp. done. }
  rewrite lookup_insert_ne
    by (intros H; symmetry in H; by apply chunkPath_ne_manifest in H).
  rewrite writeSlices_lookup_chunk.
  pose proof (lookup_lt_Some _ _ _ Hj) as Hlt.
  rewrite decide_True by lia.
  replace (j + 1 - 0 - 1) with j by lia. by rewrite Hj.
Qed.

Lemma lookup_allWritten_other enriched fs p :
  p <> OUT_ENRICHED_PUBLIC -> p <> OUT_SEARCH_INDEX_PUBLIC ->
  p <> DESC_CLASS_MAP_PATH ->
  String.prefix chunksPrefix p = false ->
  allWritten enriched fs !! p = fs !! p.
Proof.
  intros H1 H2 H3 Hp. unfold allWritten.
  rewrite lookup_insert_ne by done.
  rewrite lookup_insert_ne
    by (intros <-; rewrite manifest_inside in Hp; done).
  rewrite lookup_chunks_outside by done.
  by apply lookup_flatWritten_other.
Qed.

Lemma enrichAll_rows uniqueMed openIdx :
  Forall2 (fun med r =>
             r = withoutMatches med \/ exists ms, r = withMatches med ms)
    uniqueMed (enrichAll uniqueMed openIdx).
Proof.
  unfold enrichAll. induction uniqueMed as [|med l IH]; cbn; [constructor|].
  constructor; [|done].
  destruct (enrichOne_cases openIdx med) as [[_ ->]|(_ & _ & ->)]; eauto.
Qed.

Lemma main_success writable items uniqueMed fs :
  exitStatus (main writable items uniqueMed fs) = 0 ->
  filesOf (main writable items uniqueMed fs)
  = allWritten (enrichAll uniqueMed (buildOpenFdaIndexes items)) fs.
Proof.
  pose proof (main_outcome writable items uniqueMed fs) as H. cbn zeta in H.
  destruct (main writable items uniqueMed fs) as [[] fs'|fs']; cbn; [|done].
  intros _. by destruct H.
Qed.

Lemma length_enrichAll uniqueMed openIdx :
  length (enrichAll uniqueMed openIdx) = length uniqueMed.
Proof. unfold enrichAll. apply length_map. Qed.

Lemma main_all_writable writable items uniqueMed fs :
  (forall p, writable p = true) ->
  exitStatus (main writable items uniqueMed fs) = 0.
Proof.
  intros Hall.
  pose proof (main_outcome writable items uniqueMed fs) as H. cbn zeta in H.
  destruct (main writable items uniqueMed fs) as [[] fs'|fs']; [done|].
  destruct (failed_target _ _ _ _ H) as (p & _ & Hp).
  rewrite Hall in Hp. done.
Qed.

Lemma manifestOf_counts enriched :
  count <$> chunks (manifestOf enriched)
  = countsFrom (length enriched) (length enriched).
Proof.
  cbn [chunks manifestOf]. rewrite metasOf_count. unfold slicesOf.
  rewrite slicesFrom_counts. by rewrite Nat.sub_0_r.
Qed.

(** C3: in a run that ends with status 0, the consolidated file holds one
    record per deduplicated row, in the order of the rows, each the row
    with its matches or the row without matches; and the chunk files named
    by the manifest, read in the order of the manifest, concatenate to the
    content of the consolidated file. *)
Theorem every_row_once_and_chunks_rebuild_the_output
    (writable : string -> bool) (items : list Item.t)
    (uniqueMed : list Med.t) (fs : gmap string Artifact) :
  exitStatus (main writable items uniqueMed fs) = 0 ->
  exists enriched manifest slices,
    filesOf (main writable items uniqueMed fs) !! OUT_ENRICHED_PUBLIC
      = Some (EnrichedJson enriched)
    /\ length enriched = length uniqueMed
    /\ Forall2 (fun med r =>
                  Enriched.ndc_description r = Med.ndc_description med
                  /\ Enriched.ndc r = Med.ndc med
                  /\ (r = withoutMatches med
                      \/ exists ms, r = withMatches med ms))
         uniqueMed enriched
    /\ filesOf (main writable items uniqueMed fs) !! MANIFEST_PATH
       = Some (ManifestJson manifest)
    /\ Forall2 (fun c sl =>
                  filesOf (main writable items uniqueMed fs)
                    !! join ENRICHED_CHUNKS_DIR (filename c)
                  = Some (EnrichedJson sl)
                  /\ count c = length sl)
         (chunks manifest) slices
    /\ concat slices = enriched.
Proof.
  intros Hok. rewrite (main_success _ _ _ _ Hok).
  set (enriched := enrichAll uniqueMed (buildOpenFdaIndexes items)).
  exists enriched, (manifestOf enriched), (slicesOf enriched).
  split; [apply lookup_allWritten_out|].
  split; [apply length_enrichAll|]. split.
  { eapply Forall2_impl; [apply enrichAll_rows|].
    intros med r [->|[ms ->]]; cbn; eauto. }
  split; [apply lookup_allWritten_manifest|]. split.
  - cbn [chunks manifestOf]. apply Forall2_same_length_lookup. split.
    + apply metasOf_length.
    + intros j c sl Hc Hsl. rewrite metasOf_lookup, Hsl in Hc.
      cbn in Hc. injection Hc as <-. cbn [filename count].
      split; [|done]. by apply lookup_allWritten_chunk.
  - unfold slicesOf. rewrite slicesFrom_concat by lia. done.
Qed.

(** C4: in a run that ends with status 0 the manifest file holds a manifest
    whose total is the number of records and the sum of the counts of its
    chunks, whose number of chunks is the length of its chunk list, and
    whose chunks all hold 4000 records except possibly the last, which holds
    between 1 and 4000; for 8001 records there are three chunks, of 4000,
    4000 and 1 records. *)
Theorem manifest_is_consistent
    (writable : string -> bool) (items : list Item.t)
    (uniqueMed : list Med.t) (fs : gmap string Artifact) :
  exitStatus (main writable items uniqueMed fs) = 0 ->
  exists manifest,
    filesOf (main writable items uniqueMed fs) !! MANIFEST_PATH
      = Some (ManifestJson manifest)
    /\ total manifest = length uniqueMed
    /\ total manifest = sum_list (count <$> chunks manifest)
    /\ numberOfChunks manifest = length (chunks manifest)
    /\ chunkSize manifest = 4000
    /\ (forall j c,
          S j < length (chunks manifest) ->
          chunks manifest !! j = Some c -> count c = 4000)
    /\ (forall c, c ∈ chunks manifest -> 0 < count c <= 4000)
    /\ (length uniqueMed = 8001 ->
        numberOfChunks manifest = 3
        /\ count <$> chunks manifest = [4000; 4000; 1]).
Proof.
  intros Hok. rewrite (main_success _ _ _ _ Hok).
  set (enriched := enrichAll uniqueMed (buildOpenFdaIndexes items)).
  assert (Hlen : length enriched = length uniqueMed)
    by apply length_enrichAll.
  pose proof (manifestOf_counts enriched) as Hcounts.
  exists (manifestOf enriched).
  split; [apply lookup_allWritten_manifest|].
  split; [exact Hlen|]. split.
  { rewrite Hcounts, countsFrom_sum by lia. done. }
  split; [done|]. split; [done|]. split.
  { intros j c Hj Hc.
    assert (Hj' : S j < length (countsFrom (length enriched) (length enriched)))
      by (by rewrite <- Hcounts, length_fmap).
    pose proof (countsFrom_full _ _ _ Hj') as Hfull.
    rewrite <- Hcounts, list_lookup_fmap, Hc in Hfull. cbn in Hfull.
    by injection Hfull. }
  split.
  { intros c Hc.
    apply (countsFrom_bounds (length enriched) (length enriched)).
    rewrite <- Hcounts. by apply list_elem_of_fmap_2. }
  intros H8001. rewrite Hlen, H8001 in Hcounts.
  assert (H3 : countsFrom 8001 8001 = [4000; 4000; 1])
    by (vm_compute; reflexivity).
  rewrite H3 in Hcounts. split; [|exact Hcounts].
  cbn [numberOfChunks manifestOf].
  change (metasOf 0 (slicesOf enriched)) with (chunks (manifestOf enriched)).
  by rewrite <- (length_fmap count), Hcounts.
Qed.


Lemma every_row_once_and_chunks_rebuild_the_output_witness :
  exitStatus (main allWritable exItems [exMed; exUnmatched] ∅) = 0
  /\ exists enriched manifest slices,
       filesOf (main allWritable exItems [exMed; exUnmatched] ∅)
         !! OUT_ENRICHED_PUBLIC = Some (EnrichedJson enriched)
       /\ length enriched = length [exMed; exUnmatched]
       /\ Forall2 (fun med r =>
                     Enriched.ndc_description r = Med.ndc_description med
                     /\ Enriched.ndc r = Med.ndc med
                     /\ (r = withoutMatches med
                         \/ exists ms, r = withMatches med ms))
            [exMed; exUnmatched] enriched
       /\ filesOf (main allWritable exItems [exMed; exUnmatched] ∅)
            !! MANIFEST_PATH = Some (ManifestJson manifest)
       /\ Forall2 (fun c sl =>
                     filesOf (main allWritable exItems [exMed; exUnmatched] ∅)
                       !! join ENRICHED_CHUNKS_DIR (filename c)
                     = Some (EnrichedJson sl)
                     /\ count c = length sl)
            (chunks manifest) slices
       /\ concat slices = enriched.
Proof.
  assert (H : exitStatus (main allWritable exItems [exMed; exUnmatched] ∅) = 0)
    by (vm_compute; reflexivity).
  split; [exact H|].
  exact (every_row_once_and_chunks_rebuild_the_output
           allWritable exItems [exMed; exUnmatched] ∅ H).
Defined.

Lemma manifest_is_consistent_witness :
  exitStatus (main allWritable exItems [exMed; exUnmatched] ∅) = 0
  /\ exists manifest,
       filesOf (main allWritable exItems [exMed; exUnmatched] ∅)
         !! MANIFEST_PATH = Some (ManifestJson manifest)
       /\ total manifest = length [exMed; exUnmatched]
       /\ total manifest = sum_list (count <$> chunks manifest)
       /\ numberOfChunks manifest = length (chunks manifest)
       /\ chunkSize manifest = 4000
       /\ (forall j c,
             S j < length (chunks manifest) ->
             chunks manifest !! j = Some c -> count c = 4000)
       /\ (forall c, c ∈ chunks manifest -> 0 < count c <= 4000)
       /\ (length [exMed; exUnmatched] = 8001 ->
           numberOfChunks manifest = 3
           /\ count <$> chunks manifest = [4000; 4000; 1]).
Proof.
  assert (H : exitStatus (main allWritable exItems [exMed; exUnmatched] ∅) = 0)
    by (vm_compute; reflexivity).
  split; [exact H|].
  exact (manifest_is_consistent
           allWritable exItems [exMed; exUnmatched] ∅ H).
Defined.

(** The scenario of the manifest: 8001 rows, every write succeeding. *)
Example manifest_of_8001_rows :
  let out := main allWritable [] (replicate 8001 exUnmatched) ∅ in
  exitStatus out = 0
  /\ exists manifest,
       filesOf out !! MANIFEST_PATH = Some (ManifestJson manifest)
       /\ total manifest = 8001
       /\ numberOfChunks manifest = 3
       /\ count <$> chunks manifest = [4000; 4000; 1].
Proof.
  intros out.
  assert (Hok : exitStatus out = 0) by (by apply main_all_writable).
  split; [exact Hok|]. unfold out. rewrite (main_success _ _ _ _ Hok).
  set (enriched := enrichAll (replicate 8001 exUnmatched)
                     (buildOpenFdaIndexes [])).
  assert (Hlen : length enriched = 8001)
    by (unfold enriched; by rewrite length_enrichAll, length_replicate).
  pose proof (manifestOf_counts enriched) as Hcounts.
  rewrite Hlen in Hcounts.
  assert (H3 : countsFrom 8001 8001 = [4000; 4000; 1])
    by (vm_compute; reflexivity).
  rewrite H3 in Hcounts.
  exists (manifestOf enriched).
  split; [apply lookup_allWritten_manifest|]. split; [exact Hlen|].
  split; [|exact Hcounts].
  cbn [numberOfChunks manifestOf].
  change (metasOf 0 (slicesOf enriched)) with (chunks (manifestOf enriched)).
  by rewrite <- (length_fmap count), Hcounts.
Qed.


(** When the chunk directory cannot be reset the run ends with status 1
    after the two flat outputs were written: the consolidated file is at
    its final path, a chunk file of an earlier run is still there, and no
    manifest was written. *)
Example failed_directory_reset_exits_1 :
  let out := main (allBut ENRICHED_CHUNKS_DIR) exItems [exMed]
               {[chunkPath 7 := EnrichedJson []]} in
  exitStatus out = 1
  /\ filesOf out !! OUT_ENRICHED_PUBLIC
     = Some (EnrichedJson (enrichAll [exMed] (buildOpenFdaIndexes exItems)))
  /\ filesOf out !! chunkPath 7 = Some (EnrichedJson [])
  /\ filesOf out !! MANIFEST_PATH = None.
Proof. vm_compute. repeat split. Qed.

(** * Further properties *)

(** ** Normalisers *)

Lemma filter_all_str p s : Str.all p (Str.filter p s) = true.
Proof.
  induction s as [|c s IH]; [done|]. cbn.
  destruct (p c) eqn:E; [|done]. cbn. by rewrite E.
Qed.

Lemma filter_id_str p s : Str.all p s = true -> Str.filter p s = s.
Proof.
  induction s as [|c s IH]; [done|]. cbn.
  intros [Hc Hs]%andb_true_iff. rewrite Hc. by rewrite IH.
Qed.

Lemma digit_not_space c : Char.is_digit c = true -> Char.is_space c = false.
Proof.
  unfold Char.is_digit, Char.is_space.
  intros [H1 H2]%andb_true_iff.
  apply Nat.leb_le in H1. apply Nat.leb_le in H2.
  apply orb_false_iff. split; [apply orb_false_iff; split|].
  - apply andb_false_iff. right. apply Nat.leb_gt. lia.
  - apply Nat.eqb_neq. lia.
  - apply Nat.eqb_neq. lia.
Qed.

Lemma trimStart_no_space s :
  Str.all (fun c => negb (Char.is_space c)) s = true -> Str.trimStart s = s.
Proof.
  destruct s as [|c s]; [done|]. cbn.
  intros [Hc _]%andb_true_iff. by destruct (Char.is_space c).
Qed.

Lemma trimEnd_no_space s :
  Str.all (fun c => negb (Char.is_space c)) s = true -> Str.trimEnd s = s.
Proof.
  induction s as [|c s IH]; [done|]. cbn.
  intros [Hc Hs]%andb_true_iff. rewrite IH by done.
  destruct (Char.is_space c); [done|]. done.
Qed.

Lemma all_impl_str (p q : ascii -> bool) s :
  (forall c, p c = true -> q c = true) ->
  Str.all p s = true -> Str.all q s = true.
Proof.
  intros Hpq. induction s as [|c s IH]; [done|]. cbn.
  intros [Hc Hs]%andb_true_iff. by rewrite (Hpq c Hc), IH.
Qed.

Lemma trim_digits s : Str.all Char.is_digit s = true -> Str.trim s = s.
Proof.
  intros H.
  assert (Hn : Str.all (fun c => negb (Char.is_space c)) s = true).
  { eapply all_impl_str; [|exact H].
    intros c Hc. by rewrite (digit_not_space c Hc). }
  unfold Str.trim. by rewrite trimStart_no_space, trimEnd_no_space.
Qed.

Lemma normalizeMedNdc_filter s :
  normalizeMedNdc s = Str.strip_non_digits s.
Proof.
  unfold normalizeMedNdc. destruct s as [|c s]; [done|].
  cbn [Str.truthy]. apply trim_digits, filter_all_str.
Qed.

(** X1: the pricing identifier normaliser returns digits only, returns a
    string of digits unchanged, and gives the same result when applied
    twice. *)
Theorem normalizeMedNdc_digits_only_and_idempotent (ndc : string) :
  Str.all Char.is_digit (normalizeMedNdc ndc) = true
  /\ normalizeMedNdc (normalizeMedNdc ndc) = normalizeMedNdc ndc
  /\ (Str.all Char.is_digit ndc = true -> normalizeMedNdc ndc = ndc).
Proof.
  rewrite !normalizeMedNdc_filter. unfold Str.strip_non_digits.
  split; [apply filter_all_str|]. split.
  - apply filter_id_str, filter_all_str.
  - apply filter_id_str.
Qed.

Lemma hyphen_not_digit c : Ascii.eqb c "-" = true -> Char.is_digit c = false.
Proof. intros ->%Ascii.eqb_eq. reflexivity. Qed.

Lemma filter_replace_hyphen_empty s :
  Str.filter Char.is_digit (Str.replace_hyphen "" s)
  = Str.filter Char.is_digit s.
Proof.
  induction s as [|c s IH]; [done|]. cbn [Str.replace_hyphen Str.filter].
  destruct (Ascii.eqb c "-") eqn:E.
  - rewrite (hyphen_not_digit c E). exact IH.
  - cbn [Str.filter]. by rewrite IH.
Qed.

(** X2: on every input the digits-only form of a product code is what the
    pricing normaliser gives for the same string, so the two datasets are
    compared in one normal form; it holds digits only. *)
Theorem digits_form_is_the_pricing_normal_form (productNdc : string) :
  openFdaDigitsKeepZeros productNdc = normalizeMedNdc productNdc
  /\ Str.all Char.is_digit (openFdaDigitsKeepZeros productNdc) = true.
Proof.
  assert (H : openFdaDigitsKeepZeros productNdc
              = Str.strip_non_digits productNdc).
  { unfold openFdaDigitsKeepZeros, Str.strip_non_digits.
    destruct productNdc as [|c s]; [done|]. cbn [Str.truthy].
    apply filter_replace_hyphen_empty. }
  rewrite H, normalizeMedNdc_filter. split; [done|apply filter_all_str].
Qed.

Lemma zeroFill_length s :
  String.length (Str.filter Char.is_digit (Str.replace_hyphen "0" s))
  = String.length (Str.filter Char.is_digit s) + hyphens s.
Proof.
  induction s as [|c s IH]; [done|].
  cbn [Str.replace_hyphen Str.filter hyphens].
  destruct (Ascii.eqb c "-") eqn:E.
  - rewrite (hyphen_not_digit c E).
    change ("0" +:+ Str.replace_hyphen "0" s)
      with (String "0" (Str.replace_hyphen "0" s)).
    cbn [Str.filter]. change (Char.is_digit "0") with true.
    cbn [String.length]. rewrite IH. lia.
  - cbn [Str.filter]. destruct (Char.is_digit c); cbn [String.length];
      rewrite IH; lia.
Qed.

Lemma replace_hyphen_none r s : hyphens s = 0 -> Str.replace_hyphen r s = s.
Proof.
  induction s as [|c s IH]; [done|]. cbn [hyphens Str.replace_hyphen].
  destruct (Ascii.eqb c "-"); [done|]. cbn. intros H. by rewrite IH.
Qed.

(** X3: the zero-fill form of a product code holds digits only and is
    longer than the digits-only form by the number of hyphens of the code;
    for a code without hyphen the two forms are the same string. *)
Theorem zero_fill_adds_one_digit_per_hyphen (productNdc : string) :
  Str.all Char.is_digit (openFdaHyphenZeroFill productNdc) = true
  /\ String.length (openFdaHyphenZeroFill productNdc)
     = String.length (openFdaDigitsKeepZeros productNdc) + hyphens productNdc
  /\ (hyphens productNdc = 0 ->
      openFdaHyphenZeroFill productNdc = openFdaDigitsKeepZeros productNdc).
Proof.
  unfold openFdaHyphenZeroFill, openFdaDigitsKeepZeros, Str.strip_non_digits.
  destruct productNdc as [|c s]; [done|]. cbn [Str.truthy].
  split; [apply filter_all_str|]. split.
  - rewrite zeroFill_length, filter_replace_hyphen_empty. done.
  - intros H. by rewrite !replace_hyphen_none.
Qed.

(** ** Tokens *)

Lemma to_lower_idem c : Char.to_lower (Char.to_lower c) = Char.to_lower c.
Proof. destruct c as [[] [] [] [] [] [] [] []]; vm_compute; reflexivity. Qed.

Lemma toLowerCase_idem s :
  Str.toLowerCase (Str.toLowerCase s) = Str.toLowerCase s.
Proof.
  unfold Str.toLowerCase. induction s as [|c s IH]; [done|].
  cbn. by rewrite to_lower_idem, IH.
Qed.

Lemma normalizeWhitespaceLower_lower s :
  normalizeWhitespaceLower (Str.toLowerCase s) = normalizeWhitespaceLower s.
Proof.
  unfold normalizeWhitespaceLower. rewrite toLowerCase_idem.
  by destruct s.
Qed.

(** X4: the tokens of a string do not depend on the case of its letters,
    and neither does the semantic filter depend on the case of the
    description. *)
Theorem tokens_ignore_case (s : string) (matches : list Match.t) :
  tokenizeWords (Str.toLowerCase s) = tokenizeWords s
  /\ semanticFilter (Str.toLowerCase s) matches = semanticFilter s matches.
Proof.
  assert (H : tokenizeWords (Str.toLowerCase s) = tokenizeWords s).
  { unfold tokenizeWords. by rewrite normalizeWhitespaceLower_lower. }
  split; [exact H|]. unfold semanticFilter. by rewrite H.
Qed.

(** ** Display fields *)

Lemma uniqueList_go_spec limit arr : forall (seen : gset string) out,
  NoDup out ->
  (forall x, x ∈ seen <-> x ∈ out) ->
  length out < Nat.max limit 1 ->
  let res := uniqueList_go limit arr seen out in
  NoDup res
  /\ length res <= Nat.max limit 1
  /\ forall x, x ∈ res ->
       x ∈ out \/ (Str.truthy x = true /\ exists v, v ∈ arr /\ x = Str.trim v).
Proof.
  induction arr as [|v arr IH]; intros seen out Hnd Hseen Hlen;
    cbn [uniqueList_go].
  - split; [done|]. split; [lia|]. auto.
  - assert (Hrest : forall res,
              (NoDup res /\ length res <= Nat.max limit 1
               /\ forall x, x ∈ res ->
                    x ∈ out \/ (Str.truthy x = true
                                /\ exists v', v' ∈ arr /\ x = Str.trim v')) ->
              NoDup res /\ length res <= Nat.max limit 1
              /\ forall x, x ∈ res ->
                   x ∈ out \/ (Str.truthy x = true
                               /\ exists v', v' ∈ v :: arr /\ x = Str.trim v')).
    { intros res (H1 & H2 & H3). split; [done|]. split; [done|].
      intros x Hx. destruct (H3 x Hx) as [?|(? & v' & ? & ?)]; [by left|].
      right. split; [done|]. exists v'. split; [by right|done]. }
    destruct (Str.truthy (Str.trim v)) eqn:Et; cbn [negb].
    2:{ apply Hrest. by apply IH. }
    destruct (decide (Str.trim v ∈ seen)) as [Hin|Hnin].
    { apply Hrest. by apply IH. }
    assert (Hnd' : NoDup (out ++ [Str.trim v])).
    { apply NoDup_app. split; [done|]. split; [|apply NoDup_singleton].
      intros x Hx ->%list_elem_of_singleton. apply Hnin. by apply Hseen. }
    assert (Hnew : forall x, x ∈ out ++ [Str.trim v] ->
              x ∈ out \/ (Str.truthy x = true
                          /\ exists v', v' ∈ v :: arr /\ x = Str.trim v')).
    { intros x [?|Hx]%elem_of_app; [by left|].
      apply list_elem_of_singleton in Hx as ->.
      right. split; [done|]. exists v. split; [by left|done]. }
    destruct (limit <=? length (out ++ [Str.trim v])) eqn:El.
    + split; [done|]. split; [|done].
      rewrite length_app. cbn. lia.
    + apply Nat.leb_gt in El.
      destruct (IH ({[Str.trim v]} ∪ seen) (out ++ [Str.trim v]))
        as (H1 & H2 & H3); [done| |lia|].
      { intros x. rewrite elem_of_union, elem_of_singleton, elem_of_app,
          list_elem_of_singleton, Hseen. tauto. }
      split; [done|]. split; [done|].
      intros x Hx. destruct (H3 x Hx) as [Hx'|(? & v' & ? & ?)].
      * by apply Hnew.
      * right. split; [done|]. exists v'. split; [by right|done].
Qed.

(** X5: [uniqueList] returns no string twice, returns only trimmed,
    non-empty values of its input, and returns at most [limit] of them - at
    most one when [limit] is 0, the bound being tested after a value is
    added. *)
Theorem uniqueList_distinct_trimmed_bounded (arr : list string) (limit : nat) :
  NoDup (uniqueList arr limit)
  /\ length (uniqueList arr limit) <= Nat.max limit 1
  /\ forall x, x ∈ uniqueList arr limit ->
       Str.truthy x = true /\ exists v, v ∈ arr /\ x = Str.trim v.
Proof.
  destruct (uniqueList_go_spec limit arr ∅ []) as (H1 & H2 & H3).
  - apply NoDup_nil_2.
  - intros x. rewrite elem_of_nil. set_solver.
  - cbn. lia.
  - split; [done|]. split; [done|].
    intros x Hx. destruct (H3 x Hx) as [?%elem_of_nil|?]; done.
Qed.

Lemma all_app_str p s1 s2 :
  Str.all p (s1 +:+ s2) = Str.all p s1 && Str.all p s2.
Proof.
  induction s1 as [|c s1 IH]; [done|].
  rewrite app_cons_str. cbn. by rewrite IH, andb_assoc.
Qed.

Lemma blank_trimStart s : blank (Str.trimStart s) = blank s.
Proof.
  unfold blank. induction s as [|c s IH]; [done|]. cbn.
  destruct (Char.is_space c) eqn:E; [done|]. cbn. by rewrite E.
Qed.

Lemma truthy_trimEnd s : Str.truthy (Str.trimEnd s) = negb (blank s).
Proof.
  unfold blank. induction s as [|c s IH]; [done|]. cbn.
  rewrite IH. destruct (Char.is_space c), (Str.all Char.is_space s); done.
Qed.

Lemma truthy_trim s : Str.truthy (Str.trim s) = negb (blank s).
Proof. unfold Str.trim. by rewrite truthy_trimEnd, blank_trimStart. Qed.

Lemma blank_truthy s : blank s = false -> Str.truthy s = true.
Proof. by destruct s. Qed.

Lemma filter_map_nil {A B : Type} (f : B -> bool) (g : A -> B) (l : list A) :
  List.filter f (List.map g l) = [] <-> forall x, In x l -> f (g x) = false.
Proof.
  induction l as [|a l IH]; cbn; [by split|].
  destruct (f (g a)) eqn:E.
  - split; [done|]. intros H. rewrite (H a) in E; [done|by left].
  - rewrite IH. split.
    + intros H x [<-|Hx]; auto.
    + intros H x Hx. apply H. by right.
Qed.

Lemma concat_truthy sep p ps :
  Str.truthy p = true -> Str.truthy (String.concat sep (p :: ps)) = true.
Proof.
  intros Hp. cbn. destruct ps; [done|].
  destruct p; [done|]. by rewrite app_cons_str.
Qed.

(** X6: the two display fields computed from the active ingredients go
    together: the summary [dosageStrength] is absent exactly when the
    detailed list is absent, which is when no ingredient has a name or a
    strength that is not blank; and a summary that is present is not the
    empty string. *)
Theorem dosage_summary_present_iff_details_present
    (aiArray : list ActiveIngredient) :
  (formatActiveIngredients aiArray = None
   <-> mapActiveIngredientsDetailed aiArray = None)
  /\ (formatActiveIngredients aiArray = None
      <-> forall ai, In ai aiArray -> hasContent ai = false)
  /\ (forall s, formatActiveIngredients aiArray = Some s -> Str.truthy s = true).
Proof.
  set (part := fun ai : ActiveIngredient =>
        let n := truthy_or_empty (ai_name ai) in
        let st := truthy_or_empty (ai_strength ai) in
        let left := if Str.truthy n then n else st in
        let right :=
          if Str.truthy n && Str.truthy st then " " +:+ st else "" in
        Str.trim (left +:+ right)).
  set (conv := fun ai => {| ai_name := truthy_opt (ai_name ai);
                            ai_strength := truthy_opt (ai_strength ai) |}).
  set (shown := fun o : option string =>
        match o with
        | Some s => Str.truthy s && Str.truthy (Str.trim s)
        | None => false
        end).
  assert (Hpart : forall ai, Str.truthy (part ai) = hasContent ai).
  { intros [n st]. unfold part, hasContent. cbn [ai_name ai_strength].
    rewrite truthy_trim. unfold blank.
    destruct n as [[|c n]|], st as [[|c' st]|];
      cbn [truthy_or_empty Str.truthy andb];
      rewrite ?all_app_str; cbn [Str.all];
      change (Char.is_space " ") with true;
      repeat match goal with
             | |- context [Char.is_space ?x] => destruct (Char.is_space x)
             | |- context [Str.all Char.is_space ?x] =>
                 destruct (Str.all Char.is_space x)
             end;
      reflexivity. }
  assert (Hshown : forall ai,
            shown (ai_name (conv ai)) || shown (ai_strength (conv ai))
            = hasContent ai).
  { assert (H1 : forall o, shown (truthy_opt o)
                           = negb (blank (truthy_or_empty o))).
    { intros [[|c s]|]; [done| |done].
      unfold truthy_opt, or_undefined, truthy_or_empty, shown.
      cbn [Str.truthy andb]. apply truthy_trim. }
    intros [n st]. unfold hasContent, conv. cbn [ai_name ai_strength].
    by rewrite !H1. }
  assert (Hfmt : formatActiveIngredients aiArray = None
                 <-> forall ai, In ai aiArray -> hasContent ai = false).
  { unfold formatActiveIngredients. fold part.
    destruct aiArray as [|a l]; [by split|].
    destruct (List.filter Str.truthy (List.map part (a :: l))) eqn:E.
    - split; [|done]. intros _ ai Hai.
      rewrite <- Hpart. by apply (proj1 (filter_map_nil _ _ _) E).
    - split; [done|]. intros H.
      assert (E' : List.filter Str.truthy (List.map part (a :: l)) = []).
      { apply filter_map_nil. intros x Hx. rewrite Hpart. by apply H. }
      congruence. }
  assert (Hmap : mapActiveIngredientsDetailed aiArray = None
                 <-> forall ai, In ai aiArray -> hasContent ai = false).
  { unfold mapActiveIngredientsDetailed. fold conv. fold shown.
    destruct (List.filter _ (List.map conv aiArray)) eqn:E.
    - split; [|done]. intros _ ai Hai.
      rewrite <- Hshown. by apply (proj1 (filter_map_nil _ _ _) E).
    - split; [done|]. intros H.
      assert (E' : List.filter
                     (fun x => shown (ai_name x) || shown (ai_strength x))
                     (List.map conv aiArray) = []).
      { apply filter_map_nil. intros x Hx. rewrite Hshown. by apply H. }
      unfold shown in E'. rewrite E' in E. discriminate E. }
  split; [by rewrite Hfmt, Hmap|]. split; [exact Hfmt|].
  intros s. unfold formatActiveIngredients. fold part.
  destruct aiArray as [|a l]; [done|].
  destruct (List.filter Str.truthy (List.map part (a :: l))) as [|p ps] eqn:E;
    [done|].
  intros [= <-]. apply concat_truthy.
  assert (Hp : In p (List.filter Str.truthy (List.map part (a :: l))))
    by (rewrite E; by left).
  by apply filter_In in Hp as [_ Hp].
Qed.

(** ** The index *)

Lemma emitted_variantOfItem items r :
  r ∈ emitted 0 (toEntry <$> items) -> variantOfItem items r.
Proof.
  intros Hr. destruct (emitted_elem _ _ _ Hr) as (e & He & Hre).
  rewrite Nat.sub_0_r, list_lookup_fmap in He.
  destruct (items !! idx r) as [item|] eqn:Ei; [|done].
  cbn in He. injection He as <-. exists item. split; [done|].
  unfold entryRecords in Hre. apply elem_of_app in Hre as [H|H];
    apply list_elem_of_fmap in H as (c & -> & Hc); cbn [variant recOf].
  - by left.
  - apply list_elem_of_filter in Hc as [_ Hc]. by right.
Qed.

(** X7: a record stored in the index belongs to the product it points to:
    its position is a position of [entries] (so [entries[idx]] is never
    undefined in the matcher), the entry there is the one built from the
    item at that position, and its variant is on the stripping chain of the
    digits-only or of the zero-fill form of that item. *)
Theorem stored_record_points_to_its_product
    (items : list Item.t) (L : nat) (b : Bucket) (key : string)
    (arr : list IdxRec) (r : IdxRec) :
  In (L, b) (ndcByLength (buildOpenFdaIndexes items)) ->
  In (key, arr) b -> In r arr ->
  idx r < length (entries (buildOpenFdaIndexes items))
  /\ variantOfItem items r
  /\ forall item, items !! idx r = Some item ->
       entryAt (entries (buildOpenFdaIndexes items)) (idx r) = toEntry item.
Proof.
  intros HL Hk Hr.
  assert (Hst : Stored (variantOfItem items)
                  (ndcByLength (buildOpenFdaIndexes items))).
  { unfold buildOpenFdaIndexes. cbn [ndcByLength].
    rewrite indexEntries_spec. apply Stored_insertRecs; [|apply Stored_nil].
    apply Forall_forall. intros r' Hr'.
    apply emitted_variantOfItem. exact Hr'. }
  destruct (Hst L b key arr HL Hk) as [_ H]. destruct (H r Hr) as [_ Hv].
  split; [by apply (build_idx_in_range items L b key arr r)|].
  split; [done|].
  intros item Hi. unfold entryAt, buildOpenFdaIndexes. cbn [entries].
  by rewrite lookup_map, Hi.
Qed.

Lemma stored_record_points_to_its_product_witness :
  In (6, [("123456", [recOf 0 digits "123456"])])
     (ndcByLength (buildOpenFdaIndexes [item_of "123456" "Brand"]))
  /\ In ("123456", [recOf 0 digits "123456"])
        [("123456", [recOf 0 digits "123456"])]
  /\ In (recOf 0 digits "123456") [recOf 0 digits "123456"]
  /\ (idx (recOf 0 digits "123456")
      < length (entries (buildOpenFdaIndexes [item_of "123456" "Brand"]))
      /\ variantOfItem [item_of "123456" "Brand"] (recOf 0 digits "123456")
      /\ forall item,
           [item_of "123456" "Brand"] !! idx (recOf 0 digits "123456")
             = Some item ->
           entryAt (entries (buildOpenFdaIndexes [item_of "123456" "Brand"]))
             (idx (recOf 0 digits "123456")) = toEntry item).
Proof.
  assert (H1 : In (6, [("123456", [recOf 0 digits "123456"])])
                 (ndcByLength (buildOpenFdaIndexes [item_of "123456" "Brand"])))
    by (vm_compute; left; reflexivity).
  assert (H2 : In ("123456", [recOf 0 digits "123456"])
                 [("123456", [recOf 0 digits "123456"])]) by (by left).
  assert (H3 : In (recOf 0 digits "123456") [recOf 0 digits "123456"])
    by (by left).
  split; [exact H1|]. split; [exact H2|]. split; [exact H3|].
  exact (stored_record_points_to_its_product _ _ _ _ _ _ H1 H2 H3).
Defined.

Section KeysFacts.
Context {K V : Type} (eqb : K -> K -> bool).
Hypothesis eqb_eq : forall x y, eqb x y = true <-> x = y.

Lemma get_None_keys k (m : list (K * V)) :
  JsMap.get eqb k m = None <-> ~ In k (JsMap.keys m).
Proof.
  induction m as [|[k' v'] m IH]; cbn; [tauto|].
  destruct (eqb k k') eqn:E.
  - apply eqb_eq in E as ->. split; [done|]. intros H. destruct H. by left.
  - rewrite IH. split.
    + intros H [<-|H']; [|done]. rewrite (eqb_refl' eqb eqb_eq) in E. done.
    + intros H H'. apply H. by right.
Qed.

Lemma keys_set k (v : V) m :
  JsMap.keys (JsMap.set eqb k v m)
  = if JsMap.has eqb k m then JsMap.keys m else JsMap.keys m ++ [k].
Proof.
  unfold JsMap.has, JsMap.keys.
  induction m as [|[k' v'] m IH]; cbn; [done|].
  destruct (eqb k k') eqn:E; cbn.
  - apply eqb_eq in E as ->. done.
  - rewrite IH. by destruct (JsMap.get eqb k m).
Qed.

Lemma NoDup_keys_set k (v : V) m :
  NoDup (JsMap.keys m) -> NoDup (JsMap.keys (JsMap.set eqb k v m)).
Proof.
  intros Hnd. rewrite keys_set. unfold JsMap.has.
  destruct (JsMap.get eqb k m) eqn:E; [done|].
  apply NoDup_app. split; [done|]. split; [|apply NoDup_singleton].
  intros x Hx ->%list_elem_of_singleton.
  apply get_None_keys in E. apply E. by apply list_elem_of_In.
Qed.

Lemma In_get k (v : V) m :
  NoDup (JsMap.keys m) -> In (k, v) m -> JsMap.get eqb k m = Some v.
Proof.
  induction m as [|[k' v'] m IH]; cbn; [done|].
  intros [Hk Hnd]%NoDup_cons [[= -> ->]|Hin].
  - by rewrite (eqb_refl' eqb eqb_eq).
  - destruct (eqb k k') eqn:E; [|by apply IH].
    apply eqb_eq in E as ->. destruct Hk.
    apply list_elem_of_In. change k' with (fst (k', v)). by apply in_map.
Qed.

End KeysFacts.

Lemma NoDup_keys_addToMapArray {V : Type} (b : list (string * list V)) key x :
  NoDup (JsMap.keys b) -> NoDup (JsMap.keys (addToMapArray b key x)).
Proof.
  intros H. unfold addToMapArray.
  destruct (JsMap.get String.eqb key b);
    by apply (NoDup_keys_set _ string_eqb_eq).
Qed.

Lemma KeysOnce_bucketOf m L : KeysOnce m -> NoDup (JsMap.keys (bucketOf m L)).
Proof.
  intros [_ Hb]. unfold bucketOf.
  destruct (JsMap.get Nat.eqb L m) as [b|] eqn:E; cbn; [|apply NoDup_nil_2].
  apply (get_In _ nat_eqb_eq) in E. by apply (Hb L).
Qed.

Lemma KeysOnce_indexVariant i t cur m :
  KeysOnce m -> KeysOnce (indexVariant i t cur m).
Proof.
  intros Hm. unfold indexVariant.
  set (L0 := String.length cur).
  set (m1 := if JsMap.has Nat.eqb L0 m then m else JsMap.set Nat.eqb L0 [] m).
  assert (Hm1 : KeysOnce m1).
  { unfold m1. destruct (JsMap.has Nat.eqb L0 m); [done|].
    destruct Hm as [Hk Hb]. split.
    - by apply (NoDup_keys_set _ nat_eqb_eq).
    - intros L b [[-> ->]|Hin]%In_set; [apply NoDup_nil_2|by apply (Hb L)]. }
  fold (bucketOf m1 L0). destruct Hm1 as [Hk Hb]. split.
  - by apply (NoDup_keys_set _ nat_eqb_eq).
  - intros L b [[-> ->]|Hin]%In_set; [|by apply (Hb L)].
    apply NoDup_keys_addToMapArray. by apply KeysOnce_bucketOf.
Qed.

Lemma KeysOnce_insertRecs rs : forall m,
  KeysOnce m -> KeysOnce (insertRecs rs m).
Proof.
  induction rs as [|r rs IH]; intros m Hm; [done|].
  cbn [insertRecs fold_left]. apply IH. by apply KeysOnce_indexVariant.
Qed.

Lemma KeysOnce_build items :
  KeysOnce (ndcByLength (buildOpenFdaIndexes items)).
Proof.
  unfold buildOpenFdaIndexes. cbn [ndcByLength].
  rewrite indexEntries_spec. apply KeysOnce_insertRecs.
  split; [apply NoDup_nil_2|]. intros L b [].
Qed.

Lemma StronglySorted_le_lt (l : list nat) :
  NoDup l -> StronglySorted Nat.le l -> StronglySorted Nat.lt l.
Proof.
  induction l as [|x l IH]; [constructor|].
  intros [Hx Hnd]%NoDup_cons [Hall Hs]%StronglySorted_cons.
  constructor; [by apply IH|].
  apply Forall_forall. intros y Hy.
  rewrite Forall_forall in Hall. specialize (Hall y Hy).
  assert (x <> y) by (intros ->; done). unfold Nat.lt. lia.
Qed.

(** X8: the index holds one bucket per length and one array per variant
    string: no key is repeated at either level, [get] returns the bucket
    that is listed under a length, and the list of lengths the matcher
    walks is strictly increasing and holds exactly the lengths of the
    index. *)
Theorem index_keys_occur_once (items : list Item.t) :
  let m := ndcByLength (buildOpenFdaIndexes items) in
  NoDup (JsMap.keys m)
  /\ (forall L b, In (L, b) m ->
        NoDup (JsMap.keys b) /\ JsMap.get Nat.eqb L m = Some b)
  /\ StronglySorted Nat.lt (lengthsAsc m)
  /\ (forall L, L ∈ lengthsAsc m <-> In L (JsMap.keys m)).
Proof.
  intros m. destruct (KeysOnce_build items) as [Hk Hb]. fold m in Hk, Hb.
  split; [done|]. split.
  { intros L b HL. split; [by apply (Hb L)|].
    by apply (In_get _ nat_eqb_eq). }
  unfold lengthsAsc. split.
  - apply StronglySorted_le_lt.
    + by rewrite merge_sort_Permutation.
    + apply (StronglySorted_merge_sort Nat.le).
  - intros L. rewrite merge_sort_Permutation. apply list_elem_of_In.
Qed.

(** ** Signatures of stored records *)

Lemma noBar_pretty_N_go x : forall s,
  noBar s = true -> noBar (pretty_N_go x s) = true.
Proof.
  induction (N.lt_wf_0 x) as [x _ IH]; intros s Hs.
  destruct (decide (x = 0)%N) as [->|Hx]; [by rewrite pretty_N_go_0|].
  rewrite pretty_N_go_step by lia. apply IH.
  - apply N.div_lt; lia.
  - unfold noBar in *. cbn [Str.all]. rewrite Hs, andb_true_r.
    unfold pretty_N_char. by repeat case_match.
Qed.

Lemma noBar_pretty (n : nat) : noBar (pretty n) = true.
Proof.
  unfold pretty, pretty_nat, pretty, pretty_N.
  case_decide; [done|]. by apply noBar_pretty_N_go.
Qed.

Lemma app_nil_str' s : "" +:+ s = s.
Proof. reflexivity. Qed.

Lemma split_at_first_bar a : forall b x y,
  noBar a = true -> noBar b = true ->
  a +:+ String "|" x = b +:+ String "|" y -> a = b /\ x = y.
Proof.
  unfold noBar. induction a as [|c a IH]; intros [|d b] x y Ha Hb H.
  - rewrite !app_nil_str' in H. by injection H.
  - rewrite app_cons_str in H. cbn in H. injection H as <- _.
    cbn in Hb. done.
  - rewrite app_cons_str in H. cbn in H. injection H as -> _.
    cbn in Ha. done.
  - rewrite !app_cons_str in H. injection H as -> H.
    cbn in Ha, Hb. apply andb_true_iff in Ha as [_ Ha].
    apply andb_true_iff in Hb as [_ Hb].
    destruct (IH b x y Ha Hb H) as [-> ->]. done.
Qed.

Lemma lastChar_app s t :
  Str.truthy t = true -> lastChar (s +:+ t) = lastChar t.
Proof.
  intros Ht. induction s as [|c s IH]; [done|].
  rewrite app_cons_str. cbn [lastChar]. rewrite IH.
  destruct t as [|d t]; [done|]. cbn. by destruct (lastChar t).
Qed.

Lemma sigOf_inj r1 r2 : sigOf r1 = sigOf r2 -> r1 = r2.
Proof.
  destruct r1 as [i1 v1 t1], r2 as [i2 v2 t2]. unfold sigOf.
  cbn [idx variant vtype]. intros H.
  change ("|" +:+ ?x) with (String "|" x) in H.
  apply split_at_first_bar in H as [Hi H]; [|apply noBar_pretty..].
  apply (inj pretty) in Hi as ->.
  assert (Ht : t1 = t2).
  { apply (f_equal lastChar) in H.
    rewrite (lastChar_app v1 ("|" +:+ vtype_name t1)) in H
      by (by destruct t1).
    rewrite (lastChar_app v2 ("|" +:+ vtype_name t2)) in H
      by (by destruct t2).
    destruct t1, t2; vm_compute in H; congruence. }
  subst t2. apply app_inj_r in H as ->. done.
Qed.

(** ** What the matcher pushes *)

Section GrowsFacts.
Variable mode : MatchMode.
Variable openIdx : OpenIdx.

Lemma Grows_refl st : Grows mode openIdx st st.
Proof.
  exists []. cbn. rewrite app_nil_r. split; [done|].
  split; [set_solver|]. split; [apply NoDup_nil_2|].
  by intros r ?%elem_of_nil.
Qed.

Lemma Grows_seen st st' : Grows mode openIdx st st' -> st.2 ⊆ st'.2.
Proof. intros (rs & _ & -> & _). set_solver. Qed.

Lemma Grows_trans st1 st2 st3 :
  Grows mode openIdx st1 st2 -> Grows mode openIdx st2 st3 ->
  Grows mode openIdx st1 st3.
Proof.
  intros (rs & H1 & H2 & H3 & H4) (rs' & H1' & H2' & H3' & H4').
  exists (rs ++ rs'). rewrite !fmap_app. split; [|split; [|split]].
  - by rewrite H1', H1, app_assoc.
  - rewrite H2', H2, list_to_set_app_L. set_solver.
  - apply NoDup_app. split; [done|]. split; [|done].
    intros s Hs (r' & -> & Hr')%list_elem_of_fmap.
    destruct (H4' r' Hr') as [_ Hn]. apply Hn. rewrite H2.
    apply elem_of_union. left. by apply elem_of_list_to_set.
  - intros r [Hr|Hr]%elem_of_app; [by apply H4|].
    destruct (H4' r Hr) as [Hs Hn]. split; [done|].
    intros Hin. apply Hn. rewrite H2. set_solver.
Qed.

Lemma pushRec_grows st r :
  storedIn (ndcByLength openIdx) r ->
  Grows mode openIdx st (pushRec mode (entries openIdx) st r).
Proof.
  intros Hr. unfold pushRec.
  destruct (decide (sigOf r ∈ st.2)); [apply Grows_refl|].
  exists [r]. cbn [fst snd]. split; [done|]. split; [set_solver|].
  split; [apply NoDup_singleton|].
  intros r' ->%list_elem_of_singleton. done.
Qed.

Lemma pushRec_seen st r :
  sigOf r ∈ (pushRec mode (entries openIdx) st r).2.
Proof.
  unfold pushRec. destruct (decide (sigOf r ∈ st.2)); [done|].
  cbn. set_solver.
Qed.

Lemma fold_left_grows {B : Type} (f : MatchState -> B -> MatchState)
    (l : list B) : forall st,
  (forall st x, x ∈ l -> Grows mode openIdx st (f st x)) ->
  Grows mode openIdx st (fold_left f l st).
Proof.
  induction l as [|x l IH]; intros st Hf; [apply Grows_refl|].
  cbn. eapply Grows_trans; [apply Hf; by left|].
  apply IH. intros st' y Hy. apply Hf. by right.
Qed.

(** Once a step of a loop has put a signature into [seen], it is there at
    the end of the loop. *)
Lemma fold_left_reaches {B : Type} (f : MatchState -> B -> MatchState)
    (l : list B) (x : B) (s : string) : forall st,
  (forall st y, st.2 ⊆ (f st y).2) ->
  (forall st, s ∈ (f st x).2) ->
  x ∈ l -> s ∈ (fold_left f l st).2.
Proof.
  intros st Hmono Hx Hin.
  assert (Hkeep : forall l' st', s ∈ st'.2 -> s ∈ (fold_left f l' st').2).
  { induction l' as [|y l' IH]; intros st' Hs; [done|].
    cbn. apply IH. by apply Hmono. }
  revert st. induction l as [|y l IH]; intros st;
    [by apply elem_of_nil in Hin|].
  apply elem_of_cons in Hin as [<-|Hin]; cbn.
  - apply Hkeep, Hx.
  - by apply IH.
Qed.

Lemma pushRecs_grows arr st :
  (forall r, In r arr -> storedIn (ndcByLength openIdx) r) ->
  Grows mode openIdx st (pushRecs mode (entries openIdx) arr st).
Proof.
  intros Harr. unfold pushRecs. apply fold_left_grows.
  intros st' r Hr%list_elem_of_In. by apply pushRec_grows, Harr.
Qed.

Lemma pushRec_mono st r : st.2 ⊆ (pushRec mode (entries openIdx) st r).2.
Proof.
  unfold pushRec. destruct (decide (sigOf r ∈ st.2)); [done|].
  cbn. set_solver.
Qed.

Lemma pushRecs_mono arr : forall st,
  st.2 ⊆ (pushRecs mode (entries openIdx) arr st).2.
Proof.
  unfold pushRecs. induction arr as [|r arr IH]; intros st; [done|].
  cbn. etrans; [apply (pushRec_mono st r)|apply IH].
Qed.

Lemma pushRecs_seen arr st r :
  In r arr -> sigOf r ∈ (pushRecs mode (entries openIdx) arr st).2.
Proof.
  intros Hr%list_elem_of_In. unfold pushRecs.
  apply (fold_left_reaches _ arr r); [apply pushRec_mono| |done].
  intros st'. apply pushRec_seen.
Qed.

End GrowsFacts.

Lemma bucketOf_stored m L key arr r :
  In (key, arr) (bucketOf m L) -> In r arr -> storedIn m r.
Proof.
  unfold bucketOf. destruct (JsMap.get Nat.eqb L m) as [b|] eqn:E; [|done].
  cbn. intros Hk Hr. apply (get_In _ nat_eqb_eq) in E.
  by exists L, b, key, arr.
Qed.

Section PhaseGrows.
Variable openIdx : OpenIdx.
Variable medDigits : string.

Lemma forwardAt_grows L st i :
  Grows forward openIdx st
    match JsMap.get String.eqb (Str.slice i L medDigits)
            (bucketOf (ndcByLength openIdx) L) with
    | Some arr => pushRecs forward (entries openIdx) arr st
    | None => st
    end.
Proof.
  destruct (JsMap.get _ _ _) as [arr|] eqn:E; [|apply Grows_refl].
  apply pushRecs_grows. intros r Hr.
  apply (get_In _ string_eqb_eq) in E. by eapply bucketOf_stored.
Qed.

Lemma forwardStep_grows st L :
  Grows forward openIdx st (forwardStep openIdx medDigits st L).
Proof.
  unfold forwardStep. apply fold_left_grows.
  intros st' i _. apply forwardAt_grows.
Qed.

Lemma forwardPhase_grows st :
  Grows forward openIdx st (forwardPhase openIdx medDigits st).
Proof.
  unfold forwardPhase. apply fold_left_grows.
  intros st' L _. apply forwardStep_grows.
Qed.

Lemma reverseStep_grows st L :
  Grows reverse openIdx st (reverseStep openIdx medDigits st L).
Proof.
  unfold reverseStep. apply fold_left_grows.
  intros st' [key arr] Hka%list_elem_of_In. cbn [fst snd].
  destruct (Str.includes key medDigits); [|apply Grows_refl].
  apply pushRecs_grows. intros r Hr. by eapply bucketOf_stored.
Qed.

Lemma reversePhase_grows st :
  Grows reverse openIdx st (reversePhase openIdx medDigits st).
Proof.
  unfold reversePhase. apply fold_left_grows.
  intros st' L _. apply reverseStep_grows.
Qed.

Lemma forwardStep_mono st L :
  st.2 ⊆ (forwardStep openIdx medDigits st L).2.
Proof. apply (Grows_seen forward openIdx), forwardStep_grows. Qed.

(** The forward phase sees every record stored under a substring of the
    identifier. *)
Lemma forwardPhase_sees st L i arr r :
  In L (JsMap.keys (ndcByLength openIdx)) ->
  L <= String.length medDigits ->
  i <= String.length medDigits - L ->
  JsMap.get String.eqb (Str.slice i L medDigits)
    (bucketOf (ndcByLength openIdx) L) = Some arr ->
  In r arr ->
  sigOf r ∈ (forwardPhase openIdx medDigits st).2.
Proof.
  intros HL Hle Hi Hget Hr. unfold forwardPhase.
  apply (fold_left_reaches _ _ L); [apply forwardStep_mono| |].
  - intros st'. unfold forwardStep.
    apply (fold_left_reaches _ _ i).
    + intros st'' j. apply (Grows_seen forward openIdx), forwardAt_grows.
    + intros st''. rewrite Hget. by apply pushRecs_seen.
    + apply elem_of_seq. lia.
  - apply list_elem_of_In, filter_In. split.
    + apply list_elem_of_In. unfold lengthsAsc.
      rewrite merge_sort_Permutation. by apply list_elem_of_In.
    + by apply Nat.leb_le.
Qed.

End PhaseGrows.

(** The result of the matcher, with the records it was pushed for. *)
Lemma collect_pushed medNdcOriginal openIdx :
  exists mode rs,
    collectOpenFdaNdcMatches medNdcOriginal openIdx
      = matchOf mode (entries openIdx) <$> rs
    /\ NoDup (sigOf <$> rs)
    /\ forall r, r ∈ rs -> storedIn (ndcByLength openIdx) r.
Proof.
  unfold collectOpenFdaNdcMatches.
  set (medDigits := normalizeMedNdc medNdcOriginal).
  destruct (Str.truthy medDigits); cbn [negb].
  2:{ exists forward, []. split; [done|]. split; [apply NoDup_nil_2|].
      by intros r ?%elem_of_nil. }
  pose proof (forwardPhase_grows openIdx medDigits ([], ∅))
    as (rs & H1 & H2 & H3 & H4).
  destruct (forwardPhase openIdx medDigits ([], ∅)) as [ms seen] eqn:Ef.
  cbn [fst snd app] in *.
  destruct (0 <? length ms) eqn:El.
  - exists forward, rs. split; [done|]. split; [done|].
    intros r Hr. by apply H4.
  - destruct ms; [|done].
    assert (rs = []) as -> by (by destruct rs).
    assert (seen = ∅) as -> by (rewrite H2; set_solver).
    pose proof (reversePhase_grows openIdx medDigits ([], ∅))
      as (rs' & H1' & H2' & H3' & H4').
    exists reverse, rs'. split; [done|]. split; [done|].
    intros r Hr. by apply H4'.
Qed.

Lemma NoDup_fmap_sig rs : NoDup (sigOf <$> rs) -> NoDup rs.
Proof. apply NoDup_fmap_1. Qed.

(** X9: the matches the resolver returns are the matches of pairwise
    different records of the index, in the order they were met, all pushed
    in one direction: no (product, variant, hypothesis) triple gives two
    matches, and every match comes from a record the index holds. *)
Theorem matches_come_from_distinct_stored_records
    (medNdcOriginal : string) (items : list Item.t) :
  exists mode rs,
    collectOpenFdaNdcMatches medNdcOriginal (buildOpenFdaIndexes items)
      = matchOf mode (entries (buildOpenFdaIndexes items)) <$> rs
    /\ NoDup rs
    /\ forall r, r ∈ rs ->
         storedIn (ndcByLength (buildOpenFdaIndexes items)) r
         /\ variantOfItem items r.
Proof.
  destruct (collect_pushed medNdcOriginal (buildOpenFdaIndexes items))
    as (mode & rs & H1 & H2 & H3).
  exists mode, rs. split; [done|]. split; [by apply NoDup_fmap_sig|].
  intros r Hr. split; [by apply H3|].
  destruct (H3 r Hr) as (L & b & key & arr & HL & Hk & Hr').
  assert (Hst : Stored (variantOfItem items)
                  (ndcByLength (buildOpenFdaIndexes items))).
  { unfold buildOpenFdaIndexes. cbn [ndcByLength].
    rewrite indexEntries_spec. apply Stored_insertRecs; [|apply Stored_nil].
    apply Forall_forall. intros r' Hr''.
    apply emitted_variantOfItem. exact Hr''. }
  destruct (Hst L b key arr HL Hk) as [_ H]. by destruct (H r Hr').
Qed.

Lemma classic_keys (L : nat) (m : LenMap) :
  In L (JsMap.keys m) \/ ~ In L (JsMap.keys m).
Proof.
  destruct (decide (L ∈ JsMap.keys m)) as [H|H].
  - left. by apply list_elem_of_In.
  - right. by rewrite <- list_elem_of_In.
Qed.

Lemma bucketOf_get_key (m : LenMap) L s arr :
  JsMap.get String.eqb s (bucketOf m L) = Some arr -> In L (JsMap.keys m).
Proof.
  unfold bucketOf. destruct (JsMap.get Nat.eqb L m) as [b|] eqn:E; [|done].
  intros _. destruct (classic_keys L m) as [H|H]; [done|].
  apply (get_None_keys _ nat_eqb_eq) in H. congruence.
Qed.

(** The forward phase is complete: a record stored under a substring of the
    identifier gives a forward match. *)
Lemma forward_finds openIdx medNdcOriginal r i arr :
  JsMap.get String.eqb
    (Str.slice i (String.length (variant r)) (normalizeMedNdc medNdcOriginal))
    (bucketOf (ndcByLength openIdx) (String.length (variant r))) = Some arr ->
  In r arr ->
  0 < String.length (variant r) ->
  i + String.length (variant r)
    <= String.length (normalizeMedNdc medNdcOriginal) ->
  In (matchOf forward (entries openIdx) r)
     (collectOpenFdaNdcMatches medNdcOriginal openIdx).
Proof.
  set (medDigits := normalizeMedNdc medNdcOriginal).
  set (L := String.length (variant r)).
  intros Hget Hr HL Hi.
  assert (Hseen : sigOf r ∈ (forwardPhase openIdx medDigits ([], ∅)).2).
  { apply (forwardPhase_sees openIdx medDigits _ L i arr); try done; try lia.
    by apply (bucketOf_get_key _ _ _ _ Hget). }
  pose proof (forwardPhase_grows openIdx medDigits ([], ∅))
    as (rs & H1 & H2 & _ & _).
  unfold collectOpenFdaNdcMatches. fold medDigits.
  assert (Str.truthy medDigits = true) as ->
    by (destruct medDigits; [cbn in Hi; lia|done]).
  cbn [negb].
  destruct (forwardPhase openIdx medDigits ([], ∅)) as [ms seen].
  cbn [fst snd app] in *. subst ms seen.
  assert (Hin : r ∈ rs).
  { rewrite elem_of_union, elem_of_list_to_set in Hseen.
    destruct Hseen as [(r' & Heq & Hr')%list_elem_of_fmap|?%elem_of_empty];
      [|done].
    by apply sigOf_inj in Heq as ->. }
  assert (Hm : In (matchOf forward (entries openIdx) r)
                 (matchOf forward (entries openIdx) <$> rs)).
  { apply list_elem_of_In. by apply list_elem_of_fmap_2. }
  destruct (matchOf forward (entries openIdx) <$> rs); [done|]. done.
Qed.

Lemma chain_nonempty v c : Str.truthy v = true -> c ∈ chain v ->
  0 < String.length c.
Proof.
  intros Hv [->|H]%chain_floor; [|lia]. destruct v; [done|cbn; lia].
Qed.

Lemma variantOfItem_nonempty items r :
  variantOfItem items r -> 0 < String.length (variant r).
Proof.
  intros (item & _ & [H|H]); unfold formChain in H;
    destruct (Str.truthy _) eqn:E; try (by apply elem_of_nil in H);
    by eapply chain_nonempty.
Qed.

Lemma Stored_variantOfItem items :
  Stored (variantOfItem items) (ndcByLength (buildOpenFdaIndexes items)).
Proof.
  unfold buildOpenFdaIndexes. cbn [ndcByLength].
  rewrite indexEntries_spec. apply Stored_insertRecs; [|apply Stored_nil].
  apply Forall_forall. intros r Hr. apply emitted_variantOfItem. exact Hr.
Qed.

(** X10: the forward phase misses nothing: every record of the index whose
    variant occurs in the normalised identifier, at any position, gives a
    forward match in the result. *)
Theorem forward_phase_finds_every_contained_variant
    (medNdcOriginal : string) (items : list Item.t) (r : IdxRec) (i : nat) :
  storedIn (ndcByLength (buildOpenFdaIndexes items)) r ->
  i + String.length (variant r)
    <= String.length (normalizeMedNdc medNdcOriginal) ->
  variant r = Str.slice i (String.length (variant r))
                (normalizeMedNdc medNdcOriginal) ->
  In (matchOf forward (entries (buildOpenFdaIndexes items)) r)
     (collectOpenFdaNdcMatches medNdcOriginal (buildOpenFdaIndexes items)).
Proof.
  intros (L & b & key & arr & HL & Hk & Hr) Hi Hsub.
  destruct (Stored_variantOfItem items L b key arr HL Hk) as [Hlen Hrec].
  destruct (Hrec r Hr) as [Hv Hitem].
  destruct (KeysOnce_build items) as [Hkeys Hb].
  assert (HgetL : JsMap.get Nat.eqb L (ndcByLength (buildOpenFdaIndexes items))
                  = Some b) by (by apply (In_get _ nat_eqb_eq)).
  assert (Hget : JsMap.get String.eqb key b = Some arr)
    by (apply (In_get _ string_eqb_eq); [by apply (Hb L)|done]).
  assert (HLv : L = String.length (variant r)) by (by rewrite Hv).
  apply (forward_finds _ _ r i arr); [|done| |done].
  - rewrite <- Hsub, <- HLv. unfold bucketOf. rewrite HgetL, Hv.
    exact Hget.
  - by apply (variantOfItem_nonempty items).
Qed.

Lemma forward_phase_finds_every_contained_variant_witness :
  storedIn (ndcByLength (buildOpenFdaIndexes exItems)) (recOf 0 digits "12345")
  /\ 2 + String.length (variant (recOf 0 digits "12345"))
     <= String.length (normalizeMedNdc "9912345")
  /\ variant (recOf 0 digits "12345")
     = Str.slice 2 (String.length (variant (recOf 0 digits "12345")))
         (normalizeMedNdc "9912345")
  /\ In (matchOf forward (entries (buildOpenFdaIndexes exItems))
           (recOf 0 digits "12345"))
        (collectOpenFdaNdcMatches "9912345" (buildOpenFdaIndexes exItems)).
Proof.
  assert (H1 : storedIn (ndcByLength (buildOpenFdaIndexes exItems))
                 (recOf 0 digits "12345")).
  { exists 5, [("12345", [recOf 0 digits "12345"])], "12345",
      [recOf 0 digits "12345"].
    split; [vm_compute; left; reflexivity|]. split; by left. }
  assert (H2 : 2 + String.length (variant (recOf 0 digits "12345"))
               <= String.length (normalizeMedNdc "9912345"))
    by (vm_compute; lia).
  assert (H3 : variant (recOf 0 digits "12345")
               = Str.slice 2 (String.length (variant (recOf 0 digits "12345")))
                   (normalizeMedNdc "9912345")) by reflexivity.
  split; [exact H1|]. split; [exact H2|]. split; [exact H3|].
  exact (forward_phase_finds_every_contained_variant
           "9912345" exItems (recOf 0 digits "12345") 2 H1 H2 H3).
Defined.

Lemma openFdaDigits_filter s :
  openFdaDigitsKeepZeros s = Str.strip_non_digits s.
Proof.
  unfold openFdaDigitsKeepZeros, Str.strip_non_digits.
  destruct s as [|c s]; [done|]. cbn [Str.truthy].
  apply filter_replace_hyphen_empty.
Qed.

Lemma substring_whole s : String.substring 0 (String.length s) s = s.
Proof. induction s as [|c s IH]; [done|]. cbn. by rewrite IH. Qed.

Lemma entryRecords_emitted es k e r :
  es !! k = Some e -> r ∈ entryRecords k e -> r ∈ emitted 0 es.
Proof.
  intros He Hr. pose proof (filter_idx_emitted es 0 k e He) as H.
  change (0 + k) with k in H. rewrite <- H in Hr.
  by apply list_elem_of_filter in Hr as [_ ?].
Qed.

Lemma chain_self v : v ∈ chain v.
Proof. destruct v; cbn [chain]; by left. Qed.

(** X11: looking up a product's own code finds the product: when the code
    of the item at position [k] has a digit, the matches of that code
    include a forward match, on the digits-only form, that carries the
    code and the brand of that item. *)
Theorem own_code_finds_the_product
    (items : list Item.t) (k : nat) (item : Item.t) :
  items !! k = Some item ->
  Str.truthy (Entry.ndcDigits (toEntry item)) = true ->
  exists m,
    In m (collectOpenFdaNdcMatches (Entry.productNdc (toEntry item))
            (buildOpenFdaIndexes items))
    /\ Match.productNdc m = Entry.productNdc (toEntry item)
    /\ Match.brandName m = Entry.brandName (toEntry item)
    /\ Match.normalizedProductNdc m = Entry.ndcDigits (toEntry item)
    /\ Match.matchedVariantType m = digits
    /\ Match.matchMode m = forward.
Proof.
  intros Hk Hd.
  set (e := toEntry item). set (d := Entry.ndcDigits e).
  set (code := Entry.productNdc e).
  assert (Hdd : d = openFdaDigitsKeepZeros code) by done.
  assert (Hnorm : normalizeMedNdc code = d)
    by (by rewrite Hdd, normalizeMedNdc_filter, openFdaDigits_filter).
  assert (Hdig : Str.all Char.is_digit d = true)
    by (rewrite Hdd, openFdaDigits_filter; apply filter_all_str).
  set (r := recOf k digits d).
  assert (Hes : (toEntry <$> items) !! k = Some e)
    by (by rewrite list_lookup_fmap, Hk).
  assert (Hr : r ∈ lookup2 (ndcByLength (buildOpenFdaIndexes items))
                 (String.length d) d).
  { rewrite lookup2_build. apply list_elem_of_filter. split; [done|].
    apply (entryRecords_emitted _ k e); [done|].
    unfold entryRecords. apply elem_of_app. left.
    apply list_elem_of_fmap_2. fold d. rewrite (trim_digits d Hdig).
    unfold formChain. change (Str.truthy d = true) in Hd. rewrite Hd.
    apply chain_self. }
  unfold lookup2 in Hr.
  destruct (JsMap.get String.eqb d
              (bucketOf (ndcByLength (buildOpenFdaIndexes items))
                 (String.length d))) as [arr|] eqn:Eget;
    [|by apply elem_of_nil in Hr].
  cbn in Hr. apply list_elem_of_In in Hr.
  exists (matchOf forward (entries (buildOpenFdaIndexes items)) r).
  split.
  - apply (forward_finds _ code r 0 arr); cbn [variant r recOf].
    + rewrite Hnorm. unfold Str.slice. by rewrite substring_whole.
    + done.
    + change (Str.truthy d = true) in Hd. clear -Hd.
      destruct (Entry.ndcDigits e); [done|cbn; lia].
    + rewrite Hnorm. lia.
  - unfold matchOf, entryAt, buildOpenFdaIndexes. cbn [entries idx r recOf].
    rewrite lookup_map, Hk. done.
Qed.

Lemma own_code_finds_the_product_witness :
  exItems !! 1 = Some (item_of "1234567" "Zzz")
  /\ Str.truthy (Entry.ndcDigits (toEntry (item_of "1234567" "Zzz"))) = true
  /\ exists m,
       In m (collectOpenFdaNdcMatches
               (Entry.productNdc (toEntry (item_of "1234567" "Zzz")))
               (buildOpenFdaIndexes exItems))
       /\ Match.productNdc m
          = Entry.productNdc (toEntry (item_of "1234567" "Zzz"))
       /\ Match.brandName m
          = Entry.brandName (toEntry (item_of "1234567" "Zzz"))
       /\ Match.normalizedProductNdc m
          = Entry.ndcDigits (toEntry (item_of "1234567" "Zzz"))
       /\ Match.matchedVariantType m = digits
       /\ Match.matchMode m = forward.
Proof.
  split; [reflexivity|]. split; [reflexivity|].
  exact (own_code_finds_the_product exItems 1 (item_of "1234567" "Zzz")
           eq_refl eq_refl).
Defined.

Lemma collect_empty_index medNdcOriginal :
  collectOpenFdaNdcMatches medNdcOriginal (buildOpenFdaIndexes []) = [].
Proof.
  unfold collectOpenFdaNdcMatches.
  by destruct (Str.truthy (normalizeMedNdc medNdcOriginal)).
Qed.

(** X12: the two degenerate inputs give unmatched records and no failure:
    with no reference item every row is written without matches, and with
    any reference set a row whose identifier has no digit is written
    without matches. *)
Theorem no_reference_or_no_digit_gives_unmatched
    (items : list Item.t) (uniqueMed : list Med.t) :
  enrichAll uniqueMed (buildOpenFdaIndexes [])
    = List.map withoutMatches uniqueMed
  /\ forall med,
       Str.truthy (normalizeMedNdc (Med.ndc med)) = false ->
       enrichOne (buildOpenFdaIndexes items) med = withoutMatches med.
Proof.
  split.
  - unfold enrichAll. apply map_ext. intros med. unfold enrichOne.
    by rewrite collect_empty_index.
  - intros med Hnd. unfold enrichOne, collectOpenFdaNdcMatches.
    by rewrite Hnd.
Qed.

(** ** Filter and selection *)

Lemma shares_brandOverlaps description m :
  SharesToken description m ->
  brandOverlaps (list_to_set (tokenizeWords description)) m = true.
Proof.
  intros (Hb & t & Ht & Hd & _). unfold brandOverlaps.
  destruct (normalizeWhitespaceLower (Match.brandName m)) as [|c s] eqn:E;
    [done|].
  cbn [String.length Nat.ltb Nat.leb negb].
  apply existsb_exists. exists t. split; [done|].
  apply bool_decide_eq_true, elem_of_list_to_set. by apply list_elem_of_In.
Qed.

(** X13: the semantic filter keeps exactly the candidates whose brand name
    is not blank and shares a token with the description, each as often as
    it occurs among the candidates and in their order: its result is the
    list of candidates filtered by that condition. *)
Theorem semantic_filter_keeps_exactly_the_overlapping
    (description : string) (matches : list Match.t) :
  semanticFilter description matches
  = filter (SharesToken description) matches.
Proof.
  unfold semanticFilter.
  induction matches as [|c l IH]; [done|].
  cbn [List.filter]. rewrite filter_cons.
  destruct (brandOverlaps _ c) eqn:E.
  - rewrite decide_True by (by apply brandOverlaps_shares).
    by rewrite IH.
  - rewrite decide_False; [done|].
    intros H%shares_brandOverlaps. congruence.
Qed.

Lemma markBest_idem m : markBest (markBest m) = markBest m.
Proof. done. Qed.

Lemma variantLength_markBest m : variantLength (markBest m) = variantLength m.
Proof. done. Qed.

Lemma max_list_const {A : Type} (f : A -> nat) (l : list A) (c : nat) :
  l <> [] -> (forall x, In x l -> f x = c) ->
  max_list (List.map f l) = c.
Proof.
  intros Hne Hall.
  destruct (max_list_map_attained f l Hne) as (x & Hx & <-). by apply Hall.
Qed.

Lemma filter_true_all {A : Type} (p : A -> bool) (l : list A) :
  (forall x, In x l -> p x = true) -> List.filter p l = l.
Proof.
  induction l as [|x l IH]; intros H; [done|]. cbn.
  rewrite (H x) by (by left). f_equal. apply IH. intros y Hy. apply H.
  by right.
Qed.

Lemma filter_sublist {A : Type} (p : A -> bool) (l : list A) :
  sublist (List.filter p l) l.
Proof.
  induction l as [|x l IH]; [constructor|]. cbn.
  destruct (p x); [by constructor|by apply sublist_cons].
Qed.

(** X14: best-match selection keeps the candidates in their order, each
    marked [bestMatch], and selecting again changes nothing. *)
Theorem keepBest_is_stable_and_idempotent (matches : list Match.t) :
  keepBest (keepBest matches) = keepBest matches
  /\ (exists kept,
        sublist kept matches /\ keepBest matches = List.map markBest kept)
  /\ (matches <> [] -> forall m, In m (keepBest matches) ->
        Match.bestMatch m = Some true).
Proof.
  destruct matches as [|c l].
  { split; [done|]. split; [|done]. exists []. split; [constructor|done]. }
  set (l0 := c :: l). assert (Hne : l0 <> []) by done.
  set (mx := max_list (List.map variantLength l0)).
  set (kept := List.filter (fun m => variantLength m =? mx) l0).
  assert (Hk : keepBest l0 = List.map markBest kept)
    by (by apply keepBest_spec).
  split; [|split].
  - assert (Hne' : keepBest l0 <> []) by (by apply keepBest_nonempty).
    rewrite (keepBest_spec (keepBest l0)) by done.
    assert (Hall : forall x, In x (keepBest l0) -> variantLength x = mx).
    { rewrite Hk. intros x (y & <- & [_ Hy]%filter_In)%in_map_iff.
      rewrite variantLength_markBest. by apply Nat.eqb_eq. }
    rewrite (max_list_const variantLength (keepBest l0) mx Hne' Hall).
    rewrite filter_true_all
      by (intros x Hx; apply Nat.eqb_eq; by apply Hall).
    rewrite Hk, List.map_map. apply map_ext. intros m. apply markBest_idem.
  - exists kept. split; [apply filter_sublist|done].
  - intros _ m. rewrite Hk. by intros (y & <- & _)%in_map_iff.
Qed.

(** X15: a record has a match list exactly when some candidate of the row
    survives the semantic filter, and a record with a match list is the
    row itself, every pricing field kept, with that list added. *)
Theorem matched_row_keeps_every_field
    (items : list Item.t) (med : Med.t) :
  (is_Some (Enriched.fdaMatches (enrichOne (buildOpenFdaIndexes items) med))
   <-> survivors (buildOpenFdaIndexes items) med <> [])
  /\ forall ms,
       Enriched.fdaMatches (enrichOne (buildOpenFdaIndexes items) med)
         = Some ms ->
       enrichOne (buildOpenFdaIndexes items) med = withMatches med ms
       /\ ms = keepBest (survivors (buildOpenFdaIndexes items) med).
Proof.
  destruct (enrichOne_cases (buildOpenFdaIndexes items) med)
    as [[Hs ->]|(Hne & Hk & ->)]; cbn [Enriched.fdaMatches withoutMatches
                                        withMatches].
  - split; [|done]. split; [by intros [? ?]|done].
  - split; [split; [done|by eexists]|].
    intros ms [= <-]. done.
Qed.

(** ** The flat outputs *)

(** X16: the search index lists the non-empty descriptions of the records,
    each once, in increasing order of their code units. *)
Theorem search_index_sorted_distinct_complete (enriched : list Enriched.t) :
  StronglySorted String.le (searchDescriptions enriched)
  /\ NoDup (searchDescriptions enriched)
  /\ forall d,
       d ∈ searchDescriptions enriched
       <-> Str.truthy d = true
           /\ exists r, In r enriched /\ Enriched.ndc_description r = d.
Proof.
  unfold searchDescriptions. split; [|split].
  - apply (StronglySorted_merge_sort String.le).
  - rewrite merge_sort_Permutation. apply NoDup_remove_dups.
  - intros d. rewrite merge_sort_Permutation, elem_of_remove_dups.
    rewrite list_elem_of_In, filter_In, in_map_iff. naive_solver.
Qed.

Lemma descClass_fold enriched : forall (m : gmap string string) d,
  fold_left descClassStep enriched m !! d
  = match m !! d with
    | Some c => Some c
    | None =>
        if Str.truthy d && bool_decide (d ∉ inheritedNames)
        then firstClass d enriched else None
    end.
Proof.
  induction enriched as [|r l IH]; intros m d; cbn [fold_left firstClass].
  - destruct (m !! d); [done|]. by destruct (_ && _).
  - rewrite IH. unfold descClassStep.
    set (dr := Enriched.ndc_description r).
    set (c := default "" (Enriched.classification_for_rate_setting r)).
    destruct (decide (dr = d)) as [Heq|Hne].
    + subst d. rewrite String.eqb_refl. cbn [andb].
      destruct (m !! dr) as [c0|] eqn:Em.
      * rewrite bool_decide_eq_false_2 by congruence.
        rewrite !andb_false_r, andb_false_l. by rewrite Em.
      * rewrite bool_decide_eq_true_2 by done. rewrite andb_true_r.
        destruct (Str.truthy dr) eqn:Ed; cbn [andb]; [|by rewrite Em].
        destruct (Str.truthy c) eqn:Ec; cbn [andb].
        -- destruct (bool_decide (dr ∉ inheritedNames)) eqn:Ei.
           ++ by rewrite lookup_insert_eq.
           ++ rewrite Em. done.
        -- rewrite Em. done.
    + assert (String.eqb dr d = false) as -> by (by apply String.eqb_neq).
      cbn [andb].
      destruct (_ && _ && _ && _); [|done].
      by rewrite lookup_insert_ne.
Qed.

(** X17: the classification map keeps, for a description, the
    classification of the first record that has that description and a
    classification; it has no entry for the empty description nor for a
    description named like a property every object inherits; and every
    entry comes from a record. *)
Theorem classification_map_first_seen_wins (enriched : list Enriched.t) :
  (forall d,
     buildDescClassMap enriched !! d
     = if Str.truthy d && bool_decide (d ∉ inheritedNames)
       then firstClass d enriched else None)
  /\ (forall d c,
        buildDescClassMap enriched !! d = Some c ->
        Str.truthy c = true
        /\ exists r, In r enriched
                     /\ Enriched.ndc_description r = d
                     /\ Enriched.classification_for_rate_setting r = Some c).
Proof.
  assert (H : forall d,
     buildDescClassMap enriched !! d
     = if Str.truthy d && bool_decide (d ∉ inheritedNames)
       then firstClass d enriched else None).
  { intros d. unfold buildDescClassMap.
    by rewrite descClass_fold, lookup_empty. }
  split; [exact H|].
  intros d c. rewrite H. destruct (_ && _); [|done]. clear H.
  induction enriched as [|r l IH]; cbn [firstClass]; [done|].
  destruct (String.eqb (Enriched.ndc_description r) d) eqn:Ed; cbn [andb].
  - destruct (Enriched.classification_for_rate_setting r) as [c0|] eqn:Ec;
      cbn [default from_option]; unfold id.
    + destruct (Str.truthy c0) eqn:Et.
      * intros [= <-]. split; [done|]. exists r.
        apply String.eqb_eq in Ed. split; [by left|done].
      * intros Hf. destruct (IH Hf) as (? & r' & ? & ?).
        split; [done|]. exists r'. split; [by right|done].
    + cbn [Str.truthy]. intros Hf. destruct (IH Hf) as (? & r' & ? & ?).
      split; [done|]. exists r'. split; [by right|done].
  - intros Hf. destruct (IH Hf) as (? & r' & ? & ?).
    split; [done|]. exists r'. split; [by right|done].
Qed.

(** ** Chunks and reruns *)

Lemma countsFrom_length fuel : forall n,
  n <= fuel ->
  length (countsFrom fuel n) = (n + (CHUNK_SIZE - 1)) / CHUNK_SIZE.
Proof.
  induction fuel as [|fuel IH]; intros n Hn; cbn [countsFrom].
  - assert (n = 0) as -> by lia. reflexivity.
  - destruct (0 <? n) eqn:E.
    + apply Nat.ltb_lt in E. cbn [length].
      rewrite IH by (unfold CHUNK_SIZE; lia).
      unfold CHUNK_SIZE. destruct (le_lt_dec 4000 n) as [Hge|Hlt].
      * replace (n + (4000 - 1)) with ((n - 4000 + (4000 - 1)) + 1 * 4000)
          by lia.
        rewrite Nat.div_add by lia. lia.
      * replace (n - 4000) with 0 by lia.
        assert ((n + (4000 - 1)) / 4000 = 1) as ->.
        { symmetry. apply (Nat.div_unique _ _ _ (n - 1)); lia. }
        reflexivity.
    + apply Nat.ltb_ge in E. assert (n = 0) as -> by lia. reflexivity.
Qed.

Lemma slicesOf_length enriched :
  length (slicesOf enriched)
  = (length enriched + (CHUNK_SIZE - 1)) / CHUNK_SIZE.
Proof.
  unfold slicesOf. rewrite <- (length_fmap length), slicesFrom_counts.
  rewrite Nat.sub_0_r. by apply countsFrom_length.
Qed.

Lemma metasOf_filenames slices : forall k,
  filename <$> metasOf k slices = chunkName <$> seq (k + 1) (length slices).
Proof.
  induction slices as [|sl r IH]; intros k; [done|].
  cbn [metasOf length seq fmap list_fmap filename].
  rewrite IH. do 3 f_equal; lia.
Qed.

(** X18: in a run that ends with status 0 the manifest lists as many chunks
    as 4000-record slices are needed for the rows, rounded up - none for
    no row - and names them [enriched-chunk-1.json],
    [enriched-chunk-2.json], ... in order. *)
Theorem chunks_are_numbered_from_one_and_rounded_up
    (writable : string -> bool) (items : list Item.t)
    (uniqueMed : list Med.t) (fs : gmap string Artifact) :
  exitStatus (main writable items uniqueMed fs) = 0 ->
  exists manifest,
    filesOf (main writable items uniqueMed fs) !! MANIFEST_PATH
      = Some (ManifestJson manifest)
    /\ numberOfChunks manifest = (length uniqueMed + 3999) / 4000
    /\ filename <$> chunks manifest
       = chunkName <$> seq 1 (numberOfChunks manifest)
    /\ (uniqueMed = [] -> chunks manifest = []).
Proof.
  intros Hok. rewrite (main_success _ _ _ _ Hok).
  set (enriched := enrichAll uniqueMed (buildOpenFdaIndexes items)).
  exists (manifestOf enriched).
  split; [apply lookup_allWritten_manifest|].
  cbn [numberOfChunks chunks manifestOf].
  rewrite metasOf_length, metasOf_filenames.
  split; [|split; [done|]].
  - rewrite slicesOf_length. unfold enriched.
    by rewrite length_enrichAll.
  - intros ->. reflexivity.
Qed.

Lemma chunks_are_numbered_from_one_and_rounded_up_witness :
  exitStatus (main allWritable exItems [exMed; exUnmatched] ∅) = 0
  /\ exists manifest,
       filesOf (main allWritable exItems [exMed; exUnmatched] ∅)
         !! MANIFEST_PATH = Some (ManifestJson manifest)
       /\ numberOfChunks manifest
          = (length [exMed; exUnmatched] + 3999) / 4000
       /\ filename <$> chunks manifest
          = chunkName <$> seq 1 (numberOfChunks manifest)
       /\ ([exMed; exUnmatched] = [] -> chunks manifest = []).
Proof.
  assert (H : exitStatus (main allWritable exItems [exMed; exUnmatched] ∅) = 0)
    by (vm_compute; reflexivity).
  split; [exact H|].
  exact (chunks_are_numbered_from_one_and_rounded_up
           allWritable exItems [exMed; exUnmatched] ∅ H).
Defined.

Lemma lookup_resetFiles_inside fs p :
  String.prefix chunksPrefix p = true -> resetFiles fs !! p = None.
Proof.
  intros Hp. unfold resetFiles. apply map_lookup_filter_None. right.
  intros a _. cbn. congruence.
Qed.

Lemma writeSlices_lookup_notin slices : forall k fs p,
  (forall j, j < length slices -> p <> chunkPath (k + j + 1)) ->
  writeSlices k slices fs !! p = fs !! p.
Proof.
  induction slices as [|sl r IH]; intros k fs p Hp; cbn [writeSlices];
    [done|].
  rewrite IH.
  - rewrite lookup_insert_ne; [done|].
    intros Heq. apply (Hp 0); [cbn; lia|]. by rewrite Nat.add_0_r.
  - intros j Hj. replace (S k + j + 1) with (k + S j + 1) by lia.
    apply Hp. cbn. lia.
Qed.

(** The chunk directory after a run in which every write succeeded. *)
Lemma lookup_allWritten_inside enriched fs p :
  String.prefix chunksPrefix p = true ->
  is_Some (allWritten enriched fs !! p)
  <-> p = MANIFEST_PATH
      \/ exists k, 1 <= k <= length (slicesOf enriched) /\ p = chunkPath k.
Proof.
  intros Hp. unfold allWritten.
  rewrite lookup_insert_ne
    by (intros <-; rewrite desc_outside in Hp; done).
  destruct (decide (p = MANIFEST_PATH)) as [->|Hm].
  { rewrite lookup_insert_eq. split; [by left|by eexists]. }
  rewrite lookup_insert_ne by done.
  destruct (decide (p ∈ chunkPath <$> seq 1 (length (slicesOf enriched))))
    as [Hin|Hnin].
  - apply list_elem_of_fmap in Hin as (k & -> & Hk%elem_of_seq).
    rewrite writeSlices_lookup_chunk, decide_True by lia.
    destruct (lookup_lt_is_Some_2 (slicesOf enriched) (k - 0 - 1))
      as [sl Hsl]; [lia|].
    rewrite Hsl. split; [|by eexists].
    intros _. right. exists k. split; [lia|done].
  - rewrite writeSlices_lookup_notin.
    + rewrite lookup_resetFiles_inside by done. split; [by intros [? ?]|].
      intros [?|(k & Hk & ->)]; [done|]. destruct Hnin.
      apply list_elem_of_fmap_2, elem_of_seq. lia.
    + intros j Hj ->. apply Hnin.
      apply list_elem_of_fmap_2, elem_of_seq. lia.
Qed.

(** X19: a run that ends with status 0 leaves in the chunk directory the
    manifest and the chunk files the manifest lists, and nothing else: the
    chunk files of an earlier, larger run are gone. *)
Theorem chunk_directory_holds_only_the_listed_files
    (writable : string -> bool) (items : list Item.t)
    (uniqueMed : list Med.t) (fs : gmap string Artifact) :
  exitStatus (main writable items uniqueMed fs) = 0 ->
  exists manifest,
    filesOf (main writable items uniqueMed fs) !! MANIFEST_PATH
      = Some (ManifestJson manifest)
    /\ forall p,
         String.prefix chunksPrefix p = true ->
         (is_Some (filesOf (main writable items uniqueMed fs) !! p)
          <-> p = MANIFEST_PATH
              \/ exists c, c ∈ chunks manifest
                           /\ p = join ENRICHED_CHUNKS_DIR (filename c)).
Proof.
  intros Hok. rewrite (main_success _ _ _ _ Hok).
  set (enriched := enrichAll uniqueMed (buildOpenFdaIndexes items)).
  exists (manifestOf enriched).
  split; [apply lookup_allWritten_manifest|].
  intros p Hp. rewrite (lookup_allWritten_inside enriched fs p Hp).
  cbn [chunks manifestOf].
  assert (Hnames : forall q,
            (exists k, 1 <= k <= length (slicesOf enriched) /\ q = chunkPath k)
            <-> exists c, c ∈ metasOf 0 (slicesOf enriched)
                          /\ q = join ENRICHED_CHUNKS_DIR (filename c)).
  { intros q. split.
    - intros (k & Hk & ->).
      destruct (lookup_lt_is_Some_2 (slicesOf enriched) (k - 1))
        as [sl Hsl]; [lia|].
      exists {| filename := chunkName (0 + (k - 1) + 1); count := length sl |}.
      split.
      + apply list_elem_of_lookup. exists (k - 1).
        by rewrite metasOf_lookup, Hsl.
      + cbn [filename]. unfold chunkPath. do 2 f_equal. lia.
    - intros (c & (j & Hj)%list_elem_of_lookup & ->).
      rewrite metasOf_lookup in Hj.
      destruct (slicesOf enriched !! j) as [sl|] eqn:Hsl; [|done].
      cbn in Hj. injection Hj as <-. cbn [filename].
      apply lookup_lt_Some in Hsl. exists (0 + j + 1). split; [lia|done]. }
  by rewrite Hnames.
Qed.

Lemma chunk_directory_holds_only_the_listed_files_witness :
  exitStatus (main allWritable exItems [exMed; exUnmatched]
                {[chunkPath 7 := EnrichedJson []]}) = 0
  /\ exists manifest,
       filesOf (main allWritable exItems [exMed; exUnmatched]
                  {[chunkPath 7 := EnrichedJson []]}) !! MANIFEST_PATH
         = Some (ManifestJson manifest)
       /\ forall p,
            String.prefix chunksPrefix p = true ->
            (is_Some (filesOf (main allWritable exItems [exMed; exUnmatched]
                                 {[chunkPath 7 := EnrichedJson []]}) !! p)
             <-> p = MANIFEST_PATH
                 \/ exists c, c ∈ chunks manifest
                              /\ p = join ENRICHED_CHUNKS_DIR (filename c)).
Proof.
  assert (H : exitStatus (main allWritable exItems [exMed; exUnmatched]
                            {[chunkPath 7 := EnrichedJson []]}) = 0)
    by (vm_compute; reflexivity).
  split; [exact H|].
  exact (chunk_directory_holds_only_the_listed_files
           allWritable exItems [exMed; exUnmatched]
           {[chunkPath 7 := EnrichedJson []]} H).
Defined.

Lemma main_targets_writable writable items uniqueMed fs :
  Forall (fun p => writable p = true)
    (targets (enrichAll uniqueMed (buildOpenFdaIndexes items))) ->
  writable ENRICHED_CHUNKS_DIR = true ->
  exitStatus (main writable items uniqueMed fs) = 0.
Proof.
  intros Hall Hdir.
  pose proof (main_outcome writable items uniqueMed fs) as H. cbn zeta in H.
  destruct (main writable items uniqueMed fs) as [[] fs'|fs']; [done|].
  destruct (failed_target _ _ _ _ H) as (p & [Hp| ->] & Hw).
  - rewrite Forall_forall in Hall. rewrite (Hall p Hp) in Hw. done.
  - congruence.
Qed.

Lemma main_success_targets writable items uniqueMed fs :
  exitStatus (main writable items uniqueMed fs) = 0 ->
  Forall (fun p => writable p = true)
    (targets (enrichAll uniqueMed (buildOpenFdaIndexes items)))
  /\ writable ENRICHED_CHUNKS_DIR = true.
Proof.
  pose proof (main_outcome writable items uniqueMed fs) as H. cbn zeta in H.
  destruct (main writable items uniqueMed fs) as [[] fs'|fs']; [|done].
  intros _. by destruct H.
Qed.

Lemma allWritten_idem enriched fs :
  allWritten enriched (allWritten enriched fs) = allWritten enriched fs.
Proof.
  apply map_eq. intros p.
  destruct (String.prefix chunksPrefix p) eqn:Hp.
  - pose proof (lookup_allWritten_inside enriched (allWritten enriched fs) p Hp)
      as H2.
    pose proof (lookup_allWritten_inside enriched fs p Hp) as H1.
    destruct (decide (p = MANIFEST_PATH)) as [->|Hm].
    { by rewrite !lookup_allWritten_manifest. }
    destruct (decide (p ∈ chunkPath <$> seq 1 (length (slicesOf enriched))))
      as [Hin|Hnin].
    + apply list_elem_of_fmap in Hin as (k & -> & Hk%elem_of_seq).
      destruct (lookup_lt_is_Some_2 (slicesOf enriched) (k - 1))
        as [sl Hsl]; [lia|].
      replace k with (k - 1 + 1) by lia.
      by rewrite !(lookup_allWritten_chunk enriched _ (k - 1) sl Hsl).
    + assert (Hno : ~ (p = MANIFEST_PATH
                       \/ exists k, 1 <= k <= length (slicesOf enriched)
                                    /\ p = chunkPath k)).
      { intros [?|(k & Hk & ->)]; [done|]. apply Hnin.
        apply list_elem_of_fmap_2, elem_of_seq. lia. }
      assert (E1 : allWritten enriched fs !! p = None)
        by (apply eq_None_not_Some; by rewrite H1).
      assert (E2 : allWritten enriched (allWritten enriched fs) !! p = None)
        by (apply eq_None_not_Some; by rewrite H2).
      by rewrite E1, E2.
  - destruct (decide (p = OUT_ENRICHED_PUBLIC)) as [->|H1].
    { by rewrite !lookup_allWritten_out. }
    destruct (decide (p = OUT_SEARCH_INDEX_PUBLIC)) as [->|H2].
    { by rewrite !lookup_allWritten_search. }
    destruct (decide (p = DESC_CLASS_MAP_PATH)) as [->|H3].
    { unfold allWritten. by rewrite !lookup_insert_eq. }
    by rewrite (lookup_allWritten_other enriched (allWritten enriched fs)).
Qed.

(** X20: a run that ends with status 0 can be repeated: run again on the
    files it left, with the same inputs, it ends with status 0 again and
    leaves the same files. *)
Theorem successful_run_is_idempotent
    (writable : string -> bool) (items : list Item.t)
    (uniqueMed : list Med.t) (fs : gmap string Artifact) :
  exitStatus (main writable items uniqueMed fs) = 0 ->
  exitStatus (main writable items uniqueMed
                (filesOf (main writable items uniqueMed fs))) = 0
  /\ filesOf (main writable items uniqueMed
                (filesOf (main writable items uniqueMed fs)))
     = filesOf (main writable items uniqueMed fs).
Proof.
  intros Hok.
  assert (Hok2 : exitStatus (main writable items uniqueMed
                   (filesOf (main writable items uniqueMed fs))) = 0)
    by (destruct (main_success_targets _ _ _ fs Hok);
        by apply main_targets_writable).
  split; [exact Hok2|].
  rewrite (main_success _ _ _ _ Hok2), (main_success _ _ _ _ Hok).
  apply allWritten_idem.
Qed.

Lemma successful_run_is_idempotent_witness :
  exitStatus (main allWritable exItems [exMed; exUnmatched] ∅) = 0
  /\ exitStatus (main allWritable exItems [exMed; exUnmatched]
                   (filesOf (main allWritable exItems [exMed; exUnmatched] ∅)))
     = 0
  /\ filesOf (main allWritable exItems [exMed; exUnmatched]
                (filesOf (main allWritable exItems [exMed; exUnmatched] ∅)))
     = filesOf (main allWritable exItems [exMed; exUnmatched] ∅).
Proof.
  assert (H : exitStatus (main allWritable exItems [exMed; exUnmatched] ∅) = 0)
    by (vm_compute; reflexivity).
  split; [exact H|].
  exact (successful_run_is_idempotent
           allWritable exItems [exMed; exUnmatched] ∅ H).
Defined.

(** ** The price list reader *)

Lemma read_snoc records r :
  Csv.read (records ++ [r]) = Csv.step (Csv.read records) r.
Proof. unfold Csv.read. by rewrite fold_left_app. Qed.

Lemma firstOfKey_snoc_old records r i r0 :
  i < length records ->
  firstOfKey (records ++ [r]) i r0 <-> firstOfKey records i r0.
Proof.
  intros Hi. unfold firstOfKey. rewrite lookup_app_l by done.
  split; intros [H1 H2]; (split; [done|]); intros j r' Hj Hr'.
  - apply (H2 j r' Hj). by rewrite lookup_app_l by lia.
  - apply (H2 j r' Hj). by rewrite lookup_app_l in Hr' by lia.
Qed.

Lemma firstOfKey_snoc_new records r r0 :
  firstOfKey (records ++ [r]) (length records) r0
  <-> r0 = r /\ recordKey r ∉ recordKey <$> records.
Proof.
  unfold firstOfKey. rewrite list_lookup_middle by done. split.
  - intros [[= <-] H]. split; [done|].
    intros (r' & Hk & (j & Hj)%list_elem_of_lookup)%list_elem_of_fmap.
    apply (H j r'); [by apply lookup_lt_Some in Hj| |done].
    by rewrite lookup_app_l by (by apply lookup_lt_Some in Hj).
  - intros [-> H]. split; [done|]. intros j r' Hj Hr' Hk.
    rewrite lookup_app_l in Hr' by done. apply H.
    apply list_elem_of_fmap. exists r'. split; [done|].
    apply list_elem_of_lookup. by exists j.
Qed.

Lemma firstOfKey_lt records i r : firstOfKey records i r -> i < length records.
Proof. intros [H _]. by apply lookup_lt_Some in H. Qed.

(** What the reader has after the records read so far. *)
Lemma read_inv records :
  (forall k, k ∈ Csv.seen (Csv.read records) <-> k ∈ recordKey <$> records)
  /\ (forall k, k ∈ medKey <$> Csv.unique (Csv.read records)
                <-> k ∈ Csv.seen (Csv.read records))
  /\ NoDup (medKey <$> Csv.unique (Csv.read records))
  /\ Csv.rows (Csv.read records) = length records
  /\ length (Csv.unique (Csv.read records)) + Csv.deduped (Csv.read records)
     = length records
  /\ sublist (Csv.unique (Csv.read records)) (Csv.toMed <$> records)
  /\ (forall m, m ∈ Csv.unique (Csv.read records)
                <-> exists i r, firstOfKey records i r /\ Csv.toMed r = m).
Proof.
  induction records as [|r records IH] using rev_ind.
  - change (Csv.read []) with Csv.start.
    cbn [Csv.start Csv.seen Csv.unique Csv.rows Csv.deduped fmap list_fmap
         length].
    split; [set_solver|]. split; [set_solver|]. split; [constructor|].
    split; [done|]. split; [done|]. split; [constructor|].
    intros m. split; [by intros ?%elem_of_nil|].
    by intros (i & r & [H _] & _).
  - destruct IH as (Hseen & Hkeys & Hnd & Hrows & Hcount & Hsub & Hfirst).
    rewrite read_snoc. set (st := Csv.read records) in *.
    rewrite !fmap_app, length_app. cbn [fmap list_fmap length].
    unfold Csv.step. fold (recordKey r).
    destruct (decide (recordKey r ∈ Csv.seen st)) as [Hin|Hnin];
      cbn [Csv.seen Csv.unique Csv.rows Csv.deduped].
    + split; [|split; [done|split; [done|split; [lia|split; [lia|split]]]]].
      * intros k. rewrite elem_of_app, list_elem_of_singleton, <- Hseen.
        split; [by left|]. by intros [?| ->].
      * by apply sublist_inserts_r.
      * intros m. rewrite Hfirst. split.
        -- intros (i & r0 & Hf & Hm). exists i, r0. split; [|done].
           apply firstOfKey_snoc_old; [by eapply firstOfKey_lt|done].
        -- intros (i & r0 & Hf & Hm).
           pose proof (firstOfKey_lt _ _ _ Hf) as Hi.
           rewrite length_app in Hi. cbn in Hi.
           destruct (decide (i = length records)) as [->|Hne].
           ++ apply firstOfKey_snoc_new in Hf as [-> Hf].
              destruct Hf. by apply Hseen.
           ++ exists i, r0. split; [|done].
              apply (firstOfKey_snoc_old records r); [lia|done].
    + rewrite fmap_app, length_app. cbn [fmap list_fmap length].
      change (medKey (Csv.toMed r)) with (recordKey r).
      split; [|split; [|split; [|split; [lia|split; [lia|split]]]]].
      * intros k. rewrite elem_of_union, elem_of_singleton, elem_of_app,
          list_elem_of_singleton, Hseen. tauto.
      * intros k. rewrite elem_of_union, elem_of_singleton, elem_of_app,
          list_elem_of_singleton, Hkeys. tauto.
      * apply NoDup_app. split; [done|]. split; [|apply NoDup_singleton].
        intros k Hk ->%list_elem_of_singleton. by apply Hnin, Hkeys.
      * apply sublist_app; [done|]. by apply sublist_skip.
      * intros m. rewrite elem_of_app, list_elem_of_singleton, Hfirst. split.
        -- intros [(i & r0 & Hf & Hm)| ->].
           ++ exists i, r0. split; [|done].
              apply firstOfKey_snoc_old; [by eapply firstOfKey_lt|done].
           ++ exists (length records), r. split; [|done].
              apply firstOfKey_snoc_new. split; [done|]. by rewrite <- Hseen.
        -- intros (i & r0 & Hf & Hm).
           pose proof (firstOfKey_lt _ _ _ Hf) as Hi.
           rewrite length_app in Hi. cbn in Hi.
           destruct (decide (i = length records)) as [->|Hne].
           ++ apply firstOfKey_snoc_new in Hf as [-> _]. by right.
           ++ left. exists i, r0. split; [|done].
              apply (firstOfKey_snoc_old records r); [lia|done].
Qed.

Lemma StronglySorted_snoc (l : list nat) (n : nat) :
  StronglySorted lt l -> Forall (fun i => i < n) l ->
  StronglySorted lt (l ++ [n]).
Proof.
  induction l as [|x l IH]; intros Hs Hall; cbn.
  - repeat constructor.
  - apply StronglySorted_inv in Hs as [Hs Hx].
    apply Forall_cons in Hall as [Hxn Hall].
    constructor; [by apply IH|].
    apply Forall_app. split; [done|]. by repeat constructor.
Qed.

(** The rows kept are the records at the first positions of the keys, in
    the order of these positions. *)
Lemma read_positions records :
  exists positions,
    firstPositions records positions
    /\ Forall (fun i => i < length records) positions
    /\ Forall2 (fun i m => exists r, records !! i = Some r /\ m = Csv.toMed r)
         positions (Csv.unique (Csv.read records)).
Proof.
  induction records as [|r records IH] using rev_ind.
  - exists []. split; [|split; constructor]. split; [constructor|].
    intros i. split; [by intros ?%elem_of_nil|]. by intros (r & [H _]).
  - destruct IH as (positions & [Hsort Hmem] & Hlt & Hrows).
    destruct (read_inv records) as (Hseen & _).
    rewrite read_snoc. unfold Csv.step. fold (recordKey r).
    assert (Hold : Forall2
              (fun i m => exists r0,
                          (records ++ [r]) !! i = Some r0 /\ m = Csv.toMed r0)
              positions (Csv.unique (Csv.read records))).
    { eapply Forall2_impl; [exact Hrows|].
      intros i m (r0 & Hi & ->). exists r0. split; [|done].
      rewrite lookup_app_l; [done|]. by apply lookup_lt_Some in Hi. }
    assert (Hlt' : Forall (fun i => i < length (records ++ [r])) positions).
    { eapply Forall_impl; [exact Hlt|]. intros i Hi. cbn beta in Hi.
      rewrite length_app. cbn [length]. lia. }
    destruct (decide (recordKey r ∈ Csv.seen (Csv.read records)))
      as [Hin|Hnin]; cbn [Csv.unique].
    + exists positions. split; [split; [done|]|by split].
      intros i. rewrite Hmem. split.
      * intros (r0 & Hf). exists r0.
        apply firstOfKey_snoc_old; [by eapply firstOfKey_lt|done].
      * intros (r0 & Hf).
        pose proof (firstOfKey_lt _ _ _ Hf) as Hi.
        rewrite length_app in Hi. cbn in Hi.
        destruct (decide (i = length records)) as [->|Hne].
        -- apply firstOfKey_snoc_new in Hf as [-> Hf].
           destruct Hf. by apply Hseen.
        -- exists r0. apply (firstOfKey_snoc_old records r); [lia|done].
    + exists (positions ++ [length records]). split; [split|split].
      * by apply StronglySorted_snoc.
      * intros i. rewrite elem_of_app, list_elem_of_singleton, Hmem. split.
        -- intros [(r0 & Hf)| ->].
           ++ exists r0.
              apply firstOfKey_snoc_old; [by eapply firstOfKey_lt|done].
           ++ exists r. apply firstOfKey_snoc_new. split; [done|].
              by rewrite <- Hseen.
        -- intros (r0 & Hf).
           pose proof (firstOfKey_lt _ _ _ Hf) as Hi.
           rewrite length_app in Hi. cbn in Hi.
           destruct (decide (i = length records)) as [->|Hne]; [by right|].
           left. exists r0.
           apply (firstOfKey_snoc_old records r); [lia|done].
      * apply Forall_app. split; [done|]. constructor; [|constructor].
        rewrite length_app. cbn. lia.
      * apply Forall2_app; [done|]. constructor; [|constructor].
        exists r. split; [|done]. by rewrite list_lookup_middle.
Qed.

(** X21: the price list reader counts every record, keeps a record exactly
    when no earlier record has the same description and code text (joined
    by two bars), keeps the kept ones in file order, and counts the others
    as duplicates: the rows kept are, in increasing order of position, the
    records that are the first with their key, so no two have the same key;
    kept and duplicates add up to the records read; and reading one more
    record appends its row exactly when its key is new. *)
Theorem reader_keeps_the_first_record_of_each_key (records : list Csv.Row) :
  (exists positions,
     firstPositions records positions
     /\ Forall2 (fun i m => exists r, records !! i = Some r /\ m = Csv.toMed r)
          positions (buildMedicaidUnique records))
  /\ NoDup (medKey <$> buildMedicaidUnique records)
  /\ Csv.rows (Csv.read records) = length records
  /\ length (buildMedicaidUnique records) + Csv.deduped (Csv.read records)
     = length records
  /\ (forall r,
        buildMedicaidUnique (records ++ [r])
        = buildMedicaidUnique records
          ++ (if decide (recordKey r ∈ recordKey <$> records) then []
              else [Csv.toMed r])).
Proof.
  destruct (read_inv records) as (Hseen & _ & Hnd & Hrows & Hcount & _).
  destruct (read_positions records) as (positions & Hfirst & _ & Hall).
  unfold buildMedicaidUnique.
  split; [by exists positions|]. split; [done|]. split; [done|].
  split; [done|].
  intros r. rewrite read_snoc. unfold Csv.step. fold (recordKey r).
  destruct (decide (recordKey r ∈ Csv.seen (Csv.read records))) as [Hin|Hnin];
    cbn [Csv.unique].
  - rewrite decide_True by (by apply Hseen). by rewrite app_nil_r.
  - rewrite decide_False; [done|]. by rewrite <- Hseen.
Qed.

Lemma noBar_with_bar d x : noBar (d +:+ String "|" x) = false.
Proof.
  unfold noBar. rewrite all_app_str. cbn. apply andb_false_r.
Qed.

Lemma afterLastBar_key d n :
  noBar n = true -> afterLastBar (Csv.key d n) = n.
Proof.
  intros Hn. unfold Csv.key.
  change ("||" +:+ n) with (String "|" (String "|" n)).
  induction d as [|c d IH].
  - change ("" +:+ ?s) with s. cbn [afterLastBar].
    change (noBar (String "|" n)) with (noBar ("" +:+ String "|" n)).
    by rewrite (noBar_with_bar "" n), Hn.
  - rewrite app_cons_str. cbn [afterLastBar].
    by rewrite noBar_with_bar.
Qed.

Lemma key_inj d1 n1 d2 n2 :
  noBar n1 = true -> noBar n2 = true ->
  Csv.key d1 n1 = Csv.key d2 n2 -> d1 = d2 /\ n1 = n2.
Proof.
  intros H1 H2 H.
  assert (Hn : n1 = n2).
  { apply (f_equal afterLastBar) in H. by rewrite !afterLastBar_key in H. }
  subst n2. split; [|done]. by apply (app_inj_r d1 d2 ("||" +:+ n1)).
Qed.

(** X22: when no product code of the price list contains a bar, the reader
    keeps one row for each distinct pair of description and code: every
    record's pair is the pair of a kept row, no two kept rows have the same
    pair, and the rows kept are as many as the distinct pairs. *)
Theorem reader_keeps_one_row_per_description_and_code
    (records : list Csv.Row) :
  Forall (fun r => noBar (Csv.ndc r) = true) records ->
  (forall r, r ∈ records ->
     exists m, m ∈ buildMedicaidUnique records /\ medPair m = recordPair r)
  /\ NoDup (medPair <$> buildMedicaidUnique records)
  /\ length (buildMedicaidUnique records)
     = length (remove_dups (recordPair <$> records)).
Proof.
  intros Hbar. rewrite Forall_forall in Hbar.
  destruct (read_inv records) as (Hseen & Hkeys & Hnd & _ & _ & Hsub & _).
  unfold buildMedicaidUnique.
  assert (Hfrom : forall m, m ∈ Csv.unique (Csv.read records) ->
            exists r, r ∈ records /\ m = Csv.toMed r).
  { intros m Hm. apply (elem_of_sublist _ _ _ Hm) in Hsub as Hm'.
    clear Hm. rename Hm' into Hm.
    apply list_elem_of_fmap in Hm as (r & -> & Hr). by exists r. }
  assert (Hall : forall r, r ∈ records ->
            exists m, m ∈ Csv.unique (Csv.read records)
                      /\ medPair m = recordPair r).
  { intros r Hr.
    assert (Hk : recordKey r ∈ medKey <$> Csv.unique (Csv.read records)).
    { apply Hkeys, Hseen. by apply list_elem_of_fmap_2. }
    apply list_elem_of_fmap in Hk as (m & Hk & Hm). exists m. split; [done|].
    destruct (Hfrom m Hm) as (r' & Hr' & ->).
    change (medKey (Csv.toMed r')) with (recordKey r') in Hk.
    apply key_inj in Hk as [Hd Hn]; [|by apply Hbar..].
    unfold medPair, recordPair. cbn. by rewrite Hd, Hn. }
  assert (Hnd2 : NoDup (medPair <$> Csv.unique (Csv.read records))).
  { assert (Hnd' : NoDup ((fun p => Csv.key p.1 p.2)
                            <$> (medPair <$> Csv.unique (Csv.read records))))
      by (by rewrite <- list_fmap_compose).
    by apply NoDup_fmap_1 in Hnd'. }
  split; [exact Hall|]. split; [exact Hnd2|].
  rewrite <- (length_fmap medPair). apply Permutation_length.
  apply NoDup_Permutation; [done|apply NoDup_remove_dups|].
  intros p. rewrite elem_of_remove_dups. split.
  - intros (m & -> & Hm)%list_elem_of_fmap.
    destruct (Hfrom m Hm) as (r & Hr & ->).
    apply list_elem_of_fmap. by exists r.
  - intros (r & -> & Hr)%list_elem_of_fmap.
    destruct (Hall r Hr) as (m & Hm & <-). by apply list_elem_of_fmap_2.
Qed.

Lemma reader_keeps_one_row_per_description_and_code_witness :
  Forall (fun r => noBar (Csv.ndc r) = true) exRecords
  /\ (forall r, r ∈ exRecords ->
        exists m, m ∈ buildMedicaidUnique exRecords
                  /\ medPair m = recordPair r)
  /\ NoDup (medPair <$> buildMedicaidUnique exRecords)
  /\ length (buildMedicaidUnique exRecords)
     = length (remove_dups (recordPair <$> exRecords)).
Proof.
  assert (H : Forall (fun r => noBar (Csv.ndc r) = true) exRecords)
    by (repeat constructor).
  split; [exact H|].
  exact (reader_keeps_one_row_per_description_and_code exRecords H).
Defined.

(** Codes with bars can make the keys of different pairs coincide: the
    second of these two records is dropped as a duplicate of the first. *)
Example reader_merges_rows_with_colliding_keys (a b : string) :
  buildMedicaidUnique [record_of ("x" +:+ a +:+ "||") ("y" +:+ b) "1";
                       record_of ("x" +:+ a) ("||y" +:+ b) "2"]
  = [Csv.toMed (record_of ("x" +:+ a +:+ "||") ("y" +:+ b) "1")].
Proof.
  unfold buildMedicaidUnique, Csv.read. cbn [fold_left].
  assert (Hk : forall d n p, recordKey (record_of ("x" +:+ d) n p)
                             = Csv.key ("x" +:+ d) n).
  { intros d n p. unfold recordKey.
    assert (Csv.desc (record_of ("x" +:+ d) n p) = "x" +:+ d) as ->.
    { unfold Csv.desc, Csv.field, record_of, Csv.Row.
      rewrite lookup_insert_eq. reflexivity. }
    assert (Csv.ndc (record_of ("x" +:+ d) n p) = n) as ->; [|done].
    unfold Csv.ndc, record_of, Csv.Row.
    rewrite lookup_insert_ne, lookup_insert_eq by done. by destruct n. }
  unfold Csv.step at 2. cbn [Csv.start Csv.seen].
  rewrite decide_False by set_solver.
  unfold Csv.step. cbn [Csv.seen Csv.unique app].
  fold (recordKey (record_of ("x" +:+ a) ("||y" +:+ b) "2")).
  fold (recordKey (record_of ("x" +:+ a +:+ "||") ("y" +:+ b) "1")).
  rewrite (Hk a), (Hk (a +:+ "||")).
  rewrite decide_True; [done|].
  apply elem_of_union_l, elem_of_singleton. unfold Csv.key.
  by rewrite !app_assoc_str.
Qed.

Lemma enrichAll_keys uniqueMed openIdx :
  enrichedKey <$> enrichAll uniqueMed openIdx = medKey <$> uniqueMed.
Proof.
  unfold enrichAll. induction uniqueMed as [|med l IH]; [done|].
  cbn [List.map fmap list_fmap]. f_equal; [|exact IH].
  by destruct (enrichOne_cases openIdx med) as [[_ ->]|(_ & _ & ->)].
Qed.

Lemma enrichAll_positions (records : list Csv.Row) (positions : list nat)
    (uniqueMed : list Med.t) (openIdx : OpenIdx) :
  Forall2 (fun i m => exists r, records !! i = Some r /\ m = Csv.toMed r)
    positions uniqueMed ->
  Forall2 (fun i e => exists r,
             records !! i = Some r
             /\ Enriched.ndc_description e = Csv.desc r
             /\ Enriched.ndc e = Csv.ndc r)
    positions (enrichAll uniqueMed openIdx).
Proof.
  unfold enrichAll. induction 1 as [|i m positions l (r & Hr & ->) _ IH];
    cbn [List.map]; constructor; [|exact IH].
  exists r. split; [done|].
  by destruct (enrichOne_cases openIdx (Csv.toMed r))
    as [[_ ->]|(_ & _ & ->)].
Qed.

(** X23: reading the price list and then running the pipeline on the rows
    kept, when the run ends with status 0: the consolidated file holds one
    record for each distinct key of the price list, in the order in which
    the keys first occur - its records carry, one after the other, the
    description and the code of the records that are the first with their
    key, in increasing order of position - and the manifest's total is the
    number of price records less the duplicates the reader counted. *)
Theorem output_has_one_record_per_price_list_key
    (writable : string -> bool) (items : list Item.t)
    (records : list Csv.Row) (fs : gmap string Artifact) :
  exitStatus (main writable items (buildMedicaidUnique records) fs) = 0 ->
  exists enriched manifest positions,
    filesOf (main writable items (buildMedicaidUnique records) fs)
      !! OUT_ENRICHED_PUBLIC = Some (EnrichedJson enriched)
    /\ filesOf (main writable items (buildMedicaidUnique records) fs)
         !! MANIFEST_PATH = Some (ManifestJson manifest)
    /\ firstPositions records positions
    /\ Forall2 (fun i e => exists r,
                  records !! i = Some r
                  /\ Enriched.ndc_description e = Csv.desc r
                  /\ Enriched.ndc e = Csv.ndc r)
         positions enriched
    /\ NoDup (enrichedKey <$> enriched)
    /\ (forall k, k ∈ enrichedKey <$> enriched <-> k ∈ recordKey <$> records)
    /\ total manifest + Csv.deduped (Csv.read records) = length records.
Proof.
  intros Hok. rewrite (main_success _ _ _ _ Hok).
  set (enriched := enrichAll (buildMedicaidUnique records)
                     (buildOpenFdaIndexes items)).
  destruct (read_positions records) as (positions & Hfirst & _ & Hall).
  exists enriched, (manifestOf enriched), positions.
  split; [apply lookup_allWritten_out|].
  split; [apply lookup_allWritten_manifest|].
  split; [exact Hfirst|].
  split; [by apply enrichAll_positions|].
  destruct (read_inv records) as (Hseen & Hkeys & Hnd & _ & Hcount & _).
  unfold enriched. rewrite enrichAll_keys. unfold buildMedicaidUnique.
  split; [exact Hnd|]. split.
  - intros k. by rewrite Hkeys, Hseen.
  - cbn [total manifestOf]. by rewrite length_enrichAll.
Qed.

Lemma output_has_one_record_per_price_list_key_witness :
  exitStatus (main allWritable exItems (buildMedicaidUnique exRecords) ∅) = 0
  /\ exists enriched manifest positions,
       filesOf (main allWritable exItems (buildMedicaidUnique exRecords) ∅)
         !! OUT_ENRICHED_PUBLIC = Some (EnrichedJson enriched)
       /\ filesOf (main allWritable exItems (buildMedicaidUnique exRecords) ∅)
            !! MANIFEST_PATH = Some (ManifestJson manifest)
       /\ firstPositions exRecords positions
       /\ Forall2 (fun i e => exists r,
                     exRecords !! i = Some r
                     /\ Enriched.ndc_description e = Csv.desc r
                     /\ Enriched.ndc e = Csv.ndc r)
            positions enriched
       /\ NoDup (enrichedKey <$> enriched)
       /\ (forall k, k ∈ enrichedKey <$> enriched
                     <-> k ∈ recordKey <$> exRecords)
       /\ total manifest + Csv.deduped (Csv.read exRecords)
          = length exRecords.
Proof.
  assert (H : exitStatus (main allWritable exItems
                            (buildMedicaidUnique exRecords) ∅) = 0)
    by (vm_compute; reflexivity).
  split; [exact H|].
  exact (output_has_one_record_per_price_list_key
           allWritable exItems exRecords ∅ H).
Defined.

(** ** The reverse phase *)

(** The reverse phase sees every record stored under a longer key that
    contains the identifier. *)
Lemma reversePhase_sees openIdx medDigits st L key arr r :
  In L (JsMap.keys (ndcByLength openIdx)) ->
  String.length medDigits < L ->
  In (key, arr) (bucketOf (ndcByLength openIdx) L) ->
  Str.includes key medDigits = true ->
  In r arr ->
  sigOf r ∈ (reversePhase openIdx medDigits st).2.
Proof.
  intros HL Hlt Hka Hinc Hr. unfold reversePhase.
  apply (fold_left_reaches _ _ L).
  - intros st' L'. apply (Grows_seen reverse openIdx), reverseStep_grows.
  - intros st'. unfold reverseStep.
    apply (fold_left_reaches _ _ (key, arr)).
    + intros st'' [k a]. cbn [fst snd].
      destruct (Str.includes k medDigits); [apply pushRecs_mono|done].
    + intros st''. cbn [fst snd]. rewrite Hinc. by apply pushRecs_seen.
    + by apply list_elem_of_In.
  - apply list_elem_of_In, filter_In. split.
    + apply list_elem_of_In. unfold lengthsAsc.
      rewrite merge_sort_Permutation. by apply list_elem_of_In.
    + by apply Nat.ltb_lt.
Qed.

(** X24: the reverse phase misses nothing: when the result for an
    identifier with a digit has no forward match, it holds the reverse
    match of every record of the index whose variant is longer than the
    normalised identifier and contains it. *)
Theorem reverse_phase_finds_every_containing_variant
    (medNdcOriginal : string) (items : list Item.t) (r : IdxRec) :
  storedIn (ndcByLength (buildOpenFdaIndexes items)) r ->
  Str.truthy (normalizeMedNdc medNdcOriginal) = true ->
  String.length (normalizeMedNdc medNdcOriginal) < String.length (variant r) ->
  Str.includes (variant r) (normalizeMedNdc medNdcOriginal) = true ->
  Forall (fun m => Match.matchMode m = reverse)
    (collectOpenFdaNdcMatches medNdcOriginal (buildOpenFdaIndexes items)) ->
  In (matchOf reverse (entries (buildOpenFdaIndexes items)) r)
     (collectOpenFdaNdcMatches medNdcOriginal (buildOpenFdaIndexes items)).
Proof.
  set (openIdx := buildOpenFdaIndexes items).
  set (medDigits := normalizeMedNdc medNdcOriginal).
  intros (L & b & key & arr & HL & Hk & Hr) Hdig Hlt Hinc Hrev.
  assert (Hst : Stored (fun _ => True) (ndcByLength openIdx)).
  { eapply Stored_weaken; [|apply Stored_build]. done. }
  destruct (Hst L b key arr HL Hk) as [Hlen Hvar].
  destruct (Hvar r Hr) as [Hv _].
  destruct (KeysOnce_build items) as [Hnd _]. fold openIdx in Hnd.
  assert (Hb : bucketOf (ndcByLength openIdx) L = b).
  { unfold bucketOf. by rewrite (In_get Nat.eqb nat_eqb_eq L b _ Hnd HL). }
  assert (Hf : StateOk (isForward medDigits)
                 (forwardPhase openIdx medDigits ([], ∅))).
  { apply forwardPhase_ok; [done|]. split; [apply Forall_nil_2|done]. }
  destruct Hf as [Hfwd Hseen].
  unfold collectOpenFdaNdcMatches in *. fold medDigits in Hrev |- *.
  rewrite Hdig in *. cbn [negb] in *.
  destruct (forwardPhase openIdx medDigits ([], ∅)) as [fwd seen].
  cbn [fst snd] in *. destruct fwd as [|m fwd].
  - cbn [length Nat.ltb Nat.leb] in *. rewrite (Hseen eq_refl).
    pose proof (reversePhase_grows openIdx medDigits ([], ∅))
      as (rs & H1 & H2 & _ & _).
    assert (Hsig : sigOf r ∈ (reversePhase openIdx medDigits ([], ∅)).2).
    { apply (reversePhase_sees openIdx medDigits _ L key arr r).
      - change L with (fst (L, b)). by apply in_map.
      - by rewrite <- Hlen, <- Hv.
      - by rewrite Hb.
      - by rewrite <- Hv.
      - done. }
    rewrite H1. rewrite H2 in Hsig. cbn [fst snd app] in *.
    rewrite elem_of_union, elem_of_list_to_set in Hsig.
    destruct Hsig as [(r' & Heq & Hr')%list_elem_of_fmap|?%elem_of_empty];
      [|done].
    apply sigOf_inj in Heq as ->.
    apply list_elem_of_In. by apply list_elem_of_fmap_2.
  - cbn [length Nat.ltb Nat.leb] in *.
    apply Forall_cons in Hrev as [Hm _]. apply Forall_cons in Hfwd as [[Hm' _] _].
    congruence.
Qed.

Lemma reverse_phase_finds_every_containing_variant_witness :
  storedIn (ndcByLength (buildOpenFdaIndexes exItems)) (recOf 0 digits "12345")
  /\ Str.truthy (normalizeMedNdc "3-45") = true
  /\ String.length (normalizeMedNdc "3-45")
     < String.length (variant (recOf 0 digits "12345"))
  /\ Str.includes (variant (recOf 0 digits "12345")) (normalizeMedNdc "3-45")
     = true
  /\ Forall (fun m => Match.matchMode m = reverse)
       (collectOpenFdaNdcMatches "3-45" (buildOpenFdaIndexes exItems))
  /\ In (matchOf reverse (entries (buildOpenFdaIndexes exItems))
           (recOf 0 digits "12345"))
        (collectOpenFdaNdcMatches "3-45" (buildOpenFdaIndexes exItems)).
Proof.
  assert (H1 : storedIn (ndcByLength (buildOpenFdaIndexes exItems))
                 (recOf 0 digits "12345")).
  { exists 5, [("12345", [recOf 0 digits "12345"])], "12345",
      [recOf 0 digits "12345"].
    split; [vm_compute; left; reflexivity|]. split; by left. }
  assert (H2 : Str.truthy (normalizeMedNdc "3-45") = true) by reflexivity.
  assert (H3 : String.length (normalizeMedNdc "3-45")
               < String.length (variant (recOf 0 digits "12345")))
    by (vm_compute; lia).
  assert (H4 : Str.includes (variant (recOf 0 digits "12345"))
                 (normalizeMedNdc "3-45") = true) by reflexivity.
  assert (H5 : Forall (fun m => Match.matchMode m = reverse)
                 (collectOpenFdaNdcMatches "3-45"
                    (buildOpenFdaIndexes exItems)))
    by (vm_compute; repeat constructor).
  split; [exact H1|]. split; [exact H2|]. split; [exact H3|].
  split; [exact H4|]. split; [exact H5|].
  exact (reverse_phase_finds_every_containing_variant
           "3-45" exItems (recOf 0 digits "12345") H1 H2 H3 H4 H5).
Defined.
